(** * A model of [ai-security-ml.py]: threat classifier, trainer and endpoint

    The program is a thin layer over an ML framework.  This development
    embeds the program's own logic (forward pass of [AISecurityModel],
    [SecurityPredictor], [train_model], [analyze_threat]) together with the
    part of the framework's behaviour the program relies on.

    Conventions of the embedding.
    - Floating-point tensors are modelled by exact real numbers: rounding,
      overflow and [nan] are outside the model.
    - Python objects live in a heap ([gmap] from locations); a method reads
      and writes the heap through an exception/state monad [M].
    - The process-wide random generator is an explicit stream with a cursor.
    - The pretrained tokenizer, the transformer encoder, reverse-mode
      differentiation and the optimiser's update rule are external; they are
      the fields of the class [External], and what is assumed of them is
      the class [ExternalSpec]. *)

From Stdlib Require Import Reals Lra Lia ZArith List String.
From stdpp Require Import gmap strings list fin_maps.

Local Open Scope string_scope.

(** ** Exceptions and results *)

Inductive exn :=
  | KeyError (key : string)
  | IndexError
  | TypeError (what : string)
  | ValueError (what : string)
  | RuntimeError (what : string)
  | OSError (name : string)
  | AttributeError.

Inductive Result (A : Type) :=
  | Ok (a : A)
  | Raise (e : exn).
Arguments Ok {A} a.
Arguments Raise {A} e.

Definition is_Ok {A} (r : Result A) : Prop := exists a, r = Ok a.
Definition is_Raise {A} (r : Result A) : Prop := exists e, r = Raise e.

(** ** Tensors *)

(** A float tensor of rank 2 (batch x features), row major. *)
Abbreviation Tensor := (list (list R)).

(** Integer tensors of rank 1 (labels) and rank 2 (token ids, masks). *)
Inductive ITensor :=
  | I1 (v : list Z)
  | I2 (rows : list (list Z)).

Module Torch.

Local Open Scope R_scope.

Definition tsum (xs : list R) : R := foldr Rplus 0 xs.

Definition dot (u v : list R) : R := tsum (zip_with Rmult u v).

(** [torch.softmax(x, dim=1)] on one row, and on a rank-2 tensor. *)
Definition softmax_row (xs : list R) : list R :=
  let z := tsum (map exp xs) in map (fun x => exp x / z) xs.

Definition softmax (t : Tensor) : Tensor := map softmax_row t.

(** [t.argmax()] without [dim]: index into the flattened tensor of the
    first maximal entry; an empty tensor has no argmax. *)
Fixpoint argmax_from (best_i : nat) (best : R) (i : nat) (l : list R) : nat :=
  match l with
  | [] => best_i
  | x :: l' =>
      if Rlt_dec best x then argmax_from i x (S i) l'
      else argmax_from best_i best (S i) l'
  end.

Definition argmax (t : Tensor) : Result nat :=
  match concat t with
  | [] => Raise (RuntimeError "argmax of an empty tensor")
  | x :: l => Ok (argmax_from 0 x 1 l)
  end.

(** [t.max()] without [dim]. *)
Definition max_from (best : R) (l : list R) : R := foldl Rmax best l.

Definition max (t : Tensor) : Result R :=
  match concat t with
  | [] => Raise (RuntimeError "max of an empty tensor")
  | x :: l => Ok (max_from x l)
  end.

(** [nn.ReLU]. *)
Definition relu (t : Tensor) : Tensor := map (map (Rmax 0)) t.

(** [nn.Linear]: [weight] has [out_features] rows of [in_features]
    entries. *)
Record Linear := {
  in_features : nat;
  out_features : nat;
  weight : list (list R);
  bias : list R
}.

Definition Linear_shape (l : Linear) : Prop :=
  length (weight l) = out_features l /\
  length (bias l) = out_features l /\
  Forall (fun row => length row = in_features l) (weight l).

Definition linear_row (l : Linear) (x : list R) : list R :=
  zip_with (fun w b => dot w x + b) (weight l) (bias l).

Definition Linear_call (l : Linear) (t : Tensor) : Result Tensor :=
  if forallb (fun x => Nat.eqb (length x) (in_features l)) t
  then Ok (map (linear_row l) t)
  else Raise (RuntimeError "mat1 and mat2 shapes cannot be multiplied").

(** The default generator: a stream of uniform samples and a cursor. *)
Record Generator := {
  samples : nat -> R;
  consumed : nat
}.

Definition draw (n : nat) (g : Generator) : list R * Generator :=
  (map (samples g) (seq (consumed g) n),
   {| samples := samples g; consumed := (consumed g + n)%nat |}).

(** [nn.Dropout(p)]: in training mode every entry is kept with
    probability [1 - p] and scaled by [1 / (1 - p)], else zeroed; in
    evaluation mode the layer is the identity and draws nothing. *)
Definition dropout_entry (p : R) (u x : R) : R :=
  if Rlt_dec u (1 - p) then x / (1 - p) else 0.

Fixpoint dropout_rows (p : R) (t : Tensor) (g : Generator) : Tensor * Generator :=
  match t with
  | [] => ([], g)
  | row :: t' =>
      let '(us, g1) := draw (length row) g in
      let '(rest, g2) := dropout_rows p t' g1 in
      (zip_with (dropout_entry p) us row :: rest, g2)
  end.

Definition Dropout_call (p : R) (training : bool) (t : Tensor) (g : Generator)
  : Tensor * Generator :=
  if training then dropout_rows p t g else (t, g).

(** [nn.Linear.__init__]: weights and bias uniform in
    [(-1/sqrt in, 1/sqrt in)], weights drawn first. *)
Definition init_entry (fan_in : nat) (u : R) : R :=
  (2 * u - 1) / sqrt (INR fan_in).

Fixpoint init_rows (fan_in rows : nat) (g : Generator) : list (list R) * Generator :=
  match rows with
  | O => ([], g)
  | S k =>
      let '(us, g1) := draw fan_in g in
      let '(rest, g2) := init_rows fan_in k g1 in
      (map (init_entry fan_in) us :: rest, g2)
  end.

Definition Linear_init (n_in n_out : nat) (g : Generator) : Linear * Generator :=
  let '(w, g1) := init_rows n_in n_out g in
  let '(us, g2) := draw n_out g1 in
  ({| in_features := n_in; out_features := n_out;
      weight := w; bias := map (init_entry n_in) us |}, g2).

(** [nn.CrossEntropyLoss()] with its defaults: mean over the rows whose
    target is not [ignore_index = -100] of [- log softmax(row)[target]].
    When no row counts the framework yields [nan]; theorems about the loss
    value assume at least one counted row. *)
Definition ignore_index : Z := (-100)%Z.

Fixpoint nll_terms (rows : Tensor) (targets : list Z) : Result (list R) :=
  match rows, targets with
  | row :: rows', y :: targets' =>
      if Z.eqb y ignore_index then nll_terms rows' targets'
      else
        match (if Z.ltb y 0 then None else softmax_row row !! Z.to_nat y) with
        | None => Raise IndexError
        | Some p =>
            match nll_terms rows' targets' with
            | Ok ts => Ok (- ln p :: ts)
            | Raise e => Raise e
            end
        end
  | _, _ => Ok []
  end.

Definition cross_entropy (logits : Tensor) (target : ITensor) : Result R :=
  match target with
  | I1 ys =>
      if Nat.eqb (length logits) (length ys) then
        match nll_terms logits ys with
        | Ok ts => Ok (tsum ts / INR (length ts))
        | Raise e => Raise e
        end
      else Raise (ValueError "input batch_size does not match target batch_size")
  | I2 _ => Raise (RuntimeError "expected a rank-1 tensor of class indices")
  end.

End Torch.

Export Torch.

(** ** Parameters, autograd graphs and objects *)

Abbreviation loc := positive.

(** A pretrained checkpoint on disk: the tokenizer's vocabulary and the
    encoder's weights. *)
Record Checkpoint := {
  ckpt_vocab : list string;
  ckpt_weights : list R
}.

(** The members of an [nn.Sequential]. *)
Inductive Layer :=
  | LLinear (l : Linear)
  | LReLU
  | LDropout (p : R).

(** The learnable state of an [AISecurityModel]: encoder weights, the
    [classifier] stack and the [severity_classifier]. *)
Record Params := {
  bert : list R;
  classifier : list Layer;
  severity_classifier : Linear
}.

(** [nn.Module] state: parameters, their accumulated [.grad], and the
    [training] flags of the encoder and of the rest of the module tree. *)
Record AISecurityModel := {
  params : Params;
  grad : option Params;
  bert_training : bool;
  training : bool
}.

Record SecurityPredictor := {
  tokenizer : list string;
  model : loc;
  attack_types : list string;
  severity_levels : list string
}.

(** What a forward pass was computed from. *)
Record FwdCtx := {
  fwd_model : loc;
  fwd_params : Params;
  fwd_bert_training : bool;
  fwd_training : bool;
  fwd_generator : Generator;
  fwd_input_ids : ITensor;
  fwd_attention_mask : ITensor
}.

Inductive Head := ThreatHead | SeverityHead.

(** The autograd graph hanging off a tensor; a leaf keeps the logits the
    forward pass produced. *)
Inductive Graph :=
  | GLogits (h : Head) (c : FwdCtx) (logits : Tensor)
  | GCrossEntropy (g : Graph) (target : ITensor)
  | GAdd (a b : Graph).

Fixpoint graph_model (g : Graph) : loc :=
  match g with
  | GLogits _ c _ => fwd_model c
  | GCrossEntropy g' _ => graph_model g'
  | GAdd a _ => graph_model a
  end.

(** A tensor with its [grad_fn]. *)
Record Var (A : Type) := {
  data : A;
  grad_fn : option Graph
}.
Arguments data {A} v.
Arguments grad_fn {A} v.

(** The state dictionary of [torch.optim.AdamW]. *)
Record AdamState := {
  adam_steps : nat;
  exp_avg : option Params;
  exp_avg_sq : option Params
}.

Record Optimizer := {
  opt_model : loc;
  lr : R;
  opt_state : AdamState
}.

Inductive obj :=
  | ObjModel (m : AISecurityModel)
  | ObjPredictor (p : SecurityPredictor)
  | ObjOptimizer (o : Optimizer).

(** Calls into the framework, in the order they happen. *)
Inductive Call :=
  | CallTrain (m : loc)
  | CallZeroGrad (o : loc)
  | CallForward (m : loc) (input_ids attention_mask : ITensor)
  | CallBackward (g : Graph) (loss : R)
  | CallStep (o : loc) (rate : R).

Record World := {
  heap : gmap loc obj;
  generator : Generator;
  hub : gmap string Checkpoint;
  grad_mode : bool;
  calls : list Call
}.

Definition set_heap (h : gmap loc obj) (w : World) : World :=
  {| heap := h; generator := generator w; hub := hub w;
     grad_mode := grad_mode w; calls := calls w |}.

Definition set_generator (g : Generator) (w : World) : World :=
  {| heap := heap w; generator := g; hub := hub w;
     grad_mode := grad_mode w; calls := calls w |}.

Definition set_grad_mode (b : bool) (w : World) : World :=
  {| heap := heap w; generator := generator w; hub := hub w;
     grad_mode := b; calls := calls w |}.

Definition add_call (c : Call) (w : World) : World :=
  {| heap := heap w; generator := generator w; hub := hub w;
     grad_mode := grad_mode w; calls := calls w ++ [c] |}.

(** ** The monad of the program: exceptions over state

    A raised exception keeps the state reached so far, as in Python. *)

Definition M (A : Type) : Type := World -> Result A * World.

Definition ret {A} (a : A) : M A := fun w => (Ok a, w).

Definition bind {A B} (m : M A) (k : A -> M B) : M B :=
  fun w => match m w with
           | (Ok a, w') => k a w'
           | (Raise e, w') => (Raise e, w')
           end.

Definition raise {A} (e : exn) : M A := fun w => (Raise e, w).

#[global] Instance M_ret : MRet M := @ret.
#[global] Instance M_bind : MBind M := fun A B k m => bind m k.

Definition lift {A} (r : Result A) : M A := fun w => (r, w).

Definition get_world : M World := fun w => (Ok w, w).

Definition log (c : Call) : M unit := fun w => (Ok tt, add_call c w).

Definition with_generator {A} (f : Generator -> A * Generator) : M A :=
  fun w => let '(a, g) := f (generator w) in (Ok a, set_generator g w).

(** [for x in xs: body]. *)
Fixpoint for_ {A} (xs : list A) (body : A -> M unit) : M unit :=
  match xs with
  | [] => ret tt
  | x :: xs' => body x;; for_ xs' body
  end.

(** [range(n)] for a Python integer. *)
Definition range (n : Z) : list nat := seq 0 (Z.to_nat n).

(** Object allocation and attribute access. *)
Definition alloc (o : obj) : M loc :=
  fun w => let l := fresh (dom (heap w)) in (Ok l, set_heap (<[l := o]> (heap w)) w).

Definition get_model (l : loc) : M AISecurityModel :=
  fun w => match heap w !! l with
           | Some (ObjModel m) => (Ok m, w)
           | _ => (Raise AttributeError, w)
           end.

Definition get_predictor (l : loc) : M SecurityPredictor :=
  fun w => match heap w !! l with
           | Some (ObjPredictor p) => (Ok p, w)
           | _ => (Raise AttributeError, w)
           end.

Definition get_optimizer (l : loc) : M Optimizer :=
  fun w => match heap w !! l with
           | Some (ObjOptimizer o) => (Ok o, w)
           | _ => (Raise AttributeError, w)
           end.

Definition store (l : loc) (o : obj) : M unit :=
  fun w => (Ok tt, set_heap (<[l := o]> (heap w)) w).

(** [xs[i]] on a Python list and [d[k]] on a dict. *)
Definition list_getitem {A} (xs : list A) (i : nat) : M A :=
  match xs !! i with
  | Some x => ret x
  | None => raise IndexError
  end.

Definition dict_getitem {A} (d : gmap string A) (k : string) : M A :=
  match d !! k with
  | Some x => ret x
  | None => raise (KeyError k)
  end.

(** [with torch.no_grad(): body]: gradient recording is switched off for
    the body and restored on the way out, also when the body raises. *)
Definition no_grad {A} (body : M A) : M A :=
  fun w => let prev := grad_mode w in
           let '(r, w') := body (set_grad_mode false w) in
           (r, set_grad_mode prev w').

(** ** External components *)

(** The pretrained tokenizer ([tokenizer(text, return_tensors='pt',
    padding=True, truncation=True)], a dict of integer tensors), the
    pretrained encoder (its [pooler_output]; it may draw from the generator
    in training mode), the gradient of a recorded computation with respect
    to the parameters, and one update of the AdamW rule at a given learning
    rate. *)
Class External := {
  tokenizer_call : list string -> string -> gmap string ITensor;
  bert_forward :
    list R -> bool -> ITensor -> ITensor -> Generator -> Result Tensor * Generator;
  autograd : Graph -> Params;
  AdamW_update : R -> AdamState -> Params -> Params -> Params * AdamState
}.

(** ** Framework calls over the heap *)

Section Program.
Context `{!External}.

Local Open Scope R_scope.

Definition BertTokenizer_from_pretrained (name : string) : M (list string) :=
  fun w => match hub w !! name with
           | Some c => (Ok (ckpt_vocab c), w)
           | None => (Raise (OSError name), w)
           end.

(** [BertModel.from_pretrained] returns the encoder in evaluation mode. *)
Definition BertModel_from_pretrained (name : string) : M (list R) :=
  fun w => match hub w !! name with
           | Some c => (Ok (ckpt_weights c), w)
           | None => (Raise (OSError name), w)
           end.

Definition BertModel_call (weights : list R) (train : bool)
    (input_ids attention_mask : ITensor) : M Tensor :=
  fun w => let '(r, g) := bert_forward weights train input_ids attention_mask (generator w) in
           (r, set_generator g w).

Definition Layer_call (train : bool) (l : Layer) (x : Tensor) : M Tensor :=
  match l with
  | LLinear lin => lift (Linear_call lin x)
  | LReLU => ret (relu x)
  | LDropout p => with_generator (Dropout_call p train x)
  end.

Fixpoint Sequential_call (train : bool) (layers : list Layer) (x : Tensor) : M Tensor :=
  match layers with
  | [] => ret x
  | l :: layers' => y ← Layer_call train l x; Sequential_call train layers' y
  end.

(** [seq[-1]]. *)
Definition last_getitem {A} (xs : list A) : M A :=
  match last xs with
  | Some x => ret x
  | None => raise IndexError
  end.

(** [.grad] accumulation: [+=] entry by entry. *)
Definition vadd (u v : list R) : list R := zip_with Rplus u v.

Definition Linear_add (a b : Linear) : Linear :=
  {| in_features := in_features a; out_features := out_features a;
     weight := zip_with vadd (weight a) (weight b);
     bias := vadd (bias a) (bias b) |}.

Definition Layer_add (a b : Layer) : Layer :=
  match a, b with
  | LLinear x, LLinear y => LLinear (Linear_add x y)
  | _, _ => a
  end.

Definition Params_add (a b : Params) : Params :=
  {| bert := vadd (bert a) (bert b);
     classifier := zip_with Layer_add (classifier a) (classifier b);
     severity_classifier := Linear_add (severity_classifier a) (severity_classifier b) |}.

Definition accumulate (old : option Params) (new : Params) : Params :=
  match old with
  | None => new
  | Some o => Params_add o new
  end.

Definition set_grad (g : option Params) (m : AISecurityModel) : AISecurityModel :=
  {| params := params m; grad := g;
     bert_training := bert_training m; training := training m |}.

Definition set_params (p : Params) (m : AISecurityModel) : AISecurityModel :=
  {| params := p; grad := grad m;
     bert_training := bert_training m; training := training m |}.

Definition tracked {A} (w : World) (g : Graph) (a : A) : Var A :=
  {| data := a; grad_fn := if grad_mode w then Some g else None |}.

(** [loss.backward()]. *)
Definition Tensor_backward (loss : Var R) : M unit :=
  match grad_fn loss with
  | None => raise (RuntimeError "tensor does not require grad")
  | Some g =>
      log (CallBackward g (data loss));;
      m ← get_model (graph_model g);
      store (graph_model g) (ObjModel (set_grad (Some (accumulate (grad m) (autograd g))) m))
  end.

(** [a + b] on tracked scalars. *)
Definition Var_add (a b : Var R) : Var R :=
  {| data := data a + data b;
     grad_fn := match grad_fn a, grad_fn b with
                | Some ga, Some gb => Some (GAdd ga gb)
                | Some ga, None => Some ga
                | None, gb => gb
                end |}.

(** [criterion(input, target)] for [criterion = nn.CrossEntropyLoss()]. *)
Definition CrossEntropyLoss_call (input : Var Tensor) (target : ITensor) : M (Var R) :=
  v ← lift (cross_entropy (data input) target);
  ret {| data := v; grad_fn := (fun g => GCrossEntropy g target) <$> grad_fn input |}.

(** [torch.optim.AdamW(model.parameters(), lr=rate)]. *)
Definition AdamW (model : loc) (rate : R) : M loc :=
  _ ← get_model model;
  alloc (ObjOptimizer {| opt_model := model; lr := rate;
                         opt_state := {| adam_steps := 0; exp_avg := None;
                                         exp_avg_sq := None |} |}).

Definition Optimizer_zero_grad (o : loc) : M unit :=
  log (CallZeroGrad o);;
  opt ← get_optimizer o;
  m ← get_model (opt_model opt);
  store (opt_model opt) (ObjModel (set_grad None m)).

(** [optimizer.step()]: parameters without a gradient are left alone. *)
Definition Optimizer_step (o : loc) : M unit :=
  opt ← get_optimizer o;
  log (CallStep o (lr opt));;
  m ← get_model (opt_model opt);
  match grad m with
  | None => ret tt
  | Some g =>
      let '(p', st') := AdamW_update (lr opt) (opt_state opt) (params m) g in
      store (opt_model opt) (ObjModel (set_params p' m));;
      store o (ObjOptimizer {| opt_model := opt_model opt; lr := lr opt;
                               opt_state := st' |})
  end.

(** [model.train()]: sets the flag on the whole module tree. *)
Definition Module_train (model : loc) : M unit :=
  log (CallTrain model);;
  m ← get_model model;
  store model (ObjModel {| params := params m; grad := grad m;
                           bert_training := true; training := true |}).

(** ** The program *)

(** [AISecurityModel.__init__]. [nn.Module.__init__] leaves every module it
    builds in training mode. *)
Definition AISecurityModel_init : M loc :=
  bert_weights ← BertModel_from_pretrained "bert-base-uncased";
  l0 ← with_generator (Linear_init 768 256);
  l3 ← with_generator (Linear_init 256 4);
  sev ← with_generator (Linear_init 256 4);
  alloc (ObjModel
    {| params := {| bert := bert_weights;
                    classifier := [LLinear l0; LReLU; LDropout 0.3; LLinear l3];
                    severity_classifier := sev |};
       grad := None;
       bert_training := false;
       training := true |}).

(** [AISecurityModel.forward]. *)
Definition forward (self : loc) (input_ids attention_mask : ITensor)
    : M (Var Tensor * Var Tensor) :=
  w0 ← get_world;
  m ← get_model self;
  pooled_output ← BertModel_call (bert (params m)) (bert_training m)
                                 input_ids attention_mask;
  features ← Sequential_call (training m) (removelast (classifier (params m)))
                             pooled_output;
  head ← last_getitem (classifier (params m));
  threat_logits ← Layer_call (training m) head features;
  severity_logits ← lift (Linear_call (severity_classifier (params m)) features);
  let ctx := {| fwd_model := self; fwd_params := params m;
                fwd_bert_training := bert_training m; fwd_training := training m;
                fwd_generator := generator w0;
                fwd_input_ids := input_ids; fwd_attention_mask := attention_mask |} in
  ret (tracked w0 (GLogits ThreatHead ctx threat_logits) threat_logits,
       tracked w0 (GLogits SeverityHead ctx severity_logits) severity_logits).

(** [model(input_ids, attention_mask)]. *)
Definition AISecurityModel_call (self : loc) (input_ids attention_mask : ITensor)
    : M (Var Tensor * Var Tensor) :=
  log (CallForward self input_ids attention_mask);;
  forward self input_ids attention_mask.

(** The model called with the dict [inputs] unpacked into keyword
    arguments: every key must name a parameter of [forward], and both
    parameters must be given. *)
Definition AISecurityModel_call_kwargs (self : loc) (inputs : gmap string ITensor)
    : M (Var Tensor * Var Tensor) :=
  if decide (dom inputs ⊆ ({["input_ids"; "attention_mask"]} : gset string)) then
    match inputs !! "input_ids", inputs !! "attention_mask" with
    | Some input_ids, Some attention_mask =>
        AISecurityModel_call self input_ids attention_mask
    | _, _ => raise (TypeError "forward() missing a required argument")
    end
  else raise (TypeError "forward() got an unexpected keyword argument").

(** [SecurityPredictor.__init__]. *)
Definition SecurityPredictor_init : M loc :=
  tok ← BertTokenizer_from_pretrained "bert-base-uncased";
  mdl ← AISecurityModel_init;
  alloc (ObjPredictor
    {| tokenizer := tok;
       model := mdl;
       attack_types := ["normal"; "data_poisoning"; "prompt_injection"; "model_inversion"];
       severity_levels := ["low"; "medium"; "high"; "critical"] |}).

(** The values of the prediction dict. *)
Inductive Value :=
  | VStr (s : string)
  | VFloat (x : R).

(** [SecurityPredictor.predict]. *)
Definition predict (self : loc) (text : string) : M (gmap string Value) :=
  p ← get_predictor self;
  let inputs := tokenizer_call (tokenizer p) text in
  '(threat_probs, severity_probs) ← no_grad (
    p ← get_predictor self;
    '(threat_logits, severity_logits) ← AISecurityModel_call_kwargs (model p) inputs;
    ret (softmax (data threat_logits), softmax (data severity_logits)));
  p ← get_predictor self;
  i ← lift (argmax threat_probs);
  threat_type ← list_getitem (attack_types p) i;
  j ← lift (argmax severity_probs);
  severity ← list_getitem (severity_levels p) j;
  confidence ← lift (Torch.max threat_probs);
  ret (<["threat_type" := VStr threat_type]>
       (<["severity" := VStr severity]>
       (<["confidence" := VFloat confidence]> ∅))).

(** The body of the inner loop of [train_model]. *)
Definition train_model_batch (model optimizer : loc) (batch : gmap string ITensor)
    : M unit :=
  Optimizer_zero_grad optimizer;;
  input_ids ← dict_getitem batch "input_ids";
  attention_mask ← dict_getitem batch "attention_mask";
  '(threat_logits, severity_logits) ← AISecurityModel_call model input_ids attention_mask;
  threat_labels ← dict_getitem batch "threat_labels";
  threat_loss ← CrossEntropyLoss_call threat_logits threat_labels;
  severity_labels ← dict_getitem batch "severity_labels";
  severity_loss ← CrossEntropyLoss_call severity_logits severity_labels;
  let loss := Var_add threat_loss severity_loss in
  Tensor_backward loss;;
  Optimizer_step optimizer.

(** [train_model]. *)
Definition train_model (model : loc) (train_loader : list (gmap string ITensor))
    (num_epochs : Z) : M unit :=
  optimizer ← AdamW model 2e-5;
  for_ (range num_epochs) (fun epoch =>
    Module_train model;;
    for_ train_loader (train_model_batch model optimizer)).

(** [analyze_threat], the handler of [POST /analyze]. *)
Definition analyze_threat (text : string) : M (gmap string Value) :=
  predictor ← SecurityPredictor_init;
  predict predictor text.

End Program.

(** * Properties *)

(** ** Softmax, argmax and max over exact reals *)

Section Numerics.
Local Open Scope R_scope.

Lemma tsum_app (u v : list R) : tsum (u ++ v) = tsum u + tsum v.
Proof. induction u as [|x u IH]; simpl; [lra | rewrite IH; lra]. Qed.

Lemma tsum_exp_pos (xs : list R) : xs <> [] -> 0 < tsum (map exp xs).
Proof.
  destruct xs as [|x xs]; [congruence | intros _]. simpl.
  assert (0 <= tsum (map exp xs)).
  { induction xs as [|y ys IH]; simpl; [lra | pose proof (exp_pos y); lra]. }
  pose proof (exp_pos x). lra.
Qed.

Lemma tsum_scale (c : R) (ys : list R) :
  tsum (map (fun y => y / c) ys) = tsum ys / c.
Proof.
  induction ys as [|y ys IH]; simpl.
  - unfold Rdiv. lra.
  - rewrite IH. unfold Rdiv. lra.
Qed.

Lemma softmax_row_as_scale (xs : list R) :
  softmax_row xs = map (fun y => y / tsum (map exp xs)) (map exp xs).
Proof. unfold softmax_row. cbv zeta. now rewrite map_map. Qed.

Lemma softmax_row_length (xs : list R) : length (softmax_row xs) = length xs.
Proof. unfold softmax_row. cbv zeta. now rewrite length_map. Qed.

(** The entries of a softmax row sum to one. *)
Lemma softmax_row_sum (xs : list R) : xs <> [] -> tsum (softmax_row xs) = 1.
Proof.
  intros Hne. rewrite softmax_row_as_scale, tsum_scale.
  pose proof (tsum_exp_pos xs Hne). now apply Rdiv_diag, Rgt_not_eq.
Qed.

Lemma tsum_ge_elem (ys : list R) (y : R) :
  Forall (fun z => 0 <= z) ys -> In y ys -> y <= tsum ys.
Proof.
  induction 1 as [|z zs Hz Hzs IH]; simpl; [tauto |].
  assert (0 <= tsum zs).
  { clear IH. induction Hzs; simpl; lra. }
  intros [-> | Hin]; [lra | specialize (IH Hin); lra].
Qed.

(** Every softmax entry is a probability. *)
Lemma softmax_row_bounds (xs : list R) (p : R) :
  In p (softmax_row xs) -> 0 < p <= 1.
Proof.
  unfold softmax_row. cbv zeta. rewrite in_map_iff. intros (x & <- & Hin).
  assert (Hne : xs <> []) by (intros ->; inversion Hin).
  pose proof (tsum_exp_pos xs Hne) as Hz. pose proof (exp_pos x) as Hx.
  assert (exp x <= tsum (map exp xs)) as Hle.
  { apply tsum_ge_elem; [| now apply in_map].
    apply List.Forall_forall. intros z. rewrite in_map_iff.
    intros (y & <- & _). left. apply exp_pos. }
  split.
  - now apply Rdiv_lt_0_compat.
  - apply Rmult_le_reg_r with (r := tsum (map exp xs)); [exact Hz |].
    unfold Rdiv. rewrite Rmult_assoc, Rinv_l by now apply Rgt_not_eq. lra.
Qed.

(** [max_from] returns an entry that bounds all the others. *)
Lemma max_from_ge_best (l : list R) (b : R) : b <= max_from b l.
Proof.
  revert b. induction l as [|x l IH]; intros b; unfold max_from in *; simpl; [lra |].
  eapply Rle_trans; [apply (Rmax_l b x) | apply IH].
Qed.

Lemma max_from_ge (l : list R) (b y : R) : In y (b :: l) -> y <= max_from b l.
Proof.
  revert b. induction l as [|x l IH]; intros b.
  - intros [-> | []]. unfold max_from. simpl. lra.
  - intros [-> | [-> | Hin]].
    + apply max_from_ge_best.
    + unfold max_from. simpl.
      eapply Rle_trans; [apply (Rmax_r b y) | apply (max_from_ge_best l)].
    + unfold max_from in *. simpl. apply IH. now right.
Qed.

Lemma max_from_In (l : list R) (b : R) : In (max_from b l) (b :: l).
Proof.
  revert b. induction l as [|x l IH]; intros b; unfold max_from in *; simpl.
  - now left.
  - destruct (IH (Rmax b x)) as [H | H].
    + rewrite <- H. unfold Rmax. destruct (Rle_dec b x); [right; now left | now left].
    + right. now right.
Qed.

(** [argmax_from] returns a position of the scanned range. *)
Lemma argmax_from_bound (l : list R) (bi i : nat) (b : R) :
  (bi < i)%nat -> (argmax_from bi b i l < i + length l)%nat.
Proof.
  revert bi i b. induction l as [|x l IH]; intros bi i b Hlt; simpl.
  - lia.
  - destruct (Rlt_dec b x).
    + specialize (IH i (S i) x). lia.
    + specialize (IH bi (S i) b). lia.
Qed.

(** Scanning the images under a strictly increasing map picks the same
    position. *)
Lemma argmax_from_mono (f : R -> R) (l : list R) (bi i : nat) (b : R) :
  (forall x y, x < y <-> f x < f y) ->
  argmax_from bi (f b) i (map f l) = argmax_from bi b i l.
Proof.
  intros Hf. revert bi i b. induction l as [|x l IH]; intros bi i b; simpl; [easy |].
  destruct (Rlt_dec (f b) (f x)) as [H | H], (Rlt_dec b x) as [H' | H'].
  - apply IH.
  - apply Hf in H. contradiction.
  - apply Hf in H'. contradiction.
  - apply IH.
Qed.

Lemma softmax_scale_mono (z : R) :
  0 < z -> forall x y, x < y <-> exp x / z < exp y / z.
Proof.
  intros Hz x y. split.
  - intros H. apply exp_increasing in H.
    unfold Rdiv. apply Rmult_lt_compat_r; [now apply Rinv_0_lt_compat | exact H].
  - intros H. apply exp_lt_inv.
    apply Rmult_lt_reg_r with (r := / z); [now apply Rinv_0_lt_compat | exact H].
Qed.

(** Softmax does not move the argmax of a single row. *)
Lemma argmax_softmax_row (xs : list R) :
  argmax [softmax_row xs] = argmax [xs].
Proof.
  unfold argmax. simpl. rewrite !app_nil_r.
  destruct xs as [|x xs]; [reflexivity |].
  unfold softmax_row. simpl.
  set (z := exp x + tsum (map exp xs)).
  assert (0 < z) as Hz by (apply (tsum_exp_pos (x :: xs)); congruence).
  f_equal. apply (argmax_from_mono (fun x => exp x / z)).
  now apply softmax_scale_mono.
Qed.

(** A strictly largest entry is where the scan ends up. *)
Lemma argmax_from_keeps (l : list R) (bi i : nat) (b : R) :
  Forall (fun y => y <= b) l -> argmax_from bi b i l = bi.
Proof.
  revert i. induction l as [|x l IH]; intros i Hall; simpl; [easy |].
  inversion Hall; subst. destruct (Rlt_dec b x); [lra | now apply IH].
Qed.

End Numerics.

(** ** What [argmax] and [max] pick *)

Section ArgmaxMax.
Local Open Scope R_scope.
Local Open Scope list_scope.

(** The scan of [argmax] and the fold of [max] over the same row: the
    position returned holds the value returned, that value bounds the row,
    and it is strictly above everything before the position. *)
Lemma argmax_from_spec (l pre : list R) (b : R) (bi : nat) :
  pre !! bi = Some b ->
  (forall k y, pre !! k = Some y -> y <= b) ->
  (forall k y, pre !! k = Some y -> (k < bi)%nat -> y < b) ->
  (pre ++ l) !! argmax_from bi b (length pre) l = Some (max_from b l) /\
  (forall k y, (pre ++ l) !! k = Some y -> y <= max_from b l) /\
  (forall k y, (pre ++ l) !! k = Some y ->
               (k < argmax_from bi b (length pre) l)%nat -> y < max_from b l).
Proof.
  revert pre b bi. induction l as [|x l IH]; intros pre b bi Hb Hle Hlt.
  - cbn [argmax_from]. unfold max_from. cbn [foldl]. rewrite app_nil_r.
    split; [exact Hb |]. split; assumption.
  - cbn [argmax_from]. unfold max_from. cbn [foldl]. fold (max_from (Rmax b x) l).
    assert (Hbi : (bi < length pre)%nat) by (eapply lookup_lt_Some; exact Hb).
    replace (pre ++ x :: l) with ((pre ++ [x]) ++ l) by now rewrite <- app_assoc.
    replace (S (length pre)) with (length (pre ++ [x]))
      by (rewrite length_app; simpl; lia).
    destruct (Rlt_dec b x) as [Hbx | Hbx].
    + rewrite Rmax_right by lra. apply IH.
      * rewrite lookup_app_r by lia. now rewrite Nat.sub_diag.
      * intros k y Hk. apply lookup_app_Some in Hk as [Hk | [Hge Hk]].
        -- specialize (Hle k y Hk). lra.
        -- apply list_lookup_singleton_Some in Hk as [_ <-]. lra.
      * intros k y Hk Hki. apply lookup_app_Some in Hk as [Hk | [Hge Hk]]; [| lia].
        specialize (Hle k y Hk). lra.
    + rewrite Rmax_left by lra. apply IH.
      * now rewrite lookup_app_l by lia.
      * intros k y Hk. apply lookup_app_Some in Hk as [Hk | [Hge Hk]].
        -- now apply (Hle k).
        -- apply list_lookup_singleton_Some in Hk as [_ <-]. lra.
      * intros k y Hk Hki. apply lookup_app_Some in Hk as [Hk | [Hge Hk]]; [| lia].
        now apply (Hlt k).
Qed.

Lemma argmax_max_row (xs : list R) (i : nat) :
  argmax [xs] = Ok i ->
  exists x,
    Torch.max [xs] = Ok x /\ xs !! i = Some x /\
    (forall k y, xs !! k = Some y -> y <= x) /\
    (forall k y, xs !! k = Some y -> (k < i)%nat -> y < x).
Proof.
  unfold argmax, Torch.max. cbn [concat]. rewrite app_nil_r.
  destruct xs as [|x l]; [discriminate |]. intros [= <-].
  destruct (argmax_from_spec l [x] x 0) as (H1 & H2 & H3).
  - reflexivity.
  - intros [|k] y; [intros [= <-]; lra | discriminate].
  - intros k y _ Hk. lia.
  - exists (max_from x l). cbn [app length] in *. repeat split; assumption.
Qed.

End ArgmaxMax.

(** ** Shapes *)

Definition shape (t : Tensor) (n k : nat) : Prop :=
  length t = n /\ Forall (fun row => length row = k) t.

(** The architecture fixed by [AISecurityModel.__init__]. *)
Definition wf_params (p : Params) : Prop :=
  exists l0 l3,
    classifier p = [LLinear l0; LReLU; LDropout 0.3; LLinear l3] /\
    Linear_shape l0 /\ in_features l0 = 768 /\ out_features l0 = 256 /\
    Linear_shape l3 /\ in_features l3 = 256 /\ out_features l3 = 4 /\
    Linear_shape (severity_classifier p) /\
    in_features (severity_classifier p) = 256 /\
    out_features (severity_classifier p) = 4.

Definition valid_label (y : Z) : Prop := (0 <= y < 4)%Z.

(** What is assumed of the external components: the tokenizer returns the
    token ids, the segment ids ([token_type_ids]) and the attention mask and
    nothing else, as [BertTokenizer] does when it is called with its
    defaults; a single text is encoded to one pooled vector of 768 entries,
    whatever the weights, the mode and the generator; in evaluation mode the
    encoder neither reads nor advances the generator; an optimiser update
    keeps the architecture. *)
Class ExternalSpec `{!External} : Prop := {
  tokenizer_keys : forall vocab text,
    dom (tokenizer_call vocab text) =
      ({["input_ids"; "token_type_ids"; "attention_mask"]} : gset string);
  encoder_single : forall vocab text ids mask weights train g,
    tokenizer_call vocab text !! "input_ids" = Some ids ->
    tokenizer_call vocab text !! "attention_mask" = Some mask ->
    exists row, length row = 768 /\
                (bert_forward weights train ids mask g).1 = Ok [row];
  encoder_eval : forall weights ids mask g g',
    (bert_forward weights false ids mask g).2 = g /\
    (bert_forward weights false ids mask g).1 = (bert_forward weights false ids mask g').1;
  AdamW_update_shape : forall rate st p g,
    wf_params p -> wf_params (AdamW_update rate st p g).1
}.

Section Shapes.
Local Open Scope R_scope.

Lemma shape_map_const (f : list R -> list R) (t : Tensor) (n k k' : nat) :
  (forall row, length row = k -> length (f row) = k') ->
  shape t n k -> shape (map f t) n k'.
Proof.
  intros Hf [Hn Hall]. split; [now rewrite length_map |].
  apply List.Forall_map. eapply List.Forall_impl; [| exact Hall]. exact Hf.
Qed.

Lemma linear_row_length (l : Linear) (x : list R) :
  Linear_shape l -> length (linear_row l x) = out_features l.
Proof.
  intros (Hw & Hb & _). unfold linear_row. rewrite length_zip_with. lia.
Qed.

Lemma Linear_call_shape (l : Linear) (t : Tensor) (n : nat) :
  Linear_shape l -> shape t n (in_features l) ->
  Linear_call l t = Ok (map (linear_row l) t) /\
  shape (map (linear_row l) t) n (out_features l).
Proof.
  intros Hl Ht. split.
  - unfold Linear_call. destruct Ht as [_ Hall].
    replace (forallb _ t) with true; [reflexivity |].
    symmetry. apply forallb_forall. intros x Hx.
    rewrite List.Forall_forall in Hall. apply Nat.eqb_eq. now apply Hall.
  - eapply shape_map_const; [| exact Ht]. intros row _. now apply linear_row_length.
Qed.

Lemma relu_shape (t : Tensor) (n k : nat) : shape t n k -> shape (relu t) n k.
Proof.
  apply shape_map_const. intros row Hrow. now rewrite length_map.
Qed.

Lemma dropout_rows_shape (p : R) (t : Tensor) (g : Generator) (n k : nat) :
  shape t n k -> shape (dropout_rows p t g).1 n k.
Proof.
  revert g n. induction t as [|row t IH]; intros g n [Hn Hall]; simpl.
  - split; [exact Hn | constructor].
  - destruct (dropout_rows p t _) as [rest g2] eqn:E.
    inversion Hall as [|? ? Hrow Hall']; subst. simpl.
    specialize (IH {| samples := samples g; consumed := consumed g + length row |}
                   (length t) (conj eq_refl Hall')).
    rewrite E in IH. simpl in IH. destruct IH as [Hlen Hrest].
    split; [simpl; now rewrite Hlen |].
    constructor; [| exact Hrest].
    rewrite length_zip_with, length_map, length_seq. lia.
Qed.

Lemma Dropout_call_shape (p : R) (train : bool) (t : Tensor) (g : Generator) (n k : nat) :
  shape t n k -> shape (Dropout_call p train t g).1 n k.
Proof.
  intros Ht. unfold Dropout_call. destruct train; [now apply dropout_rows_shape | exact Ht].
Qed.

Lemma init_rows_shape (fan_in rows : nat) (g : Generator) :
  length (init_rows fan_in rows g).1 = rows /\
  Forall (fun row => length row = fan_in) (init_rows fan_in rows g).1.
Proof.
  revert g. induction rows as [|k IH]; intros g; simpl.
  - split; [reflexivity | constructor].
  - destruct (init_rows fan_in k _) as [rest g2] eqn:E. simpl.
    specialize (IH {| samples := samples g; consumed := consumed g + fan_in |}).
    rewrite E in IH. simpl in IH. destruct IH as [Hlen Hall].
    split; [now rewrite Hlen |].
    constructor; [| exact Hall]. now rewrite !length_map, length_seq.
Qed.

(** A freshly constructed [nn.Linear(n_in, n_out)] has the declared shape. *)
Lemma Linear_init_shape (n_in n_out : nat) (g : Generator) :
  Linear_shape (Linear_init n_in n_out g).1 /\
  in_features (Linear_init n_in n_out g).1 = n_in /\
  out_features (Linear_init n_in n_out g).1 = n_out.
Proof.
  unfold Linear_init.
  pose proof (init_rows_shape n_in n_out g) as [Hlen Hall].
  destruct (init_rows n_in n_out g) as [w g1]. simpl in *.
  repeat split; simpl; try assumption.
  now rewrite !length_map, length_seq.
Qed.

End Shapes.

(** ** The forward pass *)

Section Forward.
Context `{!External}.
Local Open Scope R_scope.

Lemma bind_Ok {A B} (m : M A) (k : A -> M B) (w w' : World) (a : A) :
  m w = (Ok a, w') -> (m ≫= k) w = k a w'.
Proof. intros Hm. unfold mbind, M_bind, bind. now rewrite Hm. Qed.

Lemma bind_Raise {A B} (m : M A) (k : A -> M B) (w w' : World) (e : exn) :
  m w = (Raise e, w') -> (m ≫= k) w = (Raise e, w').
Proof. intros Hm. unfold mbind, M_bind, bind. now rewrite Hm. Qed.

(** The logits of the forward pass, as a function of the pooled encoder
    output [x] and of the generator state [g] the head's dropout starts
    from. *)
Definition head_features (l0 : Linear) (train : bool) (x : Tensor) (g : Generator)
    : Tensor * Generator :=
  Dropout_call 0.3 train (relu (map (linear_row l0) x)) g.

Lemma Sequential_features (l0 : Linear) (train : bool) (x : Tensor) (w : World) :
  Linear_call l0 x = Ok (map (linear_row l0) x) ->
  Sequential_call train [LLinear l0; LReLU; LDropout 0.3] x w =
    (Ok (head_features l0 train x (generator w)).1,
     set_generator (head_features l0 train x (generator w)).2 w).
Proof.
  intros Hc0. simpl Sequential_call.
  erewrite bind_Ok by (unfold Layer_call, lift; now rewrite Hc0).
  erewrite bind_Ok by reflexivity.
  unfold Layer_call, with_generator, mbind, M_bind, bind, ret, head_features.
  now destruct (Dropout_call 0.3 train (relu (map (linear_row l0) x)) (generator w)).
Qed.

Lemma forward_run (self : loc) (ids mask : ITensor) (w : World)
    (m : AISecurityModel) (l0 l3 : Linear) (x : Tensor) (g1 : Generator) (n : nat) :
  heap w !! self = Some (ObjModel m) ->
  classifier (params m) = [LLinear l0; LReLU; LDropout 0.3; LLinear l3] ->
  wf_params (params m) ->
  bert_forward (bert (params m)) (bert_training m) ids mask (generator w) = (Ok x, g1) ->
  shape x n 768 ->
  let fg := head_features l0 (training m) x g1 in
  let ctx := {| fwd_model := self; fwd_params := params m;
                fwd_bert_training := bert_training m; fwd_training := training m;
                fwd_generator := generator w;
                fwd_input_ids := ids; fwd_attention_mask := mask |} in
  forward self ids mask w =
    (Ok (tracked w (GLogits ThreatHead ctx (map (linear_row l3) fg.1))
                 (map (linear_row l3) fg.1),
         tracked w (GLogits SeverityHead ctx
                      (map (linear_row (severity_classifier (params m))) fg.1))
                 (map (linear_row (severity_classifier (params m))) fg.1)),
     set_generator fg.2 w) /\
  shape fg.1 n 256 /\
  shape (map (linear_row l3) fg.1) n 4 /\
  shape (map (linear_row (severity_classifier (params m))) fg.1) n 4.
Proof.
  intros Hself Hcls (l0' & l3' & Hcls' & Hl0 & Hi0 & Ho0 & Hl3 & Hi3 & Ho3 & Hs & His & Hos)
         Hbert Hx fg ctx.
  rewrite Hcls in Hcls'. injection Hcls' as <- <-.
  assert (Hx' : shape x n (in_features l0)) by now rewrite Hi0.
  destruct (Linear_call_shape l0 x n Hl0 Hx') as [Hc0 Hs0]. rewrite Ho0 in Hs0.
  assert (Hf : shape fg.1 n 256).
  { subst fg. unfold head_features. now apply Dropout_call_shape, relu_shape. }
  assert (Hf3 : shape fg.1 n (in_features l3)) by now rewrite Hi3.
  assert (Hfs : shape fg.1 n (in_features (severity_classifier (params m))))
    by now rewrite His.
  destruct (Linear_call_shape l3 _ n Hl3 Hf3) as [Hc3 Hs3]. rewrite Ho3 in Hs3.
  destruct (Linear_call_shape _ _ n Hs Hfs) as [Hcs Hss]. rewrite Hos in Hss.
  split; [| split; [exact Hf | split; [exact Hs3 | exact Hss]]].
  unfold forward.
  erewrite bind_Ok by reflexivity.
  erewrite bind_Ok by (unfold get_model; now rewrite Hself).
  erewrite bind_Ok by (unfold BertModel_call; now rewrite Hbert).
  rewrite Hcls. simpl removelast.
  erewrite bind_Ok by (now apply Sequential_features).
  simpl generator. fold fg.
  erewrite bind_Ok by reflexivity.
  erewrite bind_Ok by (unfold Layer_call, lift; simpl; now rewrite Hc3).
  erewrite bind_Ok by (unfold lift; now rewrite Hcs).
  reflexivity.
Qed.

End Forward.

(** ** Decoding a prediction *)

Abbreviation attack_names :=
  ["normal"; "data_poisoning"; "prompt_injection"; "model_inversion"].
Abbreviation severity_names := ["low"; "medium"; "high"; "critical"].

Section Predict.
Context `{!External}.
Local Open Scope R_scope.

(** A predictor as [SecurityPredictor.__init__] builds it, possibly after
    training: the label tables are the fixed ones and the model has the
    declared architecture. *)
Definition wf_predictor (w : World) (self : loc) (p : SecurityPredictor)
    (m : AISecurityModel) : Prop :=
  heap w !! self = Some (ObjPredictor p) /\
  heap w !! model p = Some (ObjModel m) /\
  wf_params (params m) /\
  attack_types p = attack_names /\
  severity_levels p = severity_names.

(** What [predict] does with the two probability tensors once the model
    has been invoked. *)
Definition decode (p : SecurityPredictor) (threat_probs severity_probs : Tensor)
    : M (gmap string Value) :=
  i ← lift (argmax threat_probs);
  threat_type ← list_getitem (attack_types p) i;
  j ← lift (argmax severity_probs);
  severity ← list_getitem (severity_levels p) j;
  confidence ← lift (Torch.max threat_probs);
  ret (<["threat_type" := VStr threat_type]>
       (<["severity" := VStr severity]>
       (<["confidence" := VFloat confidence]> ∅))).

(** [predict] is: invoke the model with gradient recording off, restore
    the recording mode, decode. *)
Lemma predict_unfold (self : loc) (text : string) (w w2 : World)
    (p : SecurityPredictor) (tl sl : Var Tensor) :
  heap w !! self = Some (ObjPredictor p) ->
  AISecurityModel_call_kwargs (model p) (tokenizer_call (tokenizer p) text)
    (set_grad_mode false w) = (Ok (tl, sl), w2) ->
  heap w2 = heap w ->
  predict self text w =
    decode p (softmax (data tl)) (softmax (data sl)) (set_grad_mode (grad_mode w) w2).
Proof.
  intros Hself Hcall Hheap. unfold predict.
  erewrite bind_Ok by (unfold get_predictor; now rewrite Hself).
  erewrite bind_Ok; cycle 1.
  { unfold no_grad.
    erewrite bind_Ok by (unfold get_predictor; simpl; now rewrite Hself).
    erewrite bind_Ok by exact Hcall. reflexivity. }
  cbv beta iota.
  erewrite bind_Ok by (unfold get_predictor; simpl; now rewrite Hheap, Hself).
  reflexivity.
Qed.

(** A failing model invocation is propagated by [predict]. *)
Lemma predict_propagates (self : loc) (text : string) (w w2 : World)
    (p : SecurityPredictor) (e : exn) :
  heap w !! self = Some (ObjPredictor p) ->
  AISecurityModel_call_kwargs (model p) (tokenizer_call (tokenizer p) text)
    (set_grad_mode false w) = (Raise e, w2) ->
  predict self text w = (Raise e, set_grad_mode (grad_mode w) w2).
Proof.
  intros Hself Hcall. unfold predict.
  erewrite bind_Ok by (unfold get_predictor; now rewrite Hself).
  erewrite bind_Raise; [reflexivity |].
  unfold no_grad.
  erewrite bind_Ok by (unfold get_predictor; simpl; now rewrite Hself).
  erewrite bind_Raise by exact Hcall. reflexivity.
Qed.

(** Decoding one row of four entries per head. *)
Lemma decode_rows (p : SecurityPredictor) (tp sp : list R) (w : World) :
  attack_types p = attack_names -> severity_levels p = severity_names ->
  length tp = 4%nat -> length sp = 4%nat ->
  exists i j t s c,
    argmax [tp] = Ok i /\ attack_names !! i = Some t /\
    argmax [sp] = Ok j /\ severity_names !! j = Some s /\
    Torch.max [tp] = Ok c /\
    decode p [tp] [sp] w =
      (Ok (<["threat_type" := VStr t]>
           (<["severity" := VStr s]>
           (<["confidence" := VFloat c]> ∅))), w).
Proof.
  intros Ha Hs Htp Hsp.
  assert (Hidx : forall xs : list R, length xs = 4%nat ->
            exists i x l, concat [xs] = x :: l /\
                          argmax [xs] = Ok i /\ (i < 4)%nat).
  { intros xs Hxs. unfold argmax. simpl concat. rewrite app_nil_r.
    destruct xs as [|x l]; [discriminate |].
    exists (argmax_from 0 x 1 l), x, l. repeat split.
    pose proof (argmax_from_bound l 0 1 x). simpl in Hxs. lia. }
  destruct (Hidx tp Htp) as (i & x & l & Hcat & Hi & Hlt).
  destruct (Hidx sp Hsp) as (j & _ & _ & _ & Hj & Hlt').
  assert (exists t, attack_names !! i = Some t) as [t Ht].
  { apply lookup_lt_is_Some_2. simpl. lia. }
  assert (exists s, severity_names !! j = Some s) as [s Hs'].
  { apply lookup_lt_is_Some_2. simpl. lia. }
  exists i, j, t, s, (max_from x l). repeat split; try assumption.
  - unfold Torch.max. now rewrite Hcat.
  - unfold decode.
    erewrite bind_Ok by (unfold lift; now rewrite Hi).
    erewrite bind_Ok by (unfold list_getitem; rewrite Ha, Ht; reflexivity).
    erewrite bind_Ok by (unfold lift; now rewrite Hj).
    erewrite bind_Ok by (unfold list_getitem; rewrite Hs, Hs'; reflexivity).
    erewrite bind_Ok by (unfold lift, Torch.max; now rewrite Hcat).
    reflexivity.
Qed.

End Predict.

(** ** What [predict] does with the tokenizer's output *)

Section PredictRun.
Context `{!External} `{!ExternalSpec}.
Local Open Scope R_scope.

Lemma tokenizer_lookup (vocab : list string) (text : string) :
  exists ids mask,
    tokenizer_call vocab text !! "input_ids" = Some ids /\
    tokenizer_call vocab text !! "attention_mask" = Some mask.
Proof.
  pose proof (tokenizer_keys vocab text) as Hdom.
  assert (is_Some (tokenizer_call vocab text !! "input_ids")) as [ids Hids].
  { apply elem_of_dom. rewrite Hdom. set_solver. }
  assert (is_Some (tokenizer_call vocab text !! "attention_mask")) as [mask Hmask].
  { apply elem_of_dom. rewrite Hdom. set_solver. }
  now exists ids, mask.
Qed.

(** [token_type_ids] names no parameter of [forward]. *)
Lemma tokenizer_keys_not_accepted (vocab : list string) (text : string) :
  ~ dom (tokenizer_call vocab text) ⊆ ({["input_ids"; "attention_mask"]} : gset string).
Proof.
  intros Hsub.
  assert (Hin : "token_type_ids" ∈ dom (tokenizer_call vocab text))
    by (rewrite tokenizer_keys; set_solver).
  apply Hsub in Hin.
  apply elem_of_union in Hin as [Hin | Hin]; apply elem_of_singleton in Hin;
    discriminate.
Qed.

(** So the model, called with the tokenizer's output unpacked into keyword
    arguments, raises before [forward] is entered. *)
Lemma kwargs_call_raises (self : loc) (vocab : list string) (text : string)
    (w : World) :
  AISecurityModel_call_kwargs self (tokenizer_call vocab text) w =
    (Raise (TypeError "forward() got an unexpected keyword argument"), w).
Proof.
  unfold AISecurityModel_call_kwargs.
  now rewrite decide_False by apply tokenizer_keys_not_accepted.
Qed.

Lemma set_grad_mode_restore (w : World) :
  set_grad_mode (grad_mode w) (set_grad_mode false w) = w.
Proof. now destruct w. Qed.

(** Every run of [predict] on a predictor: the exception of the model call
    comes out, and the state is what it was. *)
Lemma predict_raises (w : World) (self : loc) (p : SecurityPredictor)
    (text : string) :
  heap w !! self = Some (ObjPredictor p) ->
  predict self text w =
    (Raise (TypeError "forward() got an unexpected keyword argument"), w).
Proof.
  intros Hself.
  rewrite (predict_propagates self text w _ p _ Hself
             (kwargs_call_raises (model p) (tokenizer p) text (set_grad_mode false w))).
  now rewrite set_grad_mode_restore.
Qed.

Lemma predict_not_Ok (w : World) (self : loc) (p : SecurityPredictor)
    (text : string) (pred : gmap string Value) (w' : World) :
  heap w !! self = Some (ObjPredictor p) -> predict self text w <> (Ok pred, w').
Proof. intros Hself. now rewrite (predict_raises w self p text Hself). Qed.

(** The model called the way [train_model] calls it, on the token ids and
    the mask of one text: one row of four logits per head. *)
Lemma AISecurityModel_call_single (w : World) (l : loc) (m : AISecurityModel)
    (vocab : list string) (text : string) :
  heap w !! l = Some (ObjModel m) -> wf_params (params m) ->
  exists ids mask row g1 l0 l3 f g2 tlv slv,
    tokenizer_call vocab text !! "input_ids" = Some ids /\
    tokenizer_call vocab text !! "attention_mask" = Some mask /\
    classifier (params m) = [LLinear l0; LReLU; LDropout 0.3; LLinear l3] /\
    Linear_shape l0 /\ out_features l0 = 256%nat /\
    bert_forward (bert (params m)) (bert_training m) ids mask (generator w)
      = (Ok [row], g1) /\
    head_features l0 (training m) [row] g1 = ([f], g2) /\
    AISecurityModel_call l ids mask w
      = (Ok (tlv, slv), set_generator g2 (add_call (CallForward l ids mask) w)) /\
    data tlv = [linear_row l3 f] /\
    data slv = [linear_row (severity_classifier (params m)) f] /\
    length (linear_row l3 f) = 4%nat /\
    length (linear_row (severity_classifier (params m)) f) = 4%nat.
Proof.
  intros Hmodel Hwf.
  destruct (tokenizer_lookup vocab text) as (ids & mask & Hids & Hmask).
  destruct (encoder_single _ _ ids mask (bert (params m)) (bert_training m)
              (generator w) Hids Hmask) as (row & Hrow & Hbert).
  destruct (bert_forward _ _ ids mask (generator w)) as [r g1] eqn:Eb.
  simpl in Hbert. subst r.
  pose proof Hwf as (l0 & l3 & Hcls & Hl0 & _ & Ho0 & _).
  set (w1 := add_call (CallForward l ids mask) w).
  assert (Hx : shape [row] 1 768) by (split; [reflexivity | now constructor]).
  destruct (forward_run l ids mask w1 m l0 l3 [row] g1 1
              Hmodel Hcls Hwf Eb Hx) as (Hfwd & Hf & Htl & Hsl).
  destruct (head_features l0 (training m) [row] g1) as [fs g2] eqn:Ef.
  simpl in Hfwd, Hf, Htl, Hsl.
  destruct Hf as [Hlen _]. destruct fs as [|f [|? ?]]; try discriminate.
  simpl in Htl, Hsl.
  destruct Htl as [_ Htl]. destruct Hsl as [_ Hsl].
  inversion Htl as [|? ? Htl' _]; subst. inversion Hsl as [|? ? Hsl' _]; subst.
  assert (Hcall : AISecurityModel_call l ids mask w = forward l ids mask w1).
  { unfold AISecurityModel_call. now erewrite bind_Ok by reflexivity. }
  rewrite Hfwd in Hcall.
  eexists ids, mask, row, g1, l0, l3, f, g2, _, _.
  repeat (split; [first [assumption | exact Hcall | reflexivity] |]).
  assumption.
Qed.

End PredictRun.

(** ** Construction *)

Section Construction.
Context `{!External}.
Local Open Scope R_scope.

(** The model [AISecurityModel()] builds from a checkpoint and a generator
    state: encoder weights from the checkpoint, the three linear layers
    drawn from the generator, no gradient, encoder in evaluation mode and
    the rest of the tree in training mode. *)
Definition fresh_model (c : Checkpoint) (g : Generator) : AISecurityModel * Generator :=
  let '(l0, g1) := Linear_init 768 256 g in
  let '(l3, g2) := Linear_init 256 4 g1 in
  let '(sev, g3) := Linear_init 256 4 g2 in
  ({| params := {| bert := ckpt_weights c;
                   classifier := [LLinear l0; LReLU; LDropout 0.3; LLinear l3];
                   severity_classifier := sev |};
      grad := None; bert_training := false; training := true |}, g3).

Definition fresh_predictor (c : Checkpoint) (mdl : loc) : SecurityPredictor :=
  {| tokenizer := ckpt_vocab c; model := mdl;
     attack_types := attack_names; severity_levels := severity_names |}.

Lemma fresh_model_wf (c : Checkpoint) (g : Generator) :
  wf_params (params (fresh_model c g).1).
Proof.
  unfold fresh_model.
  pose proof (Linear_init_shape 768 256 g) as (H0 & Hi0 & Ho0).
  destruct (Linear_init 768 256 g) as [l0 g1].
  pose proof (Linear_init_shape 256 4 g1) as (H3 & Hi3 & Ho3).
  destruct (Linear_init 256 4 g1) as [l3 g2].
  pose proof (Linear_init_shape 256 4 g2) as (Hs & His & Hos).
  destruct (Linear_init 256 4 g2) as [sev g3].
  exists l0, l3. simpl in *.
  repeat (split; [first [assumption | reflexivity] |]). assumption.
Qed.

Lemma AISecurityModel_init_run (w : World) (c : Checkpoint) :
  hub w !! "bert-base-uncased" = Some c ->
  AISecurityModel_init w =
    (Ok (fresh (dom (heap w))),
     set_heap (<[fresh (dom (heap w)) := ObjModel (fresh_model c (generator w)).1]> (heap w))
              (set_generator (fresh_model c (generator w)).2 w)).
Proof.
  intros Hc. unfold AISecurityModel_init, fresh_model.
  erewrite bind_Ok by (unfold BertModel_from_pretrained; now rewrite Hc).
  unfold with_generator, mbind, M_bind, bind, alloc.
  destruct (Linear_init 768 256 (generator w)) as [l0 g1].
  cbv beta iota zeta delta [generator set_generator].
  destruct (Linear_init 256 4 g1) as [l3 g2].
  cbv beta iota zeta delta [generator set_generator].
  destruct (Linear_init 256 4 g2) as [sev g3].
  reflexivity.
Qed.

Lemma AISecurityModel_init_fails (w : World) :
  hub w !! "bert-base-uncased" = None ->
  AISecurityModel_init w = (Raise (OSError "bert-base-uncased"), w).
Proof.
  intros Hc. unfold AISecurityModel_init.
  erewrite bind_Raise; [reflexivity |].
  unfold BertModel_from_pretrained. now rewrite Hc.
Qed.

(** The world after [SecurityPredictor()]: two new objects, the generator
    advanced by the draws of the three linear layers. *)
Definition model_loc (w : World) : loc := fresh (dom (heap w)).

Definition predictor_loc (w : World) (c : Checkpoint) : loc :=
  fresh (dom (<[model_loc w := ObjModel (fresh_model c (generator w)).1]> (heap w))).

Definition after_init (w : World) (c : Checkpoint) : World :=
  set_heap
    (<[predictor_loc w c := ObjPredictor (fresh_predictor c (model_loc w))]>
     (<[model_loc w := ObjModel (fresh_model c (generator w)).1]> (heap w)))
    (set_generator (fresh_model c (generator w)).2 w).

Lemma SecurityPredictor_init_run (w : World) (c : Checkpoint) :
  hub w !! "bert-base-uncased" = Some c ->
  SecurityPredictor_init w = (Ok (predictor_loc w c), after_init w c).
Proof.
  intros Hc. unfold SecurityPredictor_init, after_init, predictor_loc, model_loc.
  erewrite bind_Ok by (unfold BertTokenizer_from_pretrained; now rewrite Hc).
  erewrite bind_Ok by exact (AISecurityModel_init_run w c Hc).
  generalize (fresh_model c (generator w)). intros [m g]. reflexivity.
Qed.

Lemma model_loc_fresh (w : World) : heap w !! model_loc w = None.
Proof. unfold model_loc. apply not_elem_of_dom. apply is_fresh. Qed.

Lemma predictor_loc_fresh (w : World) (c : Checkpoint) :
  heap w !! predictor_loc w c = None /\ predictor_loc w c <> model_loc w.
Proof.
  pose proof (is_fresh (dom (<[model_loc w := ObjModel (fresh_model c (generator w)).1]>
                               (heap w)))) as Hf.
  fold (predictor_loc w c) in Hf. rewrite dom_insert_L in Hf.
  apply not_elem_of_union in Hf as [Hne Hdom]. split.
  - now apply not_elem_of_dom.
  - intros Heq. apply Hne. rewrite Heq. now apply elem_of_singleton.
Qed.

Lemma after_init_wf (w : World) (c : Checkpoint) :
  wf_predictor (after_init w c) (predictor_loc w c)
               (fresh_predictor c (model_loc w)) (fresh_model c (generator w)).1.
Proof.
  destruct (predictor_loc_fresh w c) as [_ Hne].
  pose proof (fresh_model_wf c (generator w)) as Hwf.
  unfold wf_predictor, after_init in *. unfold predictor_loc in *.
  revert Hne Hwf. generalize (fresh_model c (generator w)). intros [m g] Hne Hwf.
  cbv beta iota delta [heap set_heap set_generator fst snd model fresh_predictor
                         attack_types severity_levels].
  rewrite lookup_insert_eq, lookup_insert_ne, lookup_insert_eq by exact Hne.
  repeat (split; [reflexivity |]). split; [exact Hwf | split; reflexivity].
Qed.

End Construction.

(** ** A stand-in for the external components

    The assumptions of [ExternalSpec] are satisfiable: a tokenizer that
    returns one row of token ids with its segment ids and its mask, an
    encoder whose pooled
    output is a zero vector per input row, a zero gradient and an update
    that leaves the parameters alone. *)

Section StandIn.
Local Open Scope R_scope.

Definition stub_inputs : gmap string ITensor :=
  <["input_ids" := I2 [[101; 102]%Z]]>
  (<["attention_mask" := I2 [[1; 1]%Z]]> ∅).

Definition stub_encoder (ids : ITensor) : Result Tensor :=
  match ids with
  | I2 rows => Ok (map (fun _ => replicate 768 0) rows)
  | I1 _ => Raise (ValueError "expected a batch of token ids")
  end.

Definition const_linear (n_in n_out : nat) (w b : R) : Linear :=
  {| in_features := n_in; out_features := n_out;
     weight := replicate n_out (replicate n_in w); bias := replicate n_out b |}.

Definition zero_params : Params :=
  {| bert := [];
     classifier := [LLinear (const_linear 768 256 0 0); LReLU; LDropout 0.3;
                    LLinear (const_linear 256 4 0 0)];
     severity_classifier := const_linear 256 4 0 0 |}.

(** What the stand-in tokenizer returns: the two tensors with the segment
    ids beside them. *)
Definition stub_encoding : gmap string ITensor :=
  <["token_type_ids" := I2 [[0; 0]%Z]]> stub_inputs.

Definition stub_external : External :=
  {| tokenizer_call := fun _ _ => stub_encoding;
     bert_forward := fun _ _ ids _ g => (stub_encoder ids, g);
     autograd := fun _ => zero_params;
     AdamW_update := fun _ st p _ => (p, st) |}.

Lemma const_linear_shape (n_in n_out : nat) (w b : R) :
  Linear_shape (const_linear n_in n_out w b).
Proof.
  unfold Linear_shape, const_linear. cbn [weight bias in_features out_features].
  rewrite !length_replicate. repeat split.
  apply Forall_replicate. apply length_replicate.
Qed.

Lemma stub_external_spec : @ExternalSpec stub_external.
Proof.
  constructor.
  - intros vocab text. cbn [tokenizer_call stub_external].
    unfold stub_encoding, stub_inputs.
    rewrite !dom_insert_L, dom_empty_L. set_solver.
  - intros vocab text ids mask weights train g.
    cbn [tokenizer_call bert_forward stub_external].
    unfold stub_encoding, stub_inputs.
    rewrite lookup_insert_ne by discriminate.
    rewrite lookup_insert_eq. intros [= <-] _.
    exists (replicate 768 0). split; [apply length_replicate | reflexivity].
  - intros weights ids mask g g'. split; reflexivity.
  - intros rate st p g Hp. exact Hp.
Qed.

(** A process that has the pretrained checkpoint on disk and nothing on the
    heap yet. *)
Definition stub_checkpoint : Checkpoint :=
  {| ckpt_vocab := ["[CLS]"; "[SEP]"]; ckpt_weights := [] |}.

Definition start_world (stream : nat -> R) : World :=
  {| heap := ∅;
     generator := {| samples := stream; consumed := 0 |};
     hub := {["bert-base-uncased" := stub_checkpoint]};
     grad_mode := true;
     calls := [] |}.

Lemma start_world_hub (stream : nat -> R) :
  hub (start_world stream) !! "bert-base-uncased" = Some stub_checkpoint.
Proof. apply lookup_singleton_eq. Qed.

End StandIn.

(** ** The prediction *)

(** The dict [predict] returns: exactly three fields, a threat type and a
    severity out of the two label tables, and a confidence. *)
Definition is_prediction (pred : gmap string Value) : Prop :=
  dom pred = ({["threat_type"; "severity"; "confidence"]} : gset string) /\
  exists t s c,
    pred !! "threat_type" = Some (VStr t) /\ t ∈ attack_names /\
    pred !! "severity" = Some (VStr s) /\ s ∈ severity_names /\
    pred !! "confidence" = Some (VFloat c).

Definition returns_prediction (r : Result (gmap string Value) * World) : Prop :=
  exists pred, r.1 = Ok pred /\ is_prediction pred.

Section PredictionFacts.
Local Open Scope R_scope.

Lemma prediction_dict_lookup (t s : string) (c : R) :
  let pred : gmap string Value :=
    <["threat_type" := VStr t]>
    (<["severity" := VStr s]> (<["confidence" := VFloat c]> ∅)) in
  dom pred = ({["threat_type"; "severity"; "confidence"]} : gset string) /\
  pred !! "threat_type" = Some (VStr t) /\
  pred !! "severity" = Some (VStr s) /\
  pred !! "confidence" = Some (VFloat c).
Proof.
  cbv zeta. split; [| split; [| split]].
  - rewrite !dom_insert_L, dom_empty_L. set_solver.
  - apply lookup_insert_eq.
  - rewrite lookup_insert_ne by discriminate. apply lookup_insert_eq.
  - rewrite !lookup_insert_ne by discriminate. apply lookup_insert_eq.
Qed.

Lemma tsum_le_length_max (l : list R) (M : R) :
  Forall (fun y => y <= M) l -> tsum l <= INR (length l) * M.
Proof.
  induction 1 as [|y l Hy Hl IH].
  - simpl. lra.
  - cbn [tsum foldr length]. fold (tsum l). rewrite S_INR. lra.
Qed.

(** The largest entry of a softmax row over [n > 0] classes is a
    probability of at least [1 / n]. *)
Lemma softmax_max_bounds (xs : list R) (c : R) :
  xs <> [] ->
  Torch.max [softmax_row xs] = Ok c ->
  / INR (length xs) <= c <= 1.
Proof.
  intros Hne Hmax. unfold Torch.max in Hmax. simpl concat in Hmax.
  rewrite app_nil_r in Hmax.
  pose proof (softmax_row_sum xs Hne) as Hsum.
  pose proof (softmax_row_length xs) as Hlen.
  pose proof (softmax_row_bounds xs) as Hb.
  destruct (softmax_row xs) as [|p ps] eqn:E; [discriminate |].
  injection Hmax as <-.
  assert (0 < INR (length xs)) as Hn.
  { apply lt_0_INR. destruct xs; [congruence | simpl; lia]. }
  split.
  - assert (tsum (p :: ps) <= INR (length (p :: ps)) * max_from p ps) as Hle.
    { apply tsum_le_length_max. apply List.Forall_forall.
      intros y Hy. now apply max_from_ge. }
    rewrite Hsum, Hlen in Hle.
    apply Rmult_le_reg_l with (r := INR (length xs)); [exact Hn |].
    rewrite Rinv_r by now apply Rgt_not_eq. exact Hle.
  - apply Hb, max_from_In.
Qed.

End PredictionFacts.


(** ** Models with prescribed logits *)

Section Prescribed.
Local Open Scope R_scope.

(** A head (256 -> 4) whose row [k] has the constant weight [ws !! k]. *)
Definition affine_head (ws bs : list R) : Linear :=
  {| in_features := 256; out_features := 4;
     weight := map (replicate 256) ws; bias := bs |}.

Lemma affine_head_shape (ws bs : list R) :
  length ws = 4%nat -> length bs = 4%nat -> Linear_shape (affine_head ws bs).
Proof.
  intros Hw Hb. unfold Linear_shape, affine_head.
  cbn [weight bias in_features out_features]. rewrite length_map.
  repeat split; try assumption.
  apply List.Forall_map, List.Forall_forall. intros x _. apply length_replicate.
Qed.

Lemma dot_replicate_zero (n : nat) (f : list R) : dot (replicate n 0) f = 0.
Proof.
  unfold dot. revert f. induction n as [|n IH]; intros [|x f]; simpl; try reflexivity.
  rewrite IH. lra.
Qed.

Lemma dot_replicate (n : nat) (a v : R) :
  dot (replicate n a) (replicate n v) = INR n * (a * v).
Proof.
  unfold dot. induction n as [|n IH].
  - simpl. lra.
  - rewrite S_INR. cbn [replicate zip_with tsum foldr]. fold (tsum (zip_with Rmult (replicate n a) (replicate n v))).
    rewrite IH. lra.
Qed.

(** With zero weights the logits are the bias, whatever the features. *)
Lemma linear_row_bias_only (bs f : list R) :
  length bs = 4%nat -> linear_row (affine_head [0; 0; 0; 0] bs) f = bs.
Proof.
  intros Hb. destruct bs as [|b0 [|b1 [|b2 [|b3 [|? ?]]]]]; try discriminate.
  unfold linear_row, affine_head. cbn [weight bias map zip_with].
  rewrite !dot_replicate_zero. repeat f_equal; lra.
Qed.

Definition onehot (i : nat) : list R :=
  map (fun k => if Nat.eqb k i then 1 else 0) (seq 0 4).

Lemma onehot_length (i : nat) : length (onehot i) = 4%nat.
Proof. reflexivity. Qed.

(** The position of the one is where the argmax of the softmax lands. *)
Lemma argmax_softmax_onehot (i : nat) :
  (i < 4)%nat -> argmax [softmax_row (onehot i)] = Ok i.
Proof.
  intros Hi. rewrite argmax_softmax_row.
  destruct i as [|[|[|[|i]]]]; try lia;
    unfold argmax, onehot; cbn [seq map Nat.eqb concat app argmax_from];
    repeat (destruct (Rlt_dec _ _); try lra); reflexivity.
Qed.

(** A model of the declared architecture whose logits are one-hot at
    [i] (threat) and [j] (severity) for every input. *)
Definition prescribed_model (weights : list R) (i j : nat) : AISecurityModel :=
  {| params :=
       {| bert := weights;
          classifier := [LLinear (const_linear 768 256 0 0); LReLU; LDropout 0.3;
                         LLinear (affine_head [0; 0; 0; 0] (onehot i))];
          severity_classifier := affine_head [0; 0; 0; 0] (onehot j) |};
     grad := None; bert_training := false; training := true |}.

Lemma prescribed_model_wf (weights : list R) (i j : nat) :
  wf_params (params (prescribed_model weights i j)).
Proof.
  eexists _, _. cbn [params prescribed_model classifier severity_classifier].
  split; [reflexivity |].
  split; [apply const_linear_shape |]. split; [reflexivity |]. split; [reflexivity |].
  split; [now apply affine_head_shape |]. split; [reflexivity |]. split; [reflexivity |].
  split; [now apply affine_head_shape |]. split; reflexivity.
Qed.

Definition prescribed_predictor : SecurityPredictor :=
  {| tokenizer := ["[CLS]"; "[SEP]"]; model := 1%positive;
     attack_types := attack_names; severity_levels := severity_names |}.

Definition prescribed_world (g : Generator) (i j : nat) : World :=
  {| heap := <[2%positive := ObjPredictor prescribed_predictor]>
             (<[1%positive := ObjModel (prescribed_model [] i j)]> ∅);
     generator := g; hub := ∅; grad_mode := true; calls := [] |}.

Lemma prescribed_world_wf (g : Generator) (i j : nat) :
  wf_predictor (prescribed_world g i j) 2%positive prescribed_predictor
               (prescribed_model [] i j).
Proof.
  unfold wf_predictor, prescribed_world. cbn [heap model prescribed_predictor].
  rewrite lookup_insert_eq, lookup_insert_ne, lookup_insert_eq by discriminate.
  repeat (split; [reflexivity |]). split; [apply prescribed_model_wf |].
  split; reflexivity.
Qed.

End Prescribed.

(** ** Claims about the prediction *)

Section Decoding.
Local Open Scope R_scope.

(** The position of the one is where the argmax lands. *)
Lemma argmax_onehot (i : nat) : (i < 4)%nat -> argmax [onehot i] = Ok i.
Proof.
  intros Hi.
  destruct i as [|[|[|[|i]]]]; try lia;
    unfold argmax, onehot; cbn [seq map Nat.eqb concat app argmax_from];
    repeat (destruct (Rlt_dec _ _); try lra); reflexivity.
Qed.

(** What the decoding step returns is a prediction. *)
Lemma decode_is_prediction (p : SecurityPredictor) (tp sp : list R) (w : World) :
  attack_types p = attack_names -> severity_levels p = severity_names ->
  length tp = 4%nat -> length sp = 4%nat ->
  returns_prediction (decode p [tp] [sp] w).
Proof.
  intros Ha Hs Htp Hsp.
  destruct (decode_rows p tp sp w Ha Hs Htp Hsp)
    as (i & j & t & s & c & _ & Ht & _ & Hs' & _ & Hdec).
  rewrite Hdec. eexists. split; [reflexivity |].
  destruct (prediction_dict_lookup t s c) as (Hdom & H1 & H2 & H3).
  split; [exact Hdom |]. exists t, s, c.
  repeat split; try assumption.
  - eapply list_elem_of_lookup_2, Ht.
  - eapply list_elem_of_lookup_2, Hs'.
Qed.

(** Every pair of labels is decoded from some pair of rows. *)
Lemma decode_reaches (p : SecurityPredictor) (t s : string) (w : World) :
  attack_types p = attack_names -> severity_levels p = severity_names ->
  t ∈ attack_names -> s ∈ severity_names ->
  exists tp sp pred,
    length tp = 4%nat /\ length sp = 4%nat /\
    decode p [tp] [sp] w = (Ok pred, w) /\
    pred !! "threat_type" = Some (VStr t) /\
    pred !! "severity" = Some (VStr s).
Proof.
  intros Ha Hs Ht Hs'.
  apply list_elem_of_lookup_1 in Ht as [i Ht].
  apply list_elem_of_lookup_1 in Hs' as [j Hj].
  assert (Hi : (i < 4)%nat) by (apply lookup_lt_Some in Ht; simpl in Ht; lia).
  assert (Hj4 : (j < 4)%nat) by (apply lookup_lt_Some in Hj; simpl in Hj; lia).
  destruct (decode_rows p (onehot i) (onehot j) w Ha Hs eq_refl eq_refl)
    as (i' & j' & t' & s' & c & Hi' & Ht' & Hj' & Hs'' & _ & Hdec).
  rewrite (argmax_onehot i Hi) in Hi'. injection Hi' as <-.
  rewrite (argmax_onehot j Hj4) in Hj'. injection Hj' as <-.
  rewrite Ht in Ht'. injection Ht' as <-.
  rewrite Hj in Hs''. injection Hs'' as <-.
  destruct (prediction_dict_lookup t s c) as (_ & H1 & H2 & _).
  exists (onehot i), (onehot j). eexists.
  split; [reflexivity |]. split; [reflexivity |].
  split; [exact Hdec |]. split; assumption.
Qed.

(** The confidence the decoding step reports for a softmax row. *)
Lemma decode_confidence (p : SecurityPredictor) (tl sl : list R) (w : World) :
  attack_types p = attack_names -> severity_levels p = severity_names ->
  length tl = 4%nat -> length sl = 4%nat ->
  exists pred c,
    decode p (softmax [tl]) (softmax [sl]) w = (Ok pred, w) /\
    pred !! "confidence" = Some (VFloat c) /\
    Torch.max [softmax_row tl] = Ok c /\
    c ∈ softmax_row tl /\ (forall q, q ∈ softmax_row tl -> q <= c) /\
    1 / 4 <= c <= 1.
Proof.
  intros Ha Hs Htl Hsl. cbn [softmax map].
  destruct (decode_rows p (softmax_row tl) (softmax_row sl) w Ha Hs)
    as (i & j & t & s & c & Hi & _ & _ & _ & Hc & Hdec);
    [now rewrite softmax_row_length .. |].
  destruct (prediction_dict_lookup t s c) as (_ & _ & _ & H3).
  destruct (argmax_max_row _ i Hi) as (x & Hx & Hix & Hle & _).
  rewrite Hc in Hx. injection Hx as <-.
  assert (Hne : tl <> []) by (intros ->; discriminate).
  destruct (softmax_max_bounds tl c Hne Hc) as [Hlo Hhi].
  rewrite Htl in Hlo. simpl INR in Hlo.
  eexists _, c. split; [exact Hdec |]. split; [exact H3 |]. split; [exact Hc |].
  split; [eapply list_elem_of_lookup_2, Hix |].
  split; [| lra].
  intros q Hq. apply list_elem_of_lookup_1 in Hq as [k Hk]. exact (Hle k q Hk).
Qed.

End Decoding.

Section PredictionClaims.
Context `{!External} `{!ExternalSpec}.
Local Open Scope R_scope.

(** C1. As the program is written, no prediction is returned.  The
    pretrained tokenizer returns [token_type_ids] beside [input_ids] and
    [attention_mask]; [predict] passes all three to the model as keyword
    arguments, and [forward] takes two.  So for every text, [predict] on any
    predictor raises [TypeError] and leaves the state as it was, and the
    handler of [POST /analyze], whenever the pretrained checkpoint can be
    loaded, raises the same exception after it has built its predictor.
    The decoding step at the end of [predict] does what the claim says: on
    one row of four probabilities per head it builds a dict with exactly the
    fields [threat_type], [severity] and [confidence], the threat type one
    of normal, data_poisoning, prompt_injection, model_inversion and the
    severity one of low, medium, high, critical, and every pair of labels is
    decoded from some pair of rows. *)
Theorem predict_returns_no_prediction (w : World) (text : string) :
  (forall self p, heap w !! self = Some (ObjPredictor p) ->
     predict self text w =
       (Raise (TypeError "forward() got an unexpected keyword argument"), w) /\
     ~ returns_prediction (predict self text w)) /\
  (forall c, hub w !! "bert-base-uncased" = Some c ->
     analyze_threat text w =
       (Raise (TypeError "forward() got an unexpected keyword argument"),
        after_init w c) /\
     ~ returns_prediction (analyze_threat text w)) /\
  (forall p tp sp w0,
     attack_types p = attack_names -> severity_levels p = severity_names ->
     length tp = 4%nat -> length sp = 4%nat ->
     returns_prediction (decode p [tp] [sp] w0)) /\
  (forall p t s w0,
     attack_types p = attack_names -> severity_levels p = severity_names ->
     t ∈ attack_names -> s ∈ severity_names ->
     exists tp sp pred,
       length tp = 4%nat /\ length sp = 4%nat /\
       decode p [tp] [sp] w0 = (Ok pred, w0) /\
       pred !! "threat_type" = Some (VStr t) /\
       pred !! "severity" = Some (VStr s)).
Proof.
  split; [| split; [| split]].
  - intros self p Hself. rewrite (predict_raises w self p text Hself).
    split; [reflexivity |]. intros (pred & Hpred & _). discriminate.
  - intros c Hc.
    assert (Hrun : analyze_threat text w =
              (Raise (TypeError "forward() got an unexpected keyword argument"),
               after_init w c)).
    { unfold analyze_threat.
      erewrite bind_Ok by exact (SecurityPredictor_init_run w c Hc).
      destruct (after_init_wf w c) as (Hself & _).
      exact (predict_raises _ _ _ text Hself). }
    rewrite Hrun. split; [reflexivity |]. intros (pred & Hpred & _). discriminate.
  - intros p tp sp w0. apply decode_is_prediction.
  - intros p t s w0. apply decode_reaches.
Qed.

(** C2. No confidence is reported, since [predict] raises on every text
    (the defect of C1).  The decoding step computes what the claim says:
    given the softmax rows of four threat logits and of four severity
    logits, the confidence it puts in the dict is an entry of the threat
    row, no entry of the threat row is larger, it lies in [[0,1]], and it is
    the same whatever the severity logits are. *)
Theorem confidence_is_max_of_threat_row (w : World) (self : loc)
    (p : SecurityPredictor) (text : string) :
  heap w !! self = Some (ObjPredictor p) ->
  attack_types p = attack_names -> severity_levels p = severity_names ->
  (forall pred w', predict self text w <> (Ok pred, w')) /\
  (forall tl sl w0, length tl = 4%nat -> length sl = 4%nat ->
     exists pred c,
       decode p (softmax [tl]) (softmax [sl]) w0 = (Ok pred, w0) /\
       pred !! "confidence" = Some (VFloat c) /\
       c ∈ softmax_row tl /\ (forall q, q ∈ softmax_row tl -> q <= c) /\
       0 <= c <= 1 /\
       (forall sl', length sl' = 4%nat ->
          exists pred',
            decode p (softmax [tl]) (softmax [sl']) w0 = (Ok pred', w0) /\
            pred' !! "confidence" = Some (VFloat c))).
Proof.
  intros Hself Ha Hs. split.
  - intros pred w'. exact (predict_not_Ok w self p text pred w' Hself).
  - intros tl sl w0 Htl Hsl.
    destruct (decode_confidence p tl sl w0 Ha Hs Htl Hsl)
      as (pred & c & Hdec & Hc & Hmax & Hin & Hle & Hb).
    exists pred, c. split; [exact Hdec |]. split; [exact Hc |].
    split; [exact Hin |]. split; [exact Hle |]. split; [lra |].
    intros sl' Hsl'.
    destruct (decode_confidence p tl sl' w0 Ha Hs Htl Hsl')
      as (pred' & c' & Hdec' & Hc' & Hmax' & _).
    rewrite Hmax in Hmax'. injection Hmax' as <-.
    exists pred'. split; [exact Hdec' | exact Hc'].
Qed.

(** C10. No confidence is reported, since [predict] raises on every text
    (the defect of C1).  The confidence the decoding step computes from the
    softmax row of four threat logits is at least one quarter. *)
Theorem decoded_confidence_at_least_quarter (w : World) (self : loc)
    (p : SecurityPredictor) (text : string) :
  heap w !! self = Some (ObjPredictor p) ->
  attack_types p = attack_names -> severity_levels p = severity_names ->
  (forall pred w', predict self text w <> (Ok pred, w')) /\
  (forall tl sl w0, length tl = 4%nat -> length sl = 4%nat ->
     exists pred c,
       decode p (softmax [tl]) (softmax [sl]) w0 = (Ok pred, w0) /\
       pred !! "confidence" = Some (VFloat c) /\
       1 / 4 <= c).
Proof.
  intros Hself Ha Hs. split.
  - intros pred w'. exact (predict_not_Ok w self p text pred w' Hself).
  - intros tl sl w0 Htl Hsl.
    destruct (decode_confidence p tl sl w0 Ha Hs Htl Hsl)
      as (pred & c & Hdec & Hc & _ & _ & _ & Hb).
    exists pred, c. split; [exact Hdec |]. split; [exact Hc | lra].
Qed.

(** C3. No label is reported, since [predict] raises on every text (the
    defect of C1), also with parameters that make the data_poisoning logit
    the largest.  The decoding step selects each label on its own row: the
    threat type is the label at the first position where the row of threat
    probabilities is maximal (no entry is larger, every entry before it is
    strictly smaller), and so is the severity on the row of severity
    probabilities.  In particular, when the data_poisoning probability is
    strictly the largest of the four, the threat type is data_poisoning
    whatever the severity row is. *)
Theorem labels_are_first_maxima_per_head (w : World) (self : loc)
    (p : SecurityPredictor) (text : string) :
  heap w !! self = Some (ObjPredictor p) ->
  attack_types p = attack_names -> severity_levels p = severity_names ->
  (forall pred w', predict self text w <> (Ok pred, w')) /\
  (forall tp sp w0, length tp = 4%nat -> length sp = 4%nat ->
     exists pred i j t s x z,
       decode p [tp] [sp] w0 = (Ok pred, w0) /\
       attack_names !! i = Some t /\ pred !! "threat_type" = Some (VStr t) /\
       tp !! i = Some x /\
       (forall k y, tp !! k = Some y -> y <= x /\ ((k < i)%nat -> y < x)) /\
       severity_names !! j = Some s /\ pred !! "severity" = Some (VStr s) /\
       sp !! j = Some z /\
       (forall k y, sp !! k = Some y -> y <= z /\ ((k < j)%nat -> y < z)) /\
       (forall a b c d, tp = [a; b; c; d] -> a < b -> c < b -> d < b ->
          t = "data_poisoning")).
Proof.
  intros Hself Ha Hs. split.
  - intros pred w'. exact (predict_not_Ok w self p text pred w' Hself).
  - intros tp sp w0 Htp Hsp.
    destruct (decode_rows p tp sp w0 Ha Hs Htp Hsp)
      as (i & j & t & s & c & Hi & Ht & Hj & Hs' & _ & Hdec).
    destruct (prediction_dict_lookup t s c) as (_ & H1 & H2 & _).
    destruct (argmax_max_row _ i Hi) as (x & _ & Hix & Hle & Hlt).
    destruct (argmax_max_row _ j Hj) as (z & _ & Hjz & Hle' & Hlt').
    eexists _, i, j, t, s, x, z.
    split; [exact Hdec |]. split; [exact Ht |]. split; [exact H1 |].
    split; [exact Hix |]. split; [intros k y Hk; split; eauto |].
    split; [exact Hs' |]. split; [exact H2 |]. split; [exact Hjz |].
    split; [intros k y Hk; split; eauto |].
    intros a b c0 d -> Hab Hcb Hdb.
    destruct i as [|[|[|[|i]]]]; cbn in Hix, Ht; try discriminate.
    + injection Hix as <-. pose proof (Hle 1%nat b eq_refl). lra.
    + now injection Ht as <-.
    + injection Hix as <-. pose proof (Hle 1%nat b eq_refl). lra.
    + injection Hix as <-. pose proof (Hle 1%nat b eq_refl). lra.
Qed.

End PredictionClaims.

(** The claims at a concrete process: the stand-in components, the text of
    the end-to-end scenario, a generator that always yields one half. *)

Definition scenario_text : string := "DROP TABLE users; --".

Definition scenario_generator : Generator :=
  {| samples := fun _ => (1 / 2)%R; consumed := 0 |}.

Lemma prescribed_world_predictor (g : Generator) (i j : nat) :
  heap (prescribed_world g i j) !! 2%positive = Some (ObjPredictor prescribed_predictor).
Proof. apply lookup_insert_eq. Qed.

Lemma predict_returns_no_prediction_witness :
  hub (start_world (fun _ => (1 / 2)%R)) !! "bert-base-uncased" = Some stub_checkpoint /\
  (@analyze_threat stub_external scenario_text (start_world (fun _ => (1 / 2)%R))).1
    = Raise (TypeError "forward() got an unexpected keyword argument").
Proof.
  split; [apply start_world_hub |].
  exact (f_equal fst
           (proj1 (proj1 (proj2 (@predict_returns_no_prediction
                                   stub_external stub_external_spec
                                   (start_world (fun _ => (1 / 2)%R)) scenario_text))
                         stub_checkpoint (start_world_hub _)))).
Defined.

Lemma confidence_is_max_of_threat_row_witness :
  heap (prescribed_world scenario_generator 1 0) !! 2%positive
    = Some (ObjPredictor prescribed_predictor) /\
  exists pred c,
    decode prescribed_predictor (softmax [onehot 1]) (softmax [onehot 0])
           (prescribed_world scenario_generator 1 0)
      = (Ok pred, prescribed_world scenario_generator 1 0) /\
    pred !! "confidence" = Some (VFloat c) /\ (0 <= c <= 1)%R.
Proof.
  split; [apply prescribed_world_predictor |].
  destruct (proj2 (@confidence_is_max_of_threat_row stub_external stub_external_spec
                     (prescribed_world scenario_generator 1 0) 2%positive
                     prescribed_predictor scenario_text
                     (prescribed_world_predictor _ 1 0) eq_refl eq_refl)
                  (onehot 1) (onehot 0) (prescribed_world scenario_generator 1 0)
                  eq_refl eq_refl)
    as (pred & c & Hdec & Hc & _ & _ & Hb & _).
  exists pred, c. split; [exact Hdec |]. split; [exact Hc | exact Hb].
Defined.

Lemma labels_are_first_maxima_per_head_witness :
  heap (prescribed_world scenario_generator 1 0) !! 2%positive
    = Some (ObjPredictor prescribed_predictor) /\
  exists pred t,
    decode prescribed_predictor [[0; 1; 0; 0]%R] [[1; 0; 0; 0]%R]
           (prescribed_world scenario_generator 1 0)
      = (Ok pred, prescribed_world scenario_generator 1 0) /\
    pred !! "threat_type" = Some (VStr t) /\ t = "data_poisoning".
Proof.
  split; [apply prescribed_world_predictor |].
  destruct (proj2 (@labels_are_first_maxima_per_head stub_external stub_external_spec
                     (prescribed_world scenario_generator 1 0) 2%positive
                     prescribed_predictor scenario_text
                     (prescribed_world_predictor _ 1 0) eq_refl eq_refl)
                  [0; 1; 0; 0]%R [1; 0; 0; 0]%R (prescribed_world scenario_generator 1 0)
                  eq_refl eq_refl)
    as (pred & i & j & t & s & x & z & Hdec & _ & Ht & _ & _ & _ & _ & _ & _ & Hsc).
  exists pred, t. split; [exact Hdec |]. split; [exact Ht |].
  apply (Hsc 0 1 0 0)%R; [reflexivity | lra ..].
Defined.

Lemma decoded_confidence_at_least_quarter_witness :
  heap (prescribed_world scenario_generator 1 0) !! 2%positive
    = Some (ObjPredictor prescribed_predictor) /\
  exists pred c,
    decode prescribed_predictor (softmax [onehot 1]) (softmax [onehot 0])
           (prescribed_world scenario_generator 1 0)
      = (Ok pred, prescribed_world scenario_generator 1 0) /\
    pred !! "confidence" = Some (VFloat c) /\ (1 / 4 <= c)%R.
Proof.
  split; [apply prescribed_world_predictor |].
  exact (proj2 (@decoded_confidence_at_least_quarter stub_external stub_external_spec
                  (prescribed_world scenario_generator 1 0) 2%positive
                  prescribed_predictor scenario_text
                  (prescribed_world_predictor _ 1 0) eq_refl eq_refl)
               (onehot 1) (onehot 0) (prescribed_world scenario_generator 1 0)
               eq_refl eq_refl).
Defined.

(** The end-to-end scenario as the program runs it: with parameters that
    make the data_poisoning logit the largest, the scenario text gets no
    answer. *)
Lemma scenario_data_poisoning :
  @predict stub_external 2%positive scenario_text
           (prescribed_world scenario_generator 1 0)
    = (Raise (TypeError "forward() got an unexpected keyword argument"),
       prescribed_world scenario_generator 1 0).
Proof.
  exact (@predict_raises stub_external stub_external_spec _ _ _ scenario_text
           (prescribed_world_predictor scenario_generator 1 0)).
Qed.

(** ** What a computation leaves alone *)

(** [frame m]: running [m] changes neither the heap (every object, with its
    parameters, flags and tables), nor the checkpoints on disk, nor the
    gradient-recording mode; only the generator and the log of calls may
    move. *)
Definition frame {A} (m : M A) : Prop :=
  forall w, heap (m w).2 = heap w /\ hub (m w).2 = hub w /\
            grad_mode (m w).2 = grad_mode w.

Section Frame.
Context `{!External}.

Lemma frame_ret {A} (a : A) : frame (ret a).
Proof. intros w. now repeat split. Qed.

Lemma frame_mret {A} (a : A) : frame (mret a : M A).
Proof. intros w. now repeat split. Qed.

Lemma frame_raise {A} (e : exn) : frame (raise e : M A).
Proof. intros w. now repeat split. Qed.

Lemma frame_lift {A} (r : Result A) : frame (lift r).
Proof. intros w. now repeat split. Qed.

Lemma frame_bind {A B} (m : M A) (k : A -> M B) :
  frame m -> (forall a, frame (k a)) -> frame (m ≫= k).
Proof.
  intros Hm Hk w. unfold mbind, M_bind, bind.
  destruct (Hm w) as (H1 & H2 & H3). destruct (m w) as [[a|e] w1]; simpl in *.
  - destruct (Hk a w1) as (K1 & K2 & K3). split; [congruence |]. split; congruence.
  - now repeat split.
Qed.

Lemma frame_get_world : frame get_world.
Proof. intros w. now repeat split. Qed.

Lemma frame_log (c : Call) : frame (log c).
Proof. intros w. now repeat split. Qed.

Lemma frame_get_model (l : loc) : frame (get_model l).
Proof.
  intros w. unfold get_model. destruct (heap w !! l) as [[| |]|]; now repeat split.
Qed.

Lemma frame_get_predictor (l : loc) : frame (get_predictor l).
Proof.
  intros w. unfold get_predictor. destruct (heap w !! l) as [[| |]|]; now repeat split.
Qed.

Lemma frame_with_generator {A} (f : Generator -> A * Generator) :
  frame (with_generator f).
Proof.
  intros w. unfold with_generator. destruct (f (generator w)). now repeat split.
Qed.

Lemma frame_BertModel_call (weights : list R) (train : bool) (ids mask : ITensor) :
  frame (BertModel_call weights train ids mask).
Proof.
  intros w. unfold BertModel_call.
  destruct (bert_forward weights train ids mask (generator w)). now repeat split.
Qed.

Lemma frame_list_getitem {A} (xs : list A) (i : nat) : frame (list_getitem xs i).
Proof. unfold list_getitem. destruct (xs !! i); [apply frame_ret | apply frame_raise]. Qed.

Lemma frame_last_getitem {A} (xs : list A) : frame (last_getitem xs).
Proof. unfold last_getitem. destruct (last xs); [apply frame_ret | apply frame_raise]. Qed.

Lemma frame_no_grad {A} (body : M A) : frame body -> frame (no_grad body).
Proof.
  intros Hb w. unfold no_grad.
  destruct (Hb (set_grad_mode false w)) as (H1 & H2 & _).
  destruct (body (set_grad_mode false w)) as [r w1]. simpl in *. now repeat split.
Qed.

Lemma frame_Layer_call (train : bool) (l : Layer) (x : Tensor) :
  frame (Layer_call train l x).
Proof.
  destruct l; simpl; [apply frame_lift | apply frame_ret | apply frame_with_generator].
Qed.

Lemma frame_Sequential_call (train : bool) (layers : list Layer) (x : Tensor) :
  frame (Sequential_call train layers x).
Proof.
  revert x. induction layers as [|l layers IH]; intros x; simpl.
  - apply frame_ret.
  - apply frame_bind; [apply frame_Layer_call | intros y; apply IH].
Qed.

Lemma frame_forward (self : loc) (ids mask : ITensor) : frame (forward self ids mask).
Proof.
  unfold forward.
  apply frame_bind; [apply frame_get_world | intros w0].
  apply frame_bind; [apply frame_get_model | intros m].
  apply frame_bind; [apply frame_BertModel_call | intros x].
  apply frame_bind; [apply frame_Sequential_call | intros f].
  apply frame_bind; [apply frame_last_getitem | intros h].
  apply frame_bind; [apply frame_Layer_call | intros tl].
  apply frame_bind; [apply frame_lift | intros sl].
  apply frame_ret.
Qed.

Lemma frame_AISecurityModel_call (self : loc) (ids mask : ITensor) :
  frame (AISecurityModel_call self ids mask).
Proof.
  unfold AISecurityModel_call.
  apply frame_bind; [apply frame_log | intros _; apply frame_forward].
Qed.

Lemma frame_AISecurityModel_call_kwargs (self : loc) (inputs : gmap string ITensor) :
  frame (AISecurityModel_call_kwargs self inputs).
Proof.
  unfold AISecurityModel_call_kwargs.
  destruct (decide _); [| apply frame_raise].
  destruct (inputs !! "input_ids"); [| apply frame_raise].
  destruct (inputs !! "attention_mask"); [| apply frame_raise].
  apply frame_AISecurityModel_call.
Qed.

Lemma frame_predict (self : loc) (text : string) : frame (predict self text).
Proof.
  unfold predict.
  apply frame_bind; [apply frame_get_predictor | intros p].
  apply frame_bind.
  - apply frame_no_grad.
    apply frame_bind; [apply frame_get_predictor | intros p'].
    apply frame_bind; [apply frame_AISecurityModel_call_kwargs | intros [tl sl]].
    apply frame_ret.
  - intros [tp sp].
    apply frame_bind; [apply frame_get_predictor | intros p'].
    apply frame_bind; [apply frame_lift | intros i].
    apply frame_bind; [apply frame_list_getitem | intros t].
    apply frame_bind; [apply frame_lift | intros j].
    apply frame_bind; [apply frame_list_getitem | intros s].
    apply frame_bind; [apply frame_lift | intros c].
    apply frame_ret.
Qed.

(** C9. [predict] has no side effect on the objects of the program: for
    every predictor location, text and state, whether it returns or raises,
    the heap afterwards is the heap before, so the model's parameters
    (encoder and both heads), its gradient and mode flags, and the
    predictor's label tables are unchanged; the checkpoints on disk and the
    gradient-recording mode are unchanged too.  Invoking the model may
    advance the random generator. *)
Theorem predict_leaves_objects_unchanged (self : loc) (text : string) (w : World) :
  heap (predict self text w).2 = heap w /\
  hub (predict self text w).2 = hub w /\
  grad_mode (predict self text w).2 = grad_mode w /\
  (forall p m, heap w !! self = Some (ObjPredictor p) ->
               heap w !! model p = Some (ObjModel m) ->
     heap (predict self text w).2 !! self = Some (ObjPredictor p) /\
     heap (predict self text w).2 !! model p = Some (ObjModel m)).
Proof.
  destruct (frame_predict self text w) as (H1 & H2 & H3).
  repeat (split; [assumption |]).
  intros p m Hp Hm. rewrite H1. now split.
Qed.

End Frame.

(** ** What the endpoint constructs *)

(** The claim that no parameter is loaded from storage, as a property of
    the handler: two processes that differ only in what is on disk end up
    with the same model parameters. *)
Definition no_parameter_loaded_from_storage `{!External} : Prop :=
  forall (text : string) (w1 w2 : World) (m1 m2 : AISecurityModel),
    heap w1 = heap w2 -> generator w1 = generator w2 ->
    heap (analyze_threat text w1).2 !! model_loc w1 = Some (ObjModel m1) ->
    heap (analyze_threat text w2).2 !! model_loc w2 = Some (ObjModel m2) ->
    params m1 = params m2.

Definition world_with_checkpoint (c : Checkpoint) : World :=
  {| heap := ∅;
     generator := scenario_generator;
     hub := {["bert-base-uncased" := c]};
     grad_mode := true;
     calls := [] |}.

Section Endpoint.
Context `{!External}.
Local Open Scope R_scope.

Lemma analyze_threat_unfold (text : string) (w : World) (c : Checkpoint) :
  hub w !! "bert-base-uncased" = Some c ->
  analyze_threat text w = predict (predictor_loc w c) text (after_init w c).
Proof.
  intros Hc. unfold analyze_threat.
  now erewrite bind_Ok by exact (SecurityPredictor_init_run w c Hc).
Qed.

Lemma analyze_threat_heap (text : string) (w : World) (c : Checkpoint) :
  hub w !! "bert-base-uncased" = Some c ->
  heap (analyze_threat text w).2 =
    <[predictor_loc w c := ObjPredictor (fresh_predictor c (model_loc w))]>
    (<[model_loc w := ObjModel (fresh_model c (generator w)).1]> (heap w)).
Proof.
  intros Hc. rewrite (analyze_threat_unfold text w c Hc).
  destruct (frame_predict (predictor_loc w c) text (after_init w c)) as (Hh & _).
  rewrite Hh. reflexivity.
Qed.

Lemma analyze_threat_model (text : string) (w : World) (c : Checkpoint) :
  hub w !! "bert-base-uncased" = Some c ->
  heap (analyze_threat text w).2 !! model_loc w
    = Some (ObjModel (fresh_model c (generator w)).1).
Proof.
  intros Hc. rewrite (analyze_threat_heap text w c Hc).
  destruct (predictor_loc_fresh w c) as [_ Hne].
  rewrite lookup_insert_ne by exact Hne. apply lookup_insert_eq.
Qed.

Lemma fresh_model_fields (c : Checkpoint) (g : Generator) :
  let m := (fresh_model c g).1 in
  bert (params m) = ckpt_weights c /\ grad m = None /\
  bert_training m = false /\ training m = true /\
  classifier (params m) =
    [LLinear (Linear_init 768 256 g).1; LReLU; LDropout 0.3;
     LLinear (Linear_init 256 4 (Linear_init 768 256 g).2).1] /\
  severity_classifier (params m) =
    (Linear_init 256 4 (Linear_init 256 4 (Linear_init 768 256 g).2).2).1.
Proof.
  unfold fresh_model.
  destruct (Linear_init 768 256 g) as [l0 g1].
  cbv beta iota zeta delta [fst snd].
  destruct (Linear_init 256 4 g1) as [l3 g2].
  cbv beta iota zeta delta [fst snd].
  destruct (Linear_init 256 4 g2) as [sev g3].
  cbv beta iota zeta delta [fst snd params grad bert_training training bert
                              classifier severity_classifier].
  repeat (split; [reflexivity |]). reflexivity.
Qed.

(** C5, as the code has it.  Every call of the handler (the checkpoint
    being on disk) allocates a new model and a new predictor at locations
    no earlier object occupies and leaves all earlier objects as they were.
    The three linear layers of the new model are drawn from the random
    generator at the time of the call, in the order of construction; they do
    not depend on what is on disk; the model carries no gradient.  The
    encoder's weights, however, are the ones of the pretrained checkpoint,
    read from disk on every call. *)
Theorem analyze_threat_builds_fresh_predictor (text : string) (w : World)
    (c : Checkpoint) :
  hub w !! "bert-base-uncased" = Some c ->
  exists lm lp m,
    heap w !! lm = None /\ heap w !! lp = None /\ lm <> lp /\
    heap (analyze_threat text w).2 =
      <[lp := ObjPredictor (fresh_predictor c lm)]> (<[lm := ObjModel m]> (heap w)) /\
    analyze_threat text w = predict lp text (after_init w c) /\
    classifier (params m) =
      [LLinear (Linear_init 768 256 (generator w)).1; LReLU; LDropout 0.3;
       LLinear (Linear_init 256 4 (Linear_init 768 256 (generator w)).2).1] /\
    severity_classifier (params m) =
      (Linear_init 256 4
         (Linear_init 256 4 (Linear_init 768 256 (generator w)).2).2).1 /\
    grad m = None /\ training m = true /\ bert_training m = false /\
    bert (params m) = ckpt_weights c.
Proof.
  intros Hc.
  destruct (predictor_loc_fresh w c) as [Hp Hne].
  destruct (fresh_model_fields c (generator w)) as (Hb & Hg & Hbt & Ht & Hcls & Hsev).
  exists (model_loc w), (predictor_loc w c), (fresh_model c (generator w)).1.
  split; [apply model_loc_fresh |]. split; [exact Hp |].
  split; [congruence |].
  split; [exact (analyze_threat_heap text w c Hc) |].
  split; [exact (analyze_threat_unfold text w c Hc) |].
  split; [exact Hcls |]. split; [exact Hsev |]. split; [exact Hg |].
  split; [exact Ht |]. split; [exact Hbt | exact Hb].
Qed.

End Endpoint.

Lemma analyze_threat_builds_fresh_predictor_witness :
  hub (world_with_checkpoint stub_checkpoint) !! "bert-base-uncased"
    = Some stub_checkpoint /\
  exists lm m,
    heap (@analyze_threat stub_external scenario_text
            (world_with_checkpoint stub_checkpoint)).2 !! lm = Some (ObjModel m) /\
    grad m = None /\ bert (params m) = ckpt_weights stub_checkpoint.
Proof.
  assert (Hc : hub (world_with_checkpoint stub_checkpoint) !! "bert-base-uncased"
               = Some stub_checkpoint) by apply lookup_singleton_eq.
  split; [exact Hc |].
  destruct (@analyze_threat_builds_fresh_predictor stub_external scenario_text
              (world_with_checkpoint stub_checkpoint) stub_checkpoint Hc)
    as (lm & lp & m & _ & _ & Hne & Hheap & _ & _ & _ & Hg & _ & _ & Hb).
  exists lm, m. rewrite Hheap.
  rewrite lookup_insert_ne by congruence. rewrite lookup_insert_eq.
  split; [reflexivity |]. split; [exact Hg | exact Hb].
Defined.

(** The claim as stated fails: with the weights [[0]] on disk in one process
    and [[1]] in another, all else equal, the two models the handler builds
    have different encoder parameters. *)
Lemma storage_decides_encoder_parameters :
  ~ @no_parameter_loaded_from_storage stub_external.
Proof.
  intros Hclaim.
  set (c0 := {| ckpt_vocab := []; ckpt_weights := [0%R] |}).
  set (c1 := {| ckpt_vocab := []; ckpt_weights := [1%R] |}).
  assert (H0 : hub (world_with_checkpoint c0) !! "bert-base-uncased" = Some c0)
    by apply lookup_singleton_eq.
  assert (H1 : hub (world_with_checkpoint c1) !! "bert-base-uncased" = Some c1)
    by apply lookup_singleton_eq.
  pose proof (Hclaim scenario_text
                (world_with_checkpoint c0) (world_with_checkpoint c1)
                (fresh_model c0 scenario_generator).1
                (fresh_model c1 scenario_generator).1
                eq_refl eq_refl
                (@analyze_threat_model stub_external scenario_text _ c0 H0)
                (@analyze_threat_model stub_external scenario_text _ c1 H1)) as Heq.
  apply (f_equal bert) in Heq.
  destruct (fresh_model_fields c0 scenario_generator) as (Hb0 & _).
  destruct (fresh_model_fields c1 scenario_generator) as (Hb1 & _).
  cbv zeta in Hb0, Hb1. rewrite Hb0, Hb1 in Heq.
  subst c0 c1. cbv beta iota delta [ckpt_weights] in Heq.
  injection Heq as Heq. lra.
Qed.

(** * Training *)

(** ** A program logic for [M]

    [hoare P m Q E]: started in a state that satisfies [P], the computation
    [m] either returns a value [a] in a state that satisfies [Q a], or raises
    in a state that satisfies [E]. *)

Definition hoare {A} (P : World -> Prop) (m : M A)
    (Q : A -> World -> Prop) (E : World -> Prop) : Prop :=
  forall w, P w ->
    match m w with
    | (Ok a, w') => Q a w'
    | (Raise _, w') => E w'
    end.

(** A computation that always raises. *)
Definition always_raises {A} (m : M A) : Prop := forall w, is_Raise (m w).1.

Section Hoare.

Lemma hoare_bind {A B} (P : World -> Prop) (m : M A) (Q : A -> World -> Prop)
    (k : A -> M B) (R : B -> World -> Prop) (E : World -> Prop) :
  hoare P m Q E -> (forall a, hoare (Q a) (k a) R E) -> hoare P (m ≫= k) R E.
Proof.
  intros Hm Hk w HP. unfold mbind, M_bind, bind. specialize (Hm w HP).
  destruct (m w) as [[a|e] w1]; [exact (Hk a w1 Hm) | exact Hm].
Qed.

Lemma hoare_weaken {A} (P P' : World -> Prop) (m : M A)
    (Q Q' : A -> World -> Prop) (E E' : World -> Prop) :
  hoare P' m Q' E' -> (forall w, P w -> P' w) ->
  (forall a w, Q' a w -> Q a w) -> (forall w, E' w -> E w) ->
  hoare P m Q E.
Proof.
  intros Hm HP HQ HE w Hw. specialize (Hm w (HP w Hw)).
  destruct (m w) as [[a|e] w1]; [now apply HQ | now apply HE].
Qed.

(** A fact that does not speak of the state can be taken out of the
    precondition. *)
Lemma hoare_fact {A} (F : Prop) (P : World -> Prop) (m : M A)
    (Q : A -> World -> Prop) (E : World -> Prop) :
  (F -> hoare P m Q E) -> hoare (fun w => P w /\ F) m Q E.
Proof. intros Hm w [HP HF]. now apply Hm. Qed.

Lemma hoare_for {A} (I : World -> Prop) (xs : list A) (body : A -> M unit) :
  (forall x, x ∈ xs -> hoare I (body x) (fun _ => I) I) ->
  hoare I (for_ xs body) (fun _ => I) I.
Proof.
  induction xs as [|x xs IH]; intros Hbody.
  - intros w Hw. exact Hw.
  - cbn [for_]. eapply hoare_bind.
    + apply Hbody. now left.
    + intros u. apply IH. intros y Hy. apply Hbody. now right.
Qed.

(** A computation that leaves heap, checkpoints and recording mode alone
    keeps every property of these three. *)
Lemma hoare_frame {A} (I : World -> Prop) (m : M A) :
  (forall w w', heap w' = heap w -> hub w' = hub w -> grad_mode w' = grad_mode w ->
                I w -> I w') ->
  frame m -> hoare I m (fun _ => I) I.
Proof.
  intros HI Hm w Hw. destruct (Hm w) as (H1 & H2 & H3).
  destruct (m w) as [[a|e] w1]; simpl in *; now apply (HI w w1).
Qed.

Lemma frame_dict_getitem {A} (d : gmap string A) (k : string) :
  frame (dict_getitem d k).
Proof. unfold dict_getitem. destruct (d !! k); [apply frame_ret | apply frame_raise]. Qed.

Lemma frame_CrossEntropyLoss_call (input : Var Tensor) (target : ITensor) :
  frame (CrossEntropyLoss_call input target).
Proof.
  unfold CrossEntropyLoss_call.
  apply frame_bind; [apply frame_lift | intros v; apply frame_ret].
Qed.

(** Inversion of a bind that returned. *)
Lemma bind_Ok_inv {A B} (m : M A) (k : A -> M B) (w w' : World) (b : B) :
  (m ≫= k) w = (Ok b, w') ->
  exists a w1, m w = (Ok a, w1) /\ k a w1 = (Ok b, w').
Proof.
  unfold mbind, M_bind, bind. destruct (m w) as [[a|e] w1]; [| discriminate].
  intros Hk. now exists a, w1.
Qed.

(** The loop stops at the first iteration that raises. *)
Lemma for_aborts {A} (pre post : list A) (x : A) (body : A -> M unit) :
  always_raises (body x) ->
  always_raises (for_ (pre ++ x :: post) body) /\
  forall w, for_ (pre ++ x :: post) body w = for_ (pre ++ [x]) body w.
Proof.
  intros Hx.
  assert (Hstep : forall w, is_Raise (for_ (pre ++ x :: post) body w).1 /\
                            for_ (pre ++ x :: post) body w = for_ (pre ++ [x]) body w).
  { induction pre as [|y pre IH]; intros w; cbn [app for_];
      unfold mbind, M_bind, bind.
    - destruct (Hx w) as [e He]. destruct (body x w) as [[[]|e'] w1]; simpl in He.
      + discriminate.
      + split; [now exists e' | reflexivity].
    - destruct (body y w) as [[[]|e'] w1].
      + apply IH.
      + split; [now exists e' | reflexivity]. }
  split; intros w; apply Hstep.
Qed.

End Hoare.

(** ** What training keeps, whatever the batches are *)

(** [owned model v]: the graph of the tensor [v], if it has one, hangs off
    the model at [model]. *)
Definition owned {A} (model : loc) (v : Var A) : Prop :=
  forall g, grad_fn v = Some g -> graph_model g = model.

(** The state of a training run on [model] with the optimizer at [o],
    compared with the state [w0] it started from: checkpoints, recording
    mode and every other object are as in [w0]; [model] is a model (in
    training mode, encoder included, once [fl] is set) and [o] an optimizer
    over [model]. *)
Definition kept (model o : loc) (w0 : World) (fl : bool) (w : World) : Prop :=
  hub w = hub w0 /\ grad_mode w = grad_mode w0 /\
  (forall l, l <> model -> l <> o -> heap w !! l = heap w0 !! l) /\
  (exists m, heap w !! model = Some (ObjModel m) /\
             (fl = true -> bert_training m = true /\ training m = true)) /\
  (exists opt, heap w !! o = Some (ObjOptimizer opt) /\ opt_model opt = model).

(** One epoch of [train_model]. *)
Definition train_model_epoch `{!External} (model optimizer : loc)
    (train_loader : list (gmap string ITensor)) : M unit :=
  Module_train model;;
  for_ train_loader (train_model_batch model optimizer).

Section TrainingFrame.
Context `{!External}.
Variables (model o : loc) (w0 : World).
Local Open Scope R_scope.

Lemma kept_state (fl : bool) (w w' : World) :
  heap w' = heap w -> hub w' = hub w -> grad_mode w' = grad_mode w ->
  kept model o w0 fl w -> kept model o w0 fl w'.
Proof.
  intros Hh Hu Hg (K1 & K2 & K3 & K4 & K5). unfold kept.
  rewrite Hh, Hu, Hg. repeat (split; [assumption |]). assumption.
Qed.

Lemma kept_distinct (fl : bool) (w : World) : kept model o w0 fl w -> model <> o.
Proof.
  intros (_ & _ & _ & (m & Hm & _) & (opt & Ho & _)) Heq.
  rewrite Heq in Hm. rewrite Hm in Ho. discriminate.
Qed.

Lemma kept_weaken (fl : bool) (w : World) :
  kept model o w0 fl w -> kept model o w0 false w.
Proof.
  intros (K1 & K2 & K3 & (m & Hm & _) & K5).
  repeat (split; [assumption |]). split; [| exact K5].
  exists m. split; [exact Hm | discriminate].
Qed.

Lemma kept_store_model (fl fl' : bool) (w : World) (m m' : AISecurityModel) :
  kept model o w0 fl w ->
  heap w !! model = Some (ObjModel m) ->
  (fl' = true -> bert_training m' = true /\ training m' = true) ->
  kept model o w0 fl' (set_heap (<[model := ObjModel m']> (heap w)) w).
Proof.
  intros HK Hm Hfl. pose proof (kept_distinct _ _ HK) as Hne.
  destruct HK as (K1 & K2 & K3 & _ & (opt & Ho & Hom)). unfold kept.
  cbn [heap hub grad_mode set_heap].
  split; [exact K1 |]. split; [exact K2 |]. split; [| split].
  - intros l Hl Hlo. rewrite lookup_insert_ne by congruence. now apply K3.
  - exists m'. split; [apply lookup_insert_eq | exact Hfl].
  - exists opt. split; [| exact Hom]. rewrite lookup_insert_ne by exact Hne. exact Ho.
Qed.

Lemma kept_store_optimizer (fl : bool) (w : World) (opt' : Optimizer) :
  kept model o w0 fl w ->
  opt_model opt' = model ->
  kept model o w0 fl (set_heap (<[o := ObjOptimizer opt']> (heap w)) w).
Proof.
  intros HK Hom. pose proof (kept_distinct _ _ HK) as Hne.
  destruct HK as (K1 & K2 & K3 & (m & Hm & Hfl) & _). unfold kept.
  cbn [heap hub grad_mode set_heap].
  split; [exact K1 |]. split; [exact K2 |]. split; [| split].
  - intros l Hl Hlo. rewrite lookup_insert_ne by congruence. now apply K3.
  - exists m. split; [| exact Hfl]. rewrite lookup_insert_ne by congruence. exact Hm.
  - exists opt'. split; [apply lookup_insert_eq | exact Hom].
Qed.

Lemma kept_add_call (fl : bool) (w : World) (c : Call) :
  kept model o w0 fl w -> kept model o w0 fl (add_call c w).
Proof. apply kept_state; reflexivity. Qed.

Lemma Optimizer_zero_grad_kept (fl : bool) :
  hoare (kept model o w0 fl) (Optimizer_zero_grad o)
        (fun _ => kept model o w0 fl) (kept model o w0 fl).
Proof.
  intros w HK. pose proof HK as (_ & _ & _ & (m & Hm & Hfl) & (opt & Ho & Hom)).
  unfold Optimizer_zero_grad, mbind, M_bind, bind, log, get_optimizer, get_model, store.
  cbn [heap add_call]. rewrite Ho. cbn [heap add_call]. rewrite Hom, Hm.
  apply (kept_store_model fl fl (add_call (CallZeroGrad o) w) m);
    [now apply kept_add_call | exact Hm | exact Hfl].
Qed.

Lemma Tensor_backward_kept (fl : bool) (loss : Var R) :
  owned model loss ->
  hoare (kept model o w0 fl) (Tensor_backward loss)
        (fun _ => kept model o w0 fl) (kept model o w0 fl).
Proof.
  intros Hloss w HK. pose proof HK as (_ & _ & _ & (m & Hm & Hfl) & _).
  unfold Tensor_backward. destruct (grad_fn loss) as [g|] eqn:Hg; [| exact HK].
  rewrite (Hloss g Hg).
  unfold mbind, M_bind, bind, log, get_model, store.
  cbn [heap add_call]. rewrite Hm.
  apply (kept_store_model fl fl (add_call (CallBackward g (data loss)) w) m);
    [now apply kept_add_call | exact Hm | exact Hfl].
Qed.

Lemma Optimizer_step_kept (fl : bool) :
  hoare (kept model o w0 fl) (Optimizer_step o)
        (fun _ => kept model o w0 fl) (kept model o w0 fl).
Proof.
  intros w HK. pose proof HK as (_ & _ & _ & (m & Hm & Hfl) & (opt & Ho & Hom)).
  unfold Optimizer_step, mbind, M_bind, bind, log, get_optimizer, get_model.
  rewrite Ho. cbn [heap add_call]. rewrite Hom, Hm.
  destruct (grad m) as [g|].
  - destruct (AdamW_update (lr opt) (opt_state opt) (params m) g) as [p' st'].
    unfold mbind, M_bind, bind, store.
    apply kept_store_optimizer; [| reflexivity].
    apply (kept_store_model fl fl (add_call (CallStep o (lr opt)) w) m);
      [now apply kept_add_call | exact Hm | exact Hfl].
  - now apply kept_add_call.
Qed.

Lemma Module_train_kept (fl : bool) :
  hoare (kept model o w0 fl) (Module_train model)
        (fun _ => kept model o w0 true) (kept model o w0 true).
Proof.
  intros w HK. pose proof HK as (_ & _ & _ & (m & Hm & _) & _).
  unfold Module_train, mbind, M_bind, bind, log, get_model, store.
  cbn [heap add_call]. rewrite Hm.
  apply (kept_store_model fl true (add_call (CallTrain model) w) m);
    [now apply kept_add_call | exact Hm | intros _; split; reflexivity].
Qed.

(** The logits of a forward pass hang off the model that was called. *)
Lemma AISecurityModel_call_owned (ids mask : ITensor) (w w' : World)
    (tl sl : Var Tensor) :
  AISecurityModel_call model ids mask w = (Ok (tl, sl), w') ->
  owned model tl /\ owned model sl.
Proof.
  unfold AISecurityModel_call, forward. intros Hrun.
  apply bind_Ok_inv in Hrun as (u & w1 & _ & Hrun).
  apply bind_Ok_inv in Hrun as (wa & w2 & _ & Hrun).
  apply bind_Ok_inv in Hrun as (m & w3 & _ & Hrun).
  apply bind_Ok_inv in Hrun as (x & w4 & _ & Hrun).
  apply bind_Ok_inv in Hrun as (f & w5 & _ & Hrun).
  apply bind_Ok_inv in Hrun as (h & w6 & _ & Hrun).
  apply bind_Ok_inv in Hrun as (t & w7 & _ & Hrun).
  apply bind_Ok_inv in Hrun as (s & w8 & _ & Hrun).
  injection Hrun as <- <- _.
  split; intros g; unfold tracked; cbn [grad_fn];
    destruct (grad_mode wa); intros [= <-]; reflexivity.
Qed.

Lemma AISecurityModel_call_kept (fl : bool) (ids mask : ITensor) :
  hoare (kept model o w0 fl) (AISecurityModel_call model ids mask)
        (fun r w => kept model o w0 fl w /\ (owned model r.1 /\ owned model r.2))
        (kept model o w0 fl).
Proof.
  intros w HK.
  destruct (frame_AISecurityModel_call model ids mask w) as (H1 & H2 & H3).
  destruct (AISecurityModel_call model ids mask w) as [[[tl sl]|e] w1] eqn:Hrun;
    cbn [fst snd] in *.
  - split; [now apply (kept_state fl w) |].
    exact (AISecurityModel_call_owned ids mask w w1 tl sl Hrun).
  - now apply (kept_state fl w).
Qed.

Lemma CrossEntropyLoss_call_kept (fl : bool) (input : Var Tensor) (target : ITensor) :
  owned model input ->
  hoare (kept model o w0 fl) (CrossEntropyLoss_call input target)
        (fun v w => kept model o w0 fl w /\ owned model v) (kept model o w0 fl).
Proof.
  intros Hin w HK. unfold CrossEntropyLoss_call, mbind, M_bind, bind, lift, ret.
  destruct (cross_entropy (data input) target) as [v|e]; [| exact HK].
  split; [exact HK |]. intros g. cbn [grad_fn].
  destruct (grad_fn input) as [gi|] eqn:Hgi; [| discriminate].
  intros [= <-]. cbn [graph_model]. now apply Hin.
Qed.

Lemma Var_add_owned (a b : Var R) :
  owned model a -> owned model b -> owned model (Var_add a b).
Proof.
  intros Ha Hb g. unfold Var_add. cbn [grad_fn].
  destruct (grad_fn a) as [ga|] eqn:Hga, (grad_fn b) as [gb|] eqn:Hgb;
    intros [= <-]; cbn [graph_model]; auto.
Qed.

Lemma dict_getitem_kept {A} (fl : bool) (d : gmap string A) (k : string) :
  hoare (kept model o w0 fl) (dict_getitem d k)
        (fun _ => kept model o w0 fl) (kept model o w0 fl).
Proof. apply hoare_frame; [apply kept_state | apply frame_dict_getitem]. Qed.

(** One batch, whatever it holds. *)
Lemma train_model_batch_kept (fl : bool) (batch : gmap string ITensor) :
  hoare (kept model o w0 fl) (train_model_batch model o batch)
        (fun _ => kept model o w0 fl) (kept model o w0 fl).
Proof.
  unfold train_model_batch.
  eapply hoare_bind; [apply Optimizer_zero_grad_kept | intros u].
  eapply hoare_bind; [apply dict_getitem_kept | intros ids].
  eapply hoare_bind; [apply dict_getitem_kept | intros mask].
  eapply hoare_bind; [apply AISecurityModel_call_kept | intros [tl sl]].
  cbn [fst snd]. apply hoare_fact. intros [Htl Hsl].
  eapply hoare_bind; [apply dict_getitem_kept | intros y1].
  eapply hoare_bind; [now apply CrossEntropyLoss_call_kept | intros v1].
  apply hoare_fact. intros Hv1.
  eapply hoare_bind; [apply dict_getitem_kept | intros y2].
  eapply hoare_bind; [now apply CrossEntropyLoss_call_kept | intros v2].
  apply hoare_fact. intros Hv2.
  eapply hoare_bind; [now apply Tensor_backward_kept, Var_add_owned | intros u2].
  apply Optimizer_step_kept.
Qed.

Lemma train_model_epoch_kept (fl : bool) (loader : list (gmap string ITensor)) :
  hoare (kept model o w0 fl) (train_model_epoch model o loader)
        (fun _ => kept model o w0 true) (kept model o w0 true).
Proof.
  unfold train_model_epoch.
  eapply hoare_bind; [apply Module_train_kept | intros u].
  apply hoare_for. intros b _. apply train_model_batch_kept.
Qed.

(** All epochs: the flags are set as soon as one epoch has begun. *)
Lemma train_model_epochs_kept (fl : bool) (loader : list (gmap string ITensor))
    (epochs : list nat) :
  hoare (kept model o w0 fl)
        (for_ epochs (fun _ => train_model_epoch model o loader))
        (fun _ w => kept model o w0 fl w /\
                    (epochs <> [] -> kept model o w0 true w))
        (kept model o w0 true).
Proof.
  destruct epochs as [|e epochs].
  - intros w HK. split; [exact HK | congruence].
  - cbn [for_]. eapply hoare_bind; [apply train_model_epoch_kept | intros u].
    eapply hoare_weaken.
    + apply (hoare_for (kept model o w0 true)). intros e' _.
      apply train_model_epoch_kept.
    + auto.
    + intros u' w HK. split; [| now intros _].
      destruct fl; [exact HK | now apply kept_weaken in HK].
    + auto.
Qed.

End TrainingFrame.

Section TrainingKeeps.
Context `{!External}.
Local Open Scope R_scope.

Lemma train_model_unfold (model : loc) (loader : list (gmap string ITensor))
    (n : Z) (w : World) :
  train_model model loader n w =
    (optimizer ← AdamW model 2e-5;
     for_ (range n) (fun _ => train_model_epoch model optimizer loader)) w.
Proof. reflexivity. Qed.

(** The state at which the loops of [train_model] start. *)
Definition optimizer_loc (w : World) : loc := fresh (dom (heap w)).

Definition new_optimizer (model : loc) : Optimizer :=
  {| opt_model := model; lr := 2e-5;
     opt_state := {| adam_steps := 0; exp_avg := None; exp_avg_sq := None |} |}.

Definition after_AdamW (model : loc) (w : World) : World :=
  set_heap (<[optimizer_loc w := ObjOptimizer (new_optimizer model)]> (heap w)) w.

Lemma optimizer_loc_fresh (w : World) : heap w !! optimizer_loc w = None.
Proof. unfold optimizer_loc. apply not_elem_of_dom. apply is_fresh. Qed.

Lemma AdamW_run (model : loc) (w : World) (m : AISecurityModel) :
  heap w !! model = Some (ObjModel m) ->
  AdamW model 2e-5 w = (Ok (optimizer_loc w), after_AdamW model w).
Proof.
  intros Hm. unfold AdamW, mbind, M_bind, bind, get_model. now rewrite Hm.
Qed.

Lemma AdamW_fails (model : loc) (w : World) :
  (forall m, heap w !! model <> Some (ObjModel m)) ->
  AdamW model 2e-5 w = (Raise AttributeError, w).
Proof.
  intros Hm. unfold AdamW, mbind, M_bind, bind, get_model.
  destruct (heap w !! model) as [[m| |]|]; try reflexivity. now destruct (Hm m).
Qed.

Lemma after_AdamW_kept (model : loc) (w : World) (m : AISecurityModel) :
  heap w !! model = Some (ObjModel m) ->
  kept model (optimizer_loc w) (after_AdamW model w) false (after_AdamW model w).
Proof.
  intros Hm. pose proof (optimizer_loc_fresh w) as Hfresh.
  assert (Hne : model <> optimizer_loc w) by (intros Heq; congruence).
  unfold kept, after_AdamW. cbn [heap hub grad_mode set_heap].
  repeat (split; [reflexivity |]). split.
  - exists m. split; [| discriminate]. now rewrite lookup_insert_ne by congruence.
  - exists (new_optimizer model). split; [apply lookup_insert_eq | reflexivity].
Qed.

(** Every run of [train_model], to its end or to the exception that stops
    it, ends in a state that is [kept]. *)
Lemma train_model_kept (model : loc) (loader : list (gmap string ITensor))
    (n : Z) (w : World) (m : AISecurityModel) :
  heap w !! model = Some (ObjModel m) ->
  kept model (optimizer_loc w) (after_AdamW model w) false
       (train_model model loader n w).2 /\
  ((1 <= n)%Z ->
   kept model (optimizer_loc w) (after_AdamW model w) true
        (train_model model loader n w).2).
Proof.
  intros Hm. rewrite train_model_unfold.
  erewrite bind_Ok by exact (AdamW_run model w m Hm).
  pose proof (train_model_epochs_kept model (optimizer_loc w) (after_AdamW model w)
                false loader (range n) (after_AdamW model w)
                (after_AdamW_kept model w m Hm)) as Hrun.
  destruct (for_ (range n) _ (after_AdamW model w)) as [[u|e] w'];
    cbn [fst snd] in *.
  - destruct Hrun as [Hk Hfl]. split; [exact Hk |].
    intros Hn. apply Hfl. unfold range.
    destruct (Z.to_nat n) eqn:E; [lia | discriminate].
  - split; [now apply kept_weaken in Hrun | now intros _].
Qed.

(** X1. [train_model] works on the model it is given and on the optimizer
    it creates, and on nothing else: for every model location, loader,
    number of epochs and state, whether the run returns or raises, the
    checkpoints on disk and the gradient-recording mode are as before, and
    so is every object other than the model and the new optimizer (a
    predictor's label tables and tokenizer, another model, an earlier
    optimizer). *)
Theorem train_model_touches_only_its_model (model : loc)
    (train_loader : list (gmap string ITensor)) (num_epochs : Z) (w : World) :
  hub (train_model model train_loader num_epochs w).2 = hub w /\
  grad_mode (train_model model train_loader num_epochs w).2 = grad_mode w /\
  forall l, l <> model -> l <> optimizer_loc w ->
    heap (train_model model train_loader num_epochs w).2 !! l = heap w !! l.
Proof.
  destruct (heap w !! model) as [[m| |]|] eqn:Hm.
  - destruct (train_model_kept model train_loader num_epochs w m Hm)
      as [(K1 & K2 & K3 & _) _].
    split; [exact K1 |]. split; [exact K2 |].
    intros l Hl Hlo. rewrite (K3 l Hl Hlo).
    unfold after_AdamW. cbn [heap set_heap]. now rewrite lookup_insert_ne by congruence.
  - rewrite train_model_unfold.
    erewrite bind_Raise by (apply AdamW_fails; intros m; congruence).
    now repeat split.
  - rewrite train_model_unfold.
    erewrite bind_Raise by (apply AdamW_fails; intros m; congruence).
    now repeat split.
  - rewrite train_model_unfold.
    erewrite bind_Raise by (apply AdamW_fails; intros m; congruence).
    now repeat split.
Qed.

(** X2. Once [train_model] has begun an epoch it leaves the model in
    training mode, encoder included, whether the run returns or raises:
    the program never switches back to evaluation mode.  A later [predict]
    on this model therefore runs with dropout active. *)
Theorem train_model_leaves_training_mode (model : loc)
    (train_loader : list (gmap string ITensor)) (num_epochs : Z) (w : World)
    (m : AISecurityModel) :
  heap w !! model = Some (ObjModel m) -> (1 <= num_epochs)%Z ->
  exists m',
    heap (train_model model train_loader num_epochs w).2 !! model = Some (ObjModel m') /\
    training m' = true /\ bert_training m' = true.
Proof.
  intros Hm Hn.
  destruct (train_model_kept model train_loader num_epochs w m Hm) as [_ Hk].
  destruct (Hk Hn) as (_ & _ & _ & (m' & Hm' & Hfl) & _).
  exists m'. split; [exact Hm' |]. destruct (Hfl eq_refl) as [Hb Ht]. now split.
Qed.

End TrainingKeeps.

(** ** The loss *)

Section Loss.
Local Open Scope R_scope.

Lemma neg_ln_nonneg (p : R) : 0 < p <= 1 -> 0 <= - ln p.
Proof.
  intros [Hpos [Hlt | ->]].
  - pose proof (ln_increasing p 1 Hpos Hlt) as H. rewrite ln_1 in H. lra.
  - rewrite ln_1. lra.
Qed.

Lemma tsum_nonneg (ts : list R) : Forall (fun t => 0 <= t) ts -> 0 <= tsum ts.
Proof. induction 1 as [|t ts Ht _ IH]; simpl; lra. Qed.

(** What [nll_terms] returns is a list of non-negative numbers. *)
Lemma nll_terms_nonneg (rows : Tensor) (ys : list Z) (ts : list R) :
  nll_terms rows ys = Ok ts -> Forall (fun t => 0 <= t) ts.
Proof.
  revert ys ts. induction rows as [|row rows IH]; intros ys ts; simpl.
  - intros [= <-]. constructor.
  - destruct ys as [|y ys]; [intros [= <-]; constructor |].
    destruct (Z.eqb y ignore_index); [apply IH |].
    destruct (if Z.ltb y 0 then None else softmax_row row !! Z.to_nat y)
      as [p|] eqn:Hp; [| discriminate].
    destruct (nll_terms rows ys) as [ts'|e] eqn:Hts; [| discriminate].
    intros [= <-]. constructor; [| now apply (IH ys)].
    apply neg_ln_nonneg, (softmax_row_bounds row).
    destruct (Z.ltb y 0); [discriminate |].
    apply list_elem_of_lookup_2 in Hp. now apply list_elem_of_In.
Qed.

(** With one label per row, each a class index of the row, every row
    counts. *)
Lemma nll_terms_valid (rows : Tensor) (ys : list Z) (k : nat) :
  length ys = length rows ->
  Forall (fun row => length row = k) rows ->
  Forall (fun y => (0 <= y < Z.of_nat k)%Z) ys ->
  exists ts, nll_terms rows ys = Ok ts /\ length ts = length rows.
Proof.
  revert ys. induction rows as [|row rows IH]; intros ys Hlen Hrows Hys.
  - exists []. now destruct ys.
  - destruct ys as [|y ys]; [discriminate |].
    inversion Hrows as [|? ? Hrow Hrows']; subst.
    inversion Hys as [|? ? Hy Hys']; subst.
    destruct (IH ys) as (ts & Hts & Hl); [simpl in Hlen; lia | assumption.. |].
    assert (is_Some (softmax_row row !! Z.to_nat y)) as [p Hp].
    { apply lookup_lt_is_Some_2. rewrite softmax_row_length. lia. }
    exists (- ln p :: ts). simpl.
    replace (Z.eqb y ignore_index) with false
      by (symmetry; apply Z.eqb_neq; unfold ignore_index; lia).
    replace (Z.ltb y 0) with false by (symmetry; apply Z.ltb_ge; lia).
    rewrite Hp, Hts. split; [reflexivity | simpl; now rewrite Hl].
Qed.

(** The cross entropy of [n > 0] rows of four logits against [n] valid
    labels is defined and not negative. *)
Lemma cross_entropy_valid (logits : Tensor) (ys : list Z) (n : nat) :
  shape logits n 4 -> length ys = n -> ys <> [] -> Forall valid_label ys ->
  exists v, cross_entropy logits (I1 ys) = Ok v /\ 0 <= v.
Proof.
  intros [Hn Hrows] Hlen Hne Hys.
  destruct (nll_terms_valid logits ys 4) as (ts & Hts & Hl);
    [congruence | exact Hrows | exact Hys |].
  exists (tsum ts / INR (length ts)). split.
  - unfold cross_entropy. replace (Nat.eqb _ _) with true
      by (symmetry; apply Nat.eqb_eq; congruence).
    now rewrite Hts.
  - pose proof (tsum_nonneg ts (nll_terms_nonneg _ _ _ Hts)) as Hsum.
    assert (0 < INR (length ts)) as Hpos.
    { apply lt_0_INR. rewrite Hl, Hn, <- Hlen. destruct ys; [congruence | simpl; lia]. }
    apply Rmult_le_pos; [exact Hsum |]. left. now apply Rinv_0_lt_compat.
Qed.

End Loss.

(** ** A run of [train_model] on well-formed batches *)

(** A batch as [train_model] expects it: token ids and attention mask the
    encoder accepts (whatever its weights, its mode and the generator), one
    threat label and one severity label per row, each the index of a class,
    and at least one row. *)
Definition wf_batch `{!External} (b : gmap string ITensor) : Prop :=
  exists ids mask ys zs,
    b !! "input_ids" = Some ids /\ b !! "attention_mask" = Some mask /\
    b !! "threat_labels" = Some (I1 ys) /\ b !! "severity_labels" = Some (I1 zs) /\
    ys <> [] /\ length zs = length ys /\
    Forall valid_label ys /\ Forall valid_label zs /\
    forall weights train g, exists x,
      (bert_forward weights train ids mask g).1 = Ok x /\ shape x (length ys) 768.

(** The calls one batch gives rise to: gradients zeroed, then the forward
    pass on the batch's token ids and mask, then the backward pass of the
    sum of the two cross entropies (threat logits against threat labels,
    severity logits against severity labels, both of the same forward
    pass), then the optimizer step at rate 2e-5. *)
Definition batch_calls (model o : loc) (b : gmap string ITensor) (cs : list Call)
    : Prop :=
  exists ids mask ys zs ctx tl sl v1 v2,
    b !! "input_ids" = Some ids /\ b !! "attention_mask" = Some mask /\
    b !! "threat_labels" = Some ys /\ b !! "severity_labels" = Some zs /\
    fwd_model ctx = model /\
    fwd_input_ids ctx = ids /\ fwd_attention_mask ctx = mask /\
    cross_entropy tl ys = Ok v1 /\ cross_entropy sl zs = Ok v2 /\
    cs = [CallZeroGrad o;
          CallForward model ids mask;
          CallBackward
            (GAdd (GCrossEntropy (GLogits ThreatHead ctx tl) ys)
                  (GCrossEntropy (GLogits SeverityHead ctx sl) zs))
            (v1 + v2)%R;
          CallStep o 2e-5%R].

(** The calls of one epoch: the model is put in training mode, then the
    batches follow in the order of the loader. *)
Definition epoch_calls (model o : loc) (loader : list (gmap string ITensor))
    (cs : list Call) : Prop :=
  exists css, Forall2 (batch_calls model o) loader css /\
              cs = CallTrain model :: concat css.

(** The loss value of a backward call is not negative. *)
Definition loss_nonneg (c : Call) : Prop :=
  match c with
  | CallBackward _ v => (0 <= v)%R
  | _ => True
  end.

(** The state in which a batch can be processed. *)
Definition trainable (model o : loc) (w : World) : Prop :=
  grad_mode w = true /\
  (exists m, heap w !! model = Some (ObjModel m) /\ wf_params (params m)) /\
  (exists st, heap w !! o =
     Some (ObjOptimizer {| opt_model := model; lr := 2e-5%R; opt_state := st |})).

(** What one batch does to the model and to the optimizer: one update of
    the AdamW rule, at rate 2e-5, of the parameters the batch found, with
    the gradient of the graph [g] and nothing else; that gradient is what
    the model is left with. *)
Definition stepped `{!External} (model o : loc) (w w' : World) (g : Graph) : Prop :=
  exists m st,
    heap w !! model = Some (ObjModel m) /\
    heap w !! o =
      Some (ObjOptimizer {| opt_model := model; lr := 2e-5%R; opt_state := st |}) /\
    heap w' !! model =
      Some (ObjModel
              {| params := (AdamW_update 2e-5%R st (params m) (autograd g)).1;
                 grad := Some (autograd g);
                 bert_training := bert_training m; training := training m |}) /\
    heap w' !! o =
      Some (ObjOptimizer
              {| opt_model := model; lr := 2e-5%R;
                 opt_state := (AdamW_update 2e-5%R st (params m) (autograd g)).2 |}).

Section TrainingRun.
Context `{!External} `{!ExternalSpec}.
Local Open Scope R_scope.

Lemma trainable_distinct (model o : loc) (w : World) :
  trainable model o w -> model <> o.
Proof.
  intros (_ & (m & Hm & _) & (st & Ho)) Heq. rewrite Heq in Hm. congruence.
Qed.

Lemma Module_train_run (model o : loc) (w : World) :
  trainable model o w ->
  exists w', Module_train model w = (Ok tt, w') /\
             trainable model o w' /\ calls w' = (calls w ++ [CallTrain model])%list.
Proof.
  intros Ht. pose proof (trainable_distinct _ _ _ Ht) as Hne.
  destruct Ht as (Hg & (m & Hm & Hwf) & (st & Ho)).
  eexists. split.
  - unfold Module_train.
    erewrite bind_Ok by reflexivity.
    erewrite bind_Ok by (unfold get_model; cbn [heap add_call]; now rewrite Hm).
    reflexivity.
  - unfold trainable. cbn [heap calls grad_mode set_heap add_call].
    split; [| reflexivity]. split; [exact Hg |]. split.
    + eexists. split; [apply lookup_insert_eq | exact Hwf].
    + exists st. now rewrite lookup_insert_ne by exact Hne.
Qed.

(** The forward pass on a batch of [n] rows. *)
Lemma AISecurityModel_call_run (model : loc) (ids mask : ITensor) (w : World)
    (m : AISecurityModel) (n : nat) :
  heap w !! model = Some (ObjModel m) -> wf_params (params m) ->
  (forall weights train g, exists x,
     (bert_forward weights train ids mask g).1 = Ok x /\ shape x n 768) ->
  exists w' tlv slv ctx,
    AISecurityModel_call model ids mask w = (Ok (tlv, slv), w') /\
    heap w' = heap w /\ grad_mode w' = grad_mode w /\ hub w' = hub w /\
    calls w' = (calls w ++ [CallForward model ids mask])%list /\
    shape (data tlv) n 4 /\ shape (data slv) n 4 /\
    fwd_model ctx = model /\ fwd_input_ids ctx = ids /\
    fwd_attention_mask ctx = mask /\ fwd_params ctx = params m /\
    tlv = tracked w (GLogits ThreatHead ctx (data tlv)) (data tlv) /\
    slv = tracked w (GLogits SeverityHead ctx (data slv)) (data slv).
Proof.
  intros Hm Hwf Henc.
  set (w1 := add_call (CallForward model ids mask) w).
  destruct (Henc (bert (params m)) (bert_training m) (generator w1)) as (x & Hx & Hshape).
  destruct (bert_forward (bert (params m)) (bert_training m) ids mask (generator w1))
    as [r g1] eqn:Eb.
  cbn [fst] in Hx. subst r.
  pose proof Hwf as (l0 & l3 & Hcls & _).
  destruct (forward_run model ids mask w1 m l0 l3 x g1 n Hm Hcls Hwf Eb Hshape)
    as (Hfwd & _ & Htl & Hsl).
  cbv zeta in Hfwd, Htl, Hsl.
  set (ctx := {| fwd_model := model; fwd_params := params m;
                 fwd_bert_training := bert_training m; fwd_training := training m;
                 fwd_generator := generator w1;
                 fwd_input_ids := ids; fwd_attention_mask := mask |}) in Hfwd.
  eexists _, _, _, ctx. split.
  - unfold AISecurityModel_call. erewrite bind_Ok by reflexivity. exact Hfwd.
  - cbn [heap grad_mode hub calls set_generator add_call w1 data tracked
         fwd_model fwd_input_ids fwd_attention_mask fwd_params ctx].
    split; [reflexivity |]. split; [reflexivity |]. split; [reflexivity |].
    split; [reflexivity |]. split; [exact Htl |]. split; [exact Hsl |].
    repeat (split; [reflexivity |]). reflexivity.
Qed.

Lemma CrossEntropyLoss_call_run (input : Var Tensor) (target : ITensor) (v : R)
    (w : World) :
  cross_entropy (data input) target = Ok v ->
  CrossEntropyLoss_call input target w =
    (Ok {| data := v; grad_fn := (fun g => GCrossEntropy g target) <$> grad_fn input |}, w).
Proof.
  intros Hv. unfold CrossEntropyLoss_call.
  erewrite bind_Ok by (unfold lift; now rewrite Hv). reflexivity.
Qed.

(** One well-formed batch. *)
Lemma train_model_batch_run (model o : loc) (b : gmap string ITensor) (w : World) :
  trainable model o w -> wf_batch b ->
  exists w' cs,
    train_model_batch model o b w = (Ok tt, w') /\
    trainable model o w' /\
    calls w' = (calls w ++ cs)%list /\
    batch_calls model o b cs /\ Forall loss_nonneg cs /\
    exists g v, stepped model o w w' g /\
                exists front, cs = (front ++ [CallBackward g v; CallStep o 2e-5])%list.
Proof.
  intros Ht (ids & mask & ys & zs & Hids & Hmask & Hys & Hzs & Hne & Hlen & Hvy & Hvz & Henc).
  pose proof (trainable_distinct _ _ _ Ht) as Hmo.
  destruct Ht as (Hg & (m & Hm & Hwf) & (st & Ho)).
  (* zero_grad *)
  set (w1 := set_heap (<[model := ObjModel (set_grad None m)]> (heap w))
                      (add_call (CallZeroGrad o) w)).
  assert (H1 : Optimizer_zero_grad o w = (Ok tt, w1)).
  { unfold Optimizer_zero_grad.
    erewrite bind_Ok by reflexivity.
    erewrite bind_Ok by (unfold get_optimizer; cbn [heap add_call]; now rewrite Ho).
    cbn [opt_model].
    erewrite bind_Ok by (unfold get_model; cbn [heap add_call]; now rewrite Hm).
    reflexivity. }
  assert (Hm1 : heap w1 !! model = Some (ObjModel (set_grad None m)))
    by apply lookup_insert_eq.
  (* forward *)
  destruct (AISecurityModel_call_run model ids mask w1 (set_grad None m) (length ys)
              Hm1 Hwf Henc)
    as (w2 & tlv & slv & ctx & H2 & Hh2 & Hg2 & _ & Hc2 & Htl & Hsl & Hcm & Hci & Hca &
        _ & Etl & Esl).
  assert (Hgw1 : grad_mode w1 = true) by exact Hg.
  unfold tracked in Etl, Esl. rewrite Hgw1 in Etl, Esl.
  (* the two criteria *)
  destruct (cross_entropy_valid (data tlv) ys (length ys) Htl eq_refl Hne Hvy)
    as (v1 & Hv1 & Hp1).
  assert (Hzne : zs <> []) by (destruct zs, ys; simpl in Hlen; congruence).
  destruct (cross_entropy_valid (data slv) zs (length ys) Hsl Hlen Hzne Hvz)
    as (v2 & Hv2 & Hp2).
  set (g := GAdd (GCrossEntropy (GLogits ThreatHead ctx (data tlv)) (I1 ys))
                 (GCrossEntropy (GLogits SeverityHead ctx (data slv)) (I1 zs))).
  (* backward *)
  set (w3 := set_heap (<[model := ObjModel (set_grad (Some (autograd g)) (set_grad None m))]>
                         (heap w2))
                      (add_call (CallBackward g (v1 + v2)) w2)).
  (* step *)
  destruct (AdamW_update 2e-5 st (params m) (autograd g)) as [p' st'] eqn:Eup.
  set (w4 := set_heap
               (<[o := ObjOptimizer {| opt_model := model; lr := 2e-5; opt_state := st' |}]>
                (<[model := ObjModel (set_params p'
                     (set_grad (Some (autograd g)) (set_grad None m)))]> (heap w3)))
               (add_call (CallStep o 2e-5) w3)).
  exists w4, [CallZeroGrad o; CallForward model ids mask;
              CallBackward g (v1 + v2); CallStep o 2e-5].
  split; [| split; [| split; [| split; [| split]]]].
  - unfold train_model_batch.
    erewrite bind_Ok by exact H1.
    erewrite bind_Ok by (unfold dict_getitem; rewrite Hids; reflexivity).
    erewrite bind_Ok by (unfold dict_getitem; rewrite Hmask; reflexivity).
    erewrite bind_Ok by exact H2.
    cbv beta iota.
    erewrite bind_Ok by (unfold dict_getitem; rewrite Hys; reflexivity).
    erewrite bind_Ok by (apply CrossEntropyLoss_call_run; exact Hv1).
    erewrite bind_Ok by (unfold dict_getitem; rewrite Hzs; reflexivity).
    erewrite bind_Ok by (apply CrossEntropyLoss_call_run; exact Hv2).
    rewrite Etl, Esl. cbn [grad_fn data fmap option_fmap option_map].
    erewrite bind_Ok; cycle 1.
    { unfold Tensor_backward, Var_add. cbn [grad_fn data].
      fold g. cbn [graph_model g]. rewrite Hcm.
      erewrite bind_Ok by reflexivity.
      erewrite bind_Ok
        by (unfold get_model; cbn [heap add_call]; now rewrite Hh2, Hm1).
      unfold store. cbn [accumulate grad set_grad heap add_call]. reflexivity. }
    fold w3. unfold Optimizer_step.
    erewrite bind_Ok; cycle 1.
    { unfold get_optimizer. cbn [heap w3 set_heap].
      rewrite lookup_insert_ne by exact Hmo.
      rewrite Hh2. cbn [heap w1 set_heap].
      rewrite lookup_insert_ne by exact Hmo. now rewrite Ho. }
    cbn [lr opt_model opt_state].
    erewrite bind_Ok by reflexivity.
    erewrite bind_Ok; cycle 1.
    { unfold get_model. cbn [heap add_call w3 set_heap].
      now rewrite lookup_insert_eq. }
    cbn [grad params set_grad]. rewrite Eup.
    erewrite bind_Ok by reflexivity. reflexivity.
  - unfold trainable. cbn [heap grad_mode w4 w3 set_heap add_call]. split; [| split].
    + rewrite Hg2. exact Hgw1.
    + eexists. rewrite lookup_insert_ne by congruence. rewrite lookup_insert_eq.
      split; [reflexivity |]. cbn [params set_params].
      pose proof (AdamW_update_shape 2e-5 st (params m) (autograd g) Hwf) as Hup.
      now rewrite Eup in Hup.
    + exists st'. now rewrite lookup_insert_eq.
  - cbn [calls w4 w3 set_heap add_call]. rewrite Hc2.
    cbn [calls w1 set_heap add_call]. now rewrite <- !app_assoc.
  - exists ids, mask, (I1 ys), (I1 zs), ctx, (data tlv), (data slv), v1, v2.
    repeat (split; [assumption |]). reflexivity.
  - constructor; [exact I |]. constructor; [exact I |].
    constructor; [cbn [loss_nonneg]; lra |]. constructor; [exact I | constructor].
  - exists g, (v1 + v2). split.
    + exists m, st. split; [exact Hm |]. split; [exact Ho |].
      rewrite Eup. cbn [fst snd heap w4 set_heap]. split.
      * rewrite lookup_insert_ne by congruence. now rewrite lookup_insert_eq.
      * now rewrite lookup_insert_eq.
    + now exists [CallZeroGrad o; CallForward model ids mask].
Qed.

End TrainingRun.

Section TrainingLoops.
Context `{!External} `{!ExternalSpec}.
Local Open Scope R_scope.

Lemma train_model_batches_run (model o : loc) (loader : list (gmap string ITensor))
    (w : World) :
  trainable model o w -> Forall wf_batch loader ->
  exists w' css,
    for_ loader (train_model_batch model o) w = (Ok tt, w') /\
    trainable model o w' /\
    calls w' = (calls w ++ concat css)%list /\
    Forall2 (batch_calls model o) loader css /\
    Forall loss_nonneg (concat css).
Proof.
  intros Ht Hall. revert w Ht.
  induction Hall as [|b loader Hb Hall IH]; intros w Ht.
  - exists w, []. cbn [for_ concat]. rewrite app_nil_r.
    repeat (split; [first [reflexivity | assumption | constructor] |]). constructor.
  - destruct (train_model_batch_run model o b w Ht Hb)
      as (w1 & cs & Hrun & Ht1 & Hc1 & Hcs & Hpos & _).
    destruct (IH w1 Ht1) as (w2 & css & Hrun2 & Ht2 & Hc2 & Hcss & Hposs).
    exists w2, (cs :: css). cbn [for_ concat].
    split; [now erewrite bind_Ok by exact Hrun |].
    split; [exact Ht2 |].
    split; [now rewrite Hc2, Hc1, <- app_assoc |].
    split; [now constructor |].
    apply Forall_app. now split.
Qed.

Lemma train_model_epoch_run (model o : loc) (loader : list (gmap string ITensor))
    (w : World) :
  trainable model o w -> Forall wf_batch loader ->
  exists w' cs,
    train_model_epoch model o loader w = (Ok tt, w') /\
    trainable model o w' /\
    calls w' = (calls w ++ cs)%list /\
    epoch_calls model o loader cs /\
    Forall loss_nonneg cs.
Proof.
  intros Ht Hall.
  destruct (Module_train_run model o w Ht) as (w1 & Hrun1 & Ht1 & Hc1).
  destruct (train_model_batches_run model o loader w1 Ht1 Hall)
    as (w2 & css & Hrun2 & Ht2 & Hc2 & Hcss & Hpos).
  exists w2, (CallTrain model :: concat css).
  split; [unfold train_model_epoch; now erewrite bind_Ok by exact Hrun1 |].
  split; [exact Ht2 |].
  split; [now rewrite Hc2, Hc1, <- app_assoc |].
  split; [now exists css |].
  constructor; [exact I | exact Hpos].
Qed.

Lemma train_model_epochs_run (model o : loc) (loader : list (gmap string ITensor))
    (epochs : list nat) (w : World) :
  trainable model o w -> Forall wf_batch loader ->
  exists w' ess,
    for_ epochs (fun _ => train_model_epoch model o loader) w = (Ok tt, w') /\
    trainable model o w' /\
    calls w' = (calls w ++ concat ess)%list /\
    length ess = length epochs /\
    Forall (epoch_calls model o loader) ess /\
    Forall loss_nonneg (concat ess).
Proof.
  intros Ht Hall. revert w Ht.
  induction epochs as [|e epochs IH]; intros w Ht.
  - exists w, []. cbn [for_ concat]. rewrite app_nil_r.
    repeat (split; [first [reflexivity | assumption | constructor] |]). constructor.
  - destruct (train_model_epoch_run model o loader w Ht Hall)
      as (w1 & cs & Hrun & Ht1 & Hc1 & Hcs & Hpos).
    destruct (IH w1 Ht1) as (w2 & ess & Hrun2 & Ht2 & Hc2 & Hlen & Hess & Hposs).
    exists w2, (cs :: ess). cbn [for_ concat].
    split; [now erewrite bind_Ok by exact Hrun |].
    split; [exact Ht2 |].
    split; [now rewrite Hc2, Hc1, <- app_assoc |].
    split; [cbn; now rewrite Hlen |].
    split; [now constructor |].
    apply Forall_app. now split.
Qed.

Lemma after_AdamW_trainable (model : loc) (w : World) (m : AISecurityModel) :
  heap w !! model = Some (ObjModel m) -> wf_params (params m) ->
  grad_mode w = true ->
  trainable model (optimizer_loc w) (after_AdamW model w).
Proof.
  intros Hm Hwf Hg. pose proof (optimizer_loc_fresh w) as Hfresh.
  unfold trainable, after_AdamW. cbn [heap grad_mode set_heap].
  split; [exact Hg |]. split.
  - exists m. split; [| exact Hwf]. rewrite lookup_insert_ne by congruence. exact Hm.
  - eexists. apply lookup_insert_eq.
Qed.

(** A whole run on well-formed batches. *)
Lemma train_model_run (model : loc) (loader : list (gmap string ITensor)) (n : Z)
    (w : World) (m : AISecurityModel) :
  heap w !! model = Some (ObjModel m) -> wf_params (params m) ->
  grad_mode w = true -> Forall wf_batch loader ->
  exists w' ess,
    train_model model loader n w = (Ok tt, w') /\
    trainable model (optimizer_loc w) w' /\
    calls w' = (calls w ++ concat ess)%list /\
    length ess = Z.to_nat n /\
    Forall (epoch_calls model (optimizer_loc w) loader) ess /\
    Forall loss_nonneg (concat ess).
Proof.
  intros Hm Hwf Hg Hall.
  destruct (train_model_epochs_run model (optimizer_loc w) loader (range n)
              (after_AdamW model w) (after_AdamW_trainable model w m Hm Hwf Hg) Hall)
    as (w' & ess & Hrun & Ht & Hc & Hlen & Hess & Hpos).
  exists w', ess.
  split; [rewrite train_model_unfold;
          now erewrite bind_Ok by exact (AdamW_run model w m Hm) |].
  split; [exact Ht |]. split; [exact Hc |].
  split; [now rewrite Hlen; unfold range; rewrite length_seq |].
  split; assumption.
Qed.

(** X3. On a model of the declared architecture, with gradient recording
    on and a loader of well-formed batches, [train_model] returns, and the
    calls it makes are exactly these: one optimizer (AdamW at rate 2e-5) is
    created first; then, [num_epochs] times over, the model is put in
    training mode and every batch, in the order of the loader, has the
    gradients zeroed, the forward pass run on its token ids and attention
    mask, the backward pass run on the sum of the cross entropy of the
    threat logits against the threat labels and of the severity logits
    against the severity labels, and the optimizer stepped. *)
Theorem train_model_follows_schedule (model : loc)
    (train_loader : list (gmap string ITensor)) (num_epochs : Z) (w : World)
    (m : AISecurityModel) :
  heap w !! model = Some (ObjModel m) -> wf_params (params m) ->
  grad_mode w = true -> Forall wf_batch train_loader ->
  exists w' ess,
    train_model model train_loader num_epochs w = (Ok tt, w') /\
    heap w' !! optimizer_loc w <> None /\ heap w !! optimizer_loc w = None /\
    calls w' = (calls w ++ concat ess)%list /\
    length ess = Z.to_nat num_epochs /\
    Forall (epoch_calls model (optimizer_loc w) train_loader) ess.
Proof.
  intros Hm Hwf Hg Hall.
  destruct (train_model_run model train_loader num_epochs w m Hm Hwf Hg Hall)
    as (w' & ess & Hrun & (_ & _ & (st & Ho)) & Hc & Hlen & Hess & _).
  exists w', ess. split; [exact Hrun |].
  split; [now rewrite Ho |]. split; [apply optimizer_loc_fresh |].
  split; [exact Hc |]. split; assumption.
Qed.

(** X4. Under the same conditions every loss value [train_model] passes
    to the backward pass is the sum of two cross entropies and is not
    negative. *)
Theorem train_model_loss_nonnegative (model : loc)
    (train_loader : list (gmap string ITensor)) (num_epochs : Z) (w : World)
    (m : AISecurityModel) :
  heap w !! model = Some (ObjModel m) -> wf_params (params m) ->
  grad_mode w = true -> Forall wf_batch train_loader ->
  exists w' new,
    train_model model train_loader num_epochs w = (Ok tt, w') /\
    calls w' = (calls w ++ new)%list /\
    forall g v, CallBackward g v ∈ new -> 0 <= v.
Proof.
  intros Hm Hwf Hg Hall.
  destruct (train_model_run model train_loader num_epochs w m Hm Hwf Hg Hall)
    as (w' & ess & Hrun & _ & Hc & _ & _ & Hpos).
  exists w', (concat ess). split; [exact Hrun |]. split; [exact Hc |].
  intros g v Hin. rewrite Forall_forall in Hpos. exact (Hpos _ Hin).
Qed.

(** X5. Training keeps the model usable: after [train_model] has run on
    the model of a predictor (well-formed batches, recording on), the
    predictor is untouched, the model still has the declared architecture,
    and calling the model on token ids and a mask that the encoder maps to
    [n] pooled vectors still returns [n] rows of four threat logits and [n]
    rows of four severity logits. *)
Theorem forward_after_training (self : loc) (p : SecurityPredictor)
    (m : AISecurityModel) (train_loader : list (gmap string ITensor))
    (num_epochs : Z) (w : World) :
  wf_predictor w self p m -> grad_mode w = true -> Forall wf_batch train_loader ->
  exists w' m',
    train_model (model p) train_loader num_epochs w = (Ok tt, w') /\
    wf_predictor w' self p m' /\
    forall input_ids attention_mask n,
      (forall weights train g, exists x,
         (bert_forward weights train input_ids attention_mask g).1 = Ok x /\
         shape x n 768) ->
      exists threat_logits severity_logits w'',
        AISecurityModel_call (model p) input_ids attention_mask w'
          = (Ok (threat_logits, severity_logits), w'') /\
        shape (data threat_logits) n 4 /\ shape (data severity_logits) n 4.
Proof.
  intros Hp Hg Hall. pose proof Hp as (Hself & Hm & Hwf & Ha & Hs).
  destruct (train_model_run (model p) train_loader num_epochs w m Hm Hwf Hg Hall)
    as (w' & ess & Hrun & (_ & (m' & Hm' & Hwf') & _) & _).
  destruct (train_model_kept (model p) train_loader num_epochs w m Hm)
    as [(_ & _ & K3 & _) _].
  rewrite Hrun in K3. cbn [snd] in K3.
  assert (Hself' : heap w' !! self = Some (ObjPredictor p)).
  { rewrite K3.
    - unfold after_AdamW. cbn [heap set_heap].
      rewrite lookup_insert_ne; [exact Hself |].
      intros Heq. pose proof (optimizer_loc_fresh w) as Hf. congruence.
    - intros Heq. congruence.
    - intros Heq. pose proof (optimizer_loc_fresh w) as Hf. congruence. }
  assert (Hp' : wf_predictor w' self p m').
  { split; [exact Hself' |]. split; [exact Hm' |]. split; [exact Hwf' |]. now split. }
  exists w', m'. split; [exact Hrun |]. split; [exact Hp' |].
  intros ids mask n Henc.
  destruct (AISecurityModel_call_run (model p) ids mask w' m' n Hm' Hwf' Henc)
    as (w'' & tlv & slv & ctx & Hcall & _ & _ & _ & _ & Htl & Hsl & _).
  exists tlv, slv, w''. split; [exact Hcall |]. split; [exact Htl | exact Hsl].
Qed.

End TrainingLoops.

(** ** Edge cases of [train_model] *)

(** The keys [train_model] reads from a batch. *)
Definition batch_keys : list string :=
  ["input_ids"; "attention_mask"; "threat_labels"; "severity_labels"].

Section TrainingEdges.
Context `{!External}.
Local Open Scope R_scope.

Lemma always_raises_bind {A B} (m : M A) (k : A -> M B) :
  (forall a, always_raises (k a)) -> always_raises (m ≫= k).
Proof.
  intros Hk w. unfold mbind, M_bind, bind.
  destruct (m w) as [[a|e] w1]; [apply Hk | now exists e].
Qed.

(** A batch without one of the four keys makes the loop body raise,
    whatever the state. *)
Lemma train_model_batch_missing_key (model o : loc) (bad : gmap string ITensor)
    (k : string) :
  k ∈ batch_keys -> bad !! k = None ->
  always_raises (train_model_batch model o bad).
Proof.
  intros Hk Hbad w.
  unfold train_model_batch, mbind, M_bind, bind, dict_getitem, ret, raise.
  destruct (Optimizer_zero_grad o w) as [[u|e] w1]; [| now exists e].
  destruct (bad !! "input_ids") as [ids|] eqn:E1; [| now eexists].
  destruct (bad !! "attention_mask") as [mask|] eqn:E2; [| now eexists].
  destruct (AISecurityModel_call model ids mask w1) as [[[tl sl]|e] w2];
    [| now exists e].
  destruct (bad !! "threat_labels") as [y1|] eqn:E3; [| now eexists].
  destruct (CrossEntropyLoss_call tl y1 w2) as [[v1|e] w3]; [| now exists e].
  destruct (bad !! "severity_labels") as [y2|] eqn:E4; [| now eexists].
  exfalso. unfold batch_keys in Hk.
  repeat (apply elem_of_cons in Hk as [-> | Hk]; [congruence |]).
  now apply elem_of_nil in Hk.
Qed.

Lemma for_raises_first {A} (x : A) (xs : list A) (body : A -> M unit) (w : World) :
  is_Raise (body x w).1 -> for_ (x :: xs) body w = body x w.
Proof.
  intros [e He]. cbn [for_]. unfold mbind, M_bind, bind.
  destruct (body x w) as [[[]|e'] w1]; [discriminate | reflexivity].
Qed.

(** X6. A batch that lacks one of the keys [input_ids],
    [attention_mask], [threat_labels], [severity_labels] stops training:
    with at least one epoch, [train_model] raises, and it does exactly what
    it would do had the loader ended with that batch and had one epoch been
    asked for; no batch after it is looked at and no later epoch begins. *)
Theorem train_model_stops_at_missing_key (model : loc)
    (pre post : list (gmap string ITensor)) (bad : gmap string ITensor)
    (k : string) (num_epochs : Z) (w : World) :
  k ∈ batch_keys -> bad !! k = None -> (1 <= num_epochs)%Z ->
  is_Raise (train_model model (pre ++ bad :: post) num_epochs w).1 /\
  train_model model (pre ++ bad :: post) num_epochs w =
    train_model model (pre ++ [bad]) 1 w.
Proof.
  intros Hk Hbad Hn. rewrite !train_model_unfold.
  destruct (AdamW model 2e-5 w) as [[o|e] w1] eqn:Eopt; cycle 1.
  { erewrite !bind_Raise by exact Eopt. split; [now exists e | reflexivity]. }
  erewrite !bind_Ok by exact Eopt.
  pose proof (train_model_batch_missing_key model o bad k Hk Hbad) as Hraise.
  destruct (for_aborts pre post bad (train_model_batch model o) Hraise) as [Hall Heq].
  assert (Hepoch : train_model_epoch model o (pre ++ bad :: post) w1 =
                   train_model_epoch model o (pre ++ [bad]) w1).
  { unfold train_model_epoch, mbind, M_bind, bind.
    destruct (Module_train model w1) as [[u|e] w2]; [apply Heq | reflexivity]. }
  assert (Hr : is_Raise (train_model_epoch model o (pre ++ bad :: post) w1).1).
  { unfold train_model_epoch. apply always_raises_bind. intros u. exact Hall. }
  assert (Hrange : exists rest, range num_epochs = 0%nat :: rest).
  { unfold range. destruct (Z.to_nat num_epochs) as [|j] eqn:E; [lia |].
    now exists (seq 1 j). }
  destruct Hrange as [rest ->].
  change (range 1) with [0%nat].
  rewrite (for_raises_first 0%nat rest _ w1 Hr).
  rewrite (for_raises_first 0%nat [] _ w1) by now rewrite <- Hepoch.
  split; [exact Hr | exact Hepoch].
Qed.

Lemma Module_train_eq (model : loc) (w : World) (m : AISecurityModel) :
  heap w !! model = Some (ObjModel m) ->
  Module_train model w =
    (Ok tt, set_heap (<[model := ObjModel {| params := params m; grad := grad m;
                                             bert_training := true; training := true |}]>
                        (heap w))
                     (add_call (CallTrain model) w)).
Proof.
  intros Hm. unfold Module_train.
  erewrite bind_Ok by reflexivity.
  erewrite bind_Ok by (unfold get_model; cbn [heap add_call]; now rewrite Hm).
  reflexivity.
Qed.

(** The epochs of a run on an empty loader. *)
Lemma train_model_epochs_empty (model o : loc) (epochs : list nat) (w : World)
    (m : AISecurityModel) :
  heap w !! model = Some (ObjModel m) ->
  exists w' m',
    for_ epochs (fun _ => train_model_epoch model o []) w = (Ok tt, w') /\
    calls w' = (calls w ++ replicate (length epochs) (CallTrain model))%list /\
    heap w' !! model = Some (ObjModel m') /\
    params m' = params m /\ grad m' = grad m /\
    (epochs <> [] -> training m' = true /\ bert_training m' = true) /\
    forall l, l <> model -> heap w' !! l = heap w !! l.
Proof.
  revert w m. induction epochs as [|e epochs IH]; intros w m Hm.
  - exists w, m. cbn [for_ length replicate]. rewrite app_nil_r.
    repeat (split; [first [reflexivity | assumption] |]).
    split; [congruence | reflexivity].
  - set (m1 := {| params := params m; grad := grad m;
                  bert_training := true; training := true |}).
    set (w1 := set_heap (<[model := ObjModel m1]> (heap w))
                        (add_call (CallTrain model) w)).
    destruct (IH w1 m1) as (w' & m' & Hrun & Hc & Hm' & Hp & Hgr & Hfl & Hother);
      [apply lookup_insert_eq |].
    exists w', m'. split; [| split; [| split; [| split; [| split; [| split]]]]].
    + cbn [for_]. erewrite bind_Ok; [exact Hrun |].
      unfold train_model_epoch.
      erewrite bind_Ok by exact (Module_train_eq model w m Hm). reflexivity.
    + rewrite Hc. cbn [calls w1 set_heap add_call length replicate].
      now rewrite <- app_assoc.
    + exact Hm'.
    + exact Hp.
    + exact Hgr.
    + intros _. destruct epochs as [|e' epochs'].
      * cbn [for_] in Hrun. injection Hrun as <-.
        cbn [heap w1 set_heap] in Hm'.
        rewrite lookup_insert_eq in Hm'. injection Hm' as <-. now split.
      * now apply Hfl.
    + intros l Hl. rewrite (Hother l Hl). cbn [heap w1 set_heap].
      now rewrite lookup_insert_ne by congruence.
Qed.

End TrainingEdges.

Section TrainingEdgeCases.
Context `{!External}.
Local Open Scope R_scope.

(** X7. With an empty loader [train_model] only switches the model to
    training mode, once per epoch: it returns, the calls it makes are
    [num_epochs] calls of [model.train()] (none when [num_epochs] is zero or
    negative), and the parameters and gradients of the model are what they
    were. *)
Theorem train_model_empty_loader (model : loc) (num_epochs : Z) (w : World)
    (m : AISecurityModel) :
  heap w !! model = Some (ObjModel m) ->
  exists w' m',
    train_model model [] num_epochs w = (Ok tt, w') /\
    calls w' = (calls w ++ replicate (Z.to_nat num_epochs) (CallTrain model))%list /\
    heap w' !! model = Some (ObjModel m') /\
    params m' = params m /\ grad m' = grad m.
Proof.
  intros Hm. pose proof (optimizer_loc_fresh w) as Hfresh.
  destruct (train_model_epochs_empty model (optimizer_loc w) (range num_epochs)
              (after_AdamW model w) m)
    as (w' & m' & Hrun & Hc & Hm' & Hp & Hg & _ & _).
  { unfold after_AdamW. cbn [heap set_heap].
    rewrite lookup_insert_ne by congruence. exact Hm. }
  exists w', m'.
  split; [rewrite train_model_unfold;
          now erewrite bind_Ok by exact (AdamW_run model w m Hm) |].
  split; [| now repeat split].
  rewrite Hc. unfold range. now rewrite length_seq.
Qed.

(** X8. A number of epochs that is zero or negative is accepted
    silently: whatever the loader holds, [train_model] creates its optimizer
    and returns; no batch is read, no call is made on the model, and the
    model object is what it was. *)
Theorem train_model_no_epochs (model : loc)
    (train_loader : list (gmap string ITensor)) (num_epochs : Z) (w : World)
    (m : AISecurityModel) :
  heap w !! model = Some (ObjModel m) -> (num_epochs <= 0)%Z ->
  exists w',
    train_model model train_loader num_epochs w = (Ok tt, w') /\
    calls w' = calls w /\ generator w' = generator w /\
    heap w' = <[optimizer_loc w := ObjOptimizer (new_optimizer model)]> (heap w) /\
    heap w' !! model = Some (ObjModel m).
Proof.
  intros Hm Hn. pose proof (optimizer_loc_fresh w) as Hfresh.
  exists (after_AdamW model w). split.
  - rewrite train_model_unfold.
    erewrite bind_Ok by exact (AdamW_run model w m Hm).
    unfold range. replace (Z.to_nat num_epochs) with 0%nat by lia. reflexivity.
  - unfold after_AdamW. cbn [heap calls generator set_heap].
    repeat (split; [reflexivity |]).
    rewrite lookup_insert_ne by congruence. exact Hm.
Qed.

Lemma for_app_Ok {A} (xs ys : list A) (body : A -> M unit) (w w1 : World) :
  for_ xs body w = (Ok tt, w1) ->
  for_ (xs ++ ys) body w = for_ ys body w1.
Proof.
  revert w. induction xs as [|x xs IH]; intros w Hrun; cbn [app for_] in *.
  - now injection Hrun as ->.
  - apply bind_Ok_inv in Hrun as ([] & w2 & Hx & Hrun).
    erewrite bind_Ok by exact Hx. now apply IH.
Qed.

End TrainingEdgeCases.

Section TrainingUnlabelled.
Context `{!External} `{!ExternalSpec}.
Local Open Scope R_scope.

(** A batch with inputs but without threat labels: the loop body raises
    after the forward pass. *)
Lemma train_model_batch_unlabelled (model o : loc) (bad : gmap string ITensor)
    (w : World) (ids mask : ITensor) (rows : nat) :
  trainable model o w ->
  bad !! "input_ids" = Some ids -> bad !! "attention_mask" = Some mask ->
  (forall weights train g, exists x,
     (bert_forward weights train ids mask g).1 = Ok x /\ shape x rows 768) ->
  bad !! "threat_labels" = None ->
  exists w' m',
    train_model_batch model o bad w = (Raise (KeyError "threat_labels"), w') /\
    calls w' = (calls w ++ [CallZeroGrad o; CallForward model ids mask])%list /\
    heap w' !! model = Some (ObjModel m') /\ grad m' = None.
Proof.
  intros Ht Hids Hmask Henc Hbad.
  pose proof (trainable_distinct _ _ _ Ht) as Hmo.
  destruct Ht as (Hg & (m & Hm & Hwf) & (st & Ho)).
  set (w1 := set_heap (<[model := ObjModel (set_grad None m)]> (heap w))
                      (add_call (CallZeroGrad o) w)).
  assert (H1 : Optimizer_zero_grad o w = (Ok tt, w1)).
  { unfold Optimizer_zero_grad.
    erewrite bind_Ok by reflexivity.
    erewrite bind_Ok by (unfold get_optimizer; cbn [heap add_call]; now rewrite Ho).
    cbn [opt_model].
    erewrite bind_Ok by (unfold get_model; cbn [heap add_call]; now rewrite Hm).
    reflexivity. }
  assert (Hm1 : heap w1 !! model = Some (ObjModel (set_grad None m)))
    by apply lookup_insert_eq.
  destruct (AISecurityModel_call_run model ids mask w1 (set_grad None m) rows
              Hm1 Hwf Henc)
    as (w2 & tlv & slv & ctx & H2 & Hh2 & _ & _ & Hc2 & _).
  exists w2, (set_grad None m). split; [| split; [| split]].
  - unfold train_model_batch.
    erewrite bind_Ok by exact H1.
    erewrite bind_Ok by (unfold dict_getitem; rewrite Hids; reflexivity).
    erewrite bind_Ok by (unfold dict_getitem; rewrite Hmask; reflexivity).
    erewrite bind_Ok by exact H2.
    cbv beta iota.
    erewrite bind_Raise; [reflexivity |].
    unfold dict_getitem. now rewrite Hbad.
  - rewrite Hc2. cbn [calls w1 set_heap add_call]. now rewrite <- app_assoc.
  - now rewrite Hh2.
  - reflexivity.
Qed.

(** X9. An unlabelled batch is found out late.  When the batches before
    it are well formed and the batch itself has token ids and a mask the
    encoder accepts but no [threat_labels], [train_model] raises
    [KeyError('threat_labels')] in the first epoch, after it has trained on
    the batches before, zeroed the gradients and run the forward pass of
    the unlabelled batch; that batch gets no backward pass and no optimizer
    step, and the model is left with its gradients cleared. *)
Theorem train_model_unlabelled_batch (model : loc)
    (pre post : list (gmap string ITensor)) (bad : gmap string ITensor)
    (num_epochs : Z) (w : World) (m : AISecurityModel)
    (ids mask : ITensor) (rows : nat) :
  heap w !! model = Some (ObjModel m) -> wf_params (params m) ->
  grad_mode w = true -> Forall wf_batch pre ->
  bad !! "input_ids" = Some ids -> bad !! "attention_mask" = Some mask ->
  (forall weights train g, exists x,
     (bert_forward weights train ids mask g).1 = Ok x /\ shape x rows 768) ->
  bad !! "threat_labels" = None -> (1 <= num_epochs)%Z ->
  exists w' css m',
    train_model model (pre ++ bad :: post) num_epochs w
      = (Raise (KeyError "threat_labels"), w') /\
    Forall2 (batch_calls model (optimizer_loc w)) pre css /\
    calls w' = (calls w ++ CallTrain model :: concat css ++
                  [CallZeroGrad (optimizer_loc w); CallForward model ids mask])%list /\
    heap w' !! model = Some (ObjModel m') /\ grad m' = None.
Proof.
  intros Hm Hwf Hg Hpre Hids Hmask Henc Hbad Hn.
  set (o := optimizer_loc w).
  pose proof (after_AdamW_trainable model w m Hm Hwf Hg) as Ht0. fold o in Ht0.
  destruct (Module_train_run model o _ Ht0) as (w1 & Hrun1 & Ht1 & Hc1).
  destruct (train_model_batches_run model o pre w1 Ht1 Hpre)
    as (w2 & css & Hrun2 & Ht2 & Hc2 & Hcss & _).
  destruct (train_model_batch_unlabelled model o bad w2 ids mask rows
              Ht2 Hids Hmask Henc Hbad)
    as (w3 & m' & Hrun3 & Hc3 & Hm3 & Hg3).
  assert (Hepoch : train_model_epoch model o (pre ++ bad :: post) (after_AdamW model w)
                   = (Raise (KeyError "threat_labels"), w3)).
  { unfold train_model_epoch. erewrite bind_Ok by exact Hrun1.
    rewrite (for_app_Ok pre (bad :: post) _ w1 w2 Hrun2).
    rewrite for_raises_first by (rewrite Hrun3; now eexists). exact Hrun3. }
  exists w3, css, m'. split; [| split; [exact Hcss | split; [| now split]]].
  - rewrite train_model_unfold.
    erewrite bind_Ok by exact (AdamW_run model w m Hm). fold o.
    assert (Hrange : exists rest, range num_epochs = 0%nat :: rest).
    { unfold range. destruct (Z.to_nat num_epochs) as [|j] eqn:E; [lia |].
      now exists (seq 1 j). }
    destruct Hrange as [rest ->].
    rewrite for_raises_first by (rewrite Hepoch; now eexists). exact Hepoch.
  - rewrite Hc3, Hc2, Hc1. unfold after_AdamW. cbn [calls set_heap].
    rewrite <- !app_assoc. reflexivity.
Qed.

End TrainingUnlabelled.

(** ** The training properties at a concrete process *)

Section TrainingStandIn.
Local Open Scope R_scope.

(** One labelled row for the stand-in encoder. *)
Definition stub_batch : gmap string ITensor :=
  <["threat_labels" := I1 [1%Z]]> (<["severity_labels" := I1 [2%Z]]> stub_inputs).

Lemma stub_encoder_accepts (weights : list R) (train : bool) (g : Generator) :
  exists x,
    (@bert_forward stub_external weights train (I2 [[101; 102]%Z]) (I2 [[1; 1]%Z]) g).1
      = Ok x /\ shape x 1 768.
Proof.
  exists [replicate 768 0]. split; [reflexivity |].
  split; [reflexivity |]. constructor; [apply length_replicate | constructor].
Qed.

Lemma stub_inputs_lookup :
  stub_inputs !! "input_ids" = Some (I2 [[101; 102]%Z]) /\
  stub_inputs !! "attention_mask" = Some (I2 [[1; 1]%Z]) /\
  stub_inputs !! "threat_labels" = None.
Proof.
  unfold stub_inputs. split; [apply lookup_insert_eq |]. split.
  - rewrite lookup_insert_ne by discriminate. apply lookup_insert_eq.
  - rewrite !lookup_insert_ne by discriminate. apply lookup_empty.
Qed.

Lemma stub_batch_wf : @wf_batch stub_external stub_batch.
Proof.
  destruct stub_inputs_lookup as (Hids & Hmask & _).
  exists (I2 [[101; 102]%Z]), (I2 [[1; 1]%Z]), [1%Z], [2%Z]. unfold stub_batch.
  split; [now rewrite !lookup_insert_ne by discriminate |].
  split; [now rewrite !lookup_insert_ne by discriminate |].
  split; [apply lookup_insert_eq |].
  split; [rewrite lookup_insert_ne by discriminate; apply lookup_insert_eq |].
  split; [discriminate |]. split; [reflexivity |].
  split; [constructor; [unfold valid_label; lia | constructor] |].
  split; [constructor; [unfold valid_label; lia | constructor] |].
  exact stub_encoder_accepts.
Qed.

Lemma prescribed_world_model (g : Generator) (i j : nat) :
  heap (prescribed_world g i j) !! 1%positive = Some (ObjModel (prescribed_model [] i j)).
Proof.
  unfold prescribed_world. cbn [heap].
  rewrite lookup_insert_ne by discriminate. apply lookup_insert_eq.
Qed.

End TrainingStandIn.

Lemma train_model_follows_schedule_witness :
  Forall (@wf_batch stub_external) [stub_batch] /\
  exists w' ess,
    @train_model stub_external 1%positive [stub_batch] 2
                 (prescribed_world scenario_generator 1 0) = (Ok tt, w') /\
    calls w' = concat ess /\ length ess = 2%nat.
Proof.
  assert (Hall : Forall (@wf_batch stub_external) [stub_batch])
    by (constructor; [exact stub_batch_wf | constructor]).
  split; [exact Hall |].
  destruct (@train_model_follows_schedule stub_external stub_external_spec
              1%positive [stub_batch] 2 (prescribed_world scenario_generator 1 0)
              (prescribed_model [] 1 0) (prescribed_world_model _ 1 0)
              (prescribed_model_wf [] 1 0) eq_refl Hall)
    as (w' & ess & Hrun & _ & _ & Hc & Hlen & _).
  exists w', ess. split; [exact Hrun |]. split; [exact Hc | exact Hlen].
Defined.

Lemma train_model_loss_nonnegative_witness :
  Forall (@wf_batch stub_external) [stub_batch] /\
  exists w' new,
    @train_model stub_external 1%positive [stub_batch] 1
                 (prescribed_world scenario_generator 1 0) = (Ok tt, w') /\
    calls w' = new /\ forall g v, CallBackward g v ∈ new -> (0 <= v)%R.
Proof.
  assert (Hall : Forall (@wf_batch stub_external) [stub_batch])
    by (constructor; [exact stub_batch_wf | constructor]).
  split; [exact Hall |].
  destruct (@train_model_loss_nonnegative stub_external stub_external_spec
              1%positive [stub_batch] 1 (prescribed_world scenario_generator 1 0)
              (prescribed_model [] 1 0) (prescribed_world_model _ 1 0)
              (prescribed_model_wf [] 1 0) eq_refl Hall)
    as (w' & new & Hrun & Hc & Hpos).
  exists w', new. split; [exact Hrun |]. split; [exact Hc | exact Hpos].
Defined.

Lemma forward_after_training_witness :
  wf_predictor (prescribed_world scenario_generator 1 0) 2%positive
               prescribed_predictor (prescribed_model [] 1 0) /\
  exists w' tl sl w'',
    @train_model stub_external 1%positive [stub_batch] 1
                 (prescribed_world scenario_generator 1 0) = (Ok tt, w') /\
    @AISecurityModel_call stub_external 1%positive (I2 [[101; 102]%Z]) (I2 [[1; 1]%Z]) w'
      = (Ok (tl, sl), w'') /\
    shape (data tl) 1 4 /\ shape (data sl) 1 4.
Proof.
  split; [apply prescribed_world_wf |].
  destruct (@forward_after_training stub_external stub_external_spec
              2%positive prescribed_predictor (prescribed_model [] 1 0) [stub_batch] 1
              (prescribed_world scenario_generator 1 0)
              (prescribed_world_wf scenario_generator 1 0) eq_refl
              (Forall_cons_2 _ _ _ stub_batch_wf (Forall_nil_2 _)))
    as (w' & m' & Hrun & _ & Hcall).
  destruct (Hcall (I2 [[101; 102]%Z]) (I2 [[1; 1]%Z]) 1%nat stub_encoder_accepts)
    as (tl & sl & w'' & Hc & Htl & Hsl).
  exists w', tl, sl, w''. split; [exact Hrun |]. split; [exact Hc |].
  split; [exact Htl | exact Hsl].
Defined.

Lemma train_model_leaves_training_mode_witness :
  (1 <= 3)%Z /\
  exists m',
    heap (@train_model stub_external 1%positive [stub_inputs] 3
            (prescribed_world scenario_generator 1 0)).2 !! 1%positive
      = Some (ObjModel m') /\
    training m' = true /\ bert_training m' = true.
Proof.
  assert (Hn : (1 <= 3)%Z) by discriminate.
  split; [exact Hn |].
  exact (@train_model_leaves_training_mode stub_external 1%positive [stub_inputs] 3
           (prescribed_world scenario_generator 1 0) (prescribed_model [] 1 0)
           (prescribed_world_model _ 1 0) Hn).
Defined.

Lemma train_model_stops_at_missing_key_witness :
  stub_inputs !! "threat_labels" = None /\
  is_Raise (@train_model stub_external 1%positive ([stub_batch] ++ stub_inputs :: [stub_batch])
              5 (prescribed_world scenario_generator 1 0)).1.
Proof.
  destruct stub_inputs_lookup as (_ & _ & Hbad).
  split; [exact Hbad |].
  refine (proj1 (@train_model_stops_at_missing_key stub_external 1%positive
                   [stub_batch] [stub_batch] stub_inputs "threat_labels" 5
                   (prescribed_world scenario_generator 1 0) _ Hbad _)).
  - do 2 apply list_elem_of_further. apply list_elem_of_here.
  - discriminate.
Defined.

Lemma train_model_empty_loader_witness :
  exists w' m',
    @train_model stub_external 1%positive [] 2
                 (prescribed_world scenario_generator 1 0) = (Ok tt, w') /\
    calls w' = [CallTrain 1%positive; CallTrain 1%positive] /\
    heap w' !! 1%positive = Some (ObjModel m') /\
    params m' = params (prescribed_model [] 1 0).
Proof.
  destruct (@train_model_empty_loader stub_external 1%positive 2
              (prescribed_world scenario_generator 1 0) (prescribed_model [] 1 0)
              (prescribed_world_model _ 1 0))
    as (w' & m' & Hrun & Hc & Hm' & Hp & _).
  exists w', m'. split; [exact Hrun |]. split; [exact Hc |]. split; [exact Hm' | exact Hp].
Defined.

Lemma train_model_no_epochs_witness :
  (-1 <= 0)%Z /\
  exists w',
    @train_model stub_external 1%positive [stub_batch] (-1)
                 (prescribed_world scenario_generator 1 0) = (Ok tt, w') /\
    calls w' = [].
Proof.
  assert (Hn : (-1 <= 0)%Z) by discriminate.
  split; [exact Hn |].
  destruct (@train_model_no_epochs stub_external 1%positive [stub_batch] (-1)
              (prescribed_world scenario_generator 1 0) (prescribed_model [] 1 0)
              (prescribed_world_model _ 1 0) Hn)
    as (w' & Hrun & Hc & _).
  exists w'. split; [exact Hrun | exact Hc].
Defined.

Lemma train_model_unlabelled_batch_witness :
  stub_inputs !! "threat_labels" = None /\
  exists w',
    @train_model stub_external 1%positive ([stub_batch] ++ stub_inputs :: [stub_batch]) 5
                 (prescribed_world scenario_generator 1 0)
      = (Raise (KeyError "threat_labels"), w').
Proof.
  destruct stub_inputs_lookup as (Hids & Hmask & Hbad).
  split; [exact Hbad |].
  assert (Hn : (1 <= 5)%Z) by discriminate.
  destruct (@train_model_unlabelled_batch stub_external stub_external_spec
              1%positive [stub_batch] [stub_batch] stub_inputs 5
              (prescribed_world scenario_generator 1 0) (prescribed_model [] 1 0)
              (I2 [[101; 102]%Z]) (I2 [[1; 1]%Z]) 1
              (prescribed_world_model _ 1 0) (prescribed_model_wf [] 1 0) eq_refl
              (Forall_cons_2 _ _ _ stub_batch_wf (Forall_nil_2 _))
              Hids Hmask stub_encoder_accepts Hbad Hn)
    as (w' & css & m' & Hrun & _).
  exists w'. exact Hrun.
Defined.

(** * More on [predict] and [forward] *)

(** ** The model called with keyword arguments *)

Section PredictMore.
Context `{!External}.
Local Open Scope R_scope.

Lemma kwargs_exact (inputs : gmap string ITensor) (ids mask : ITensor) :
  dom inputs ⊆ ({["input_ids"; "attention_mask"]} : gset string) ->
  inputs !! "input_ids" = Some ids -> inputs !! "attention_mask" = Some mask ->
  dom inputs = ({["input_ids"; "attention_mask"]} : gset string).
Proof.
  intros Hsub Hids Hmask. apply (anti_symm (⊆)); [exact Hsub |].
  intros k Hk. apply elem_of_dom.
  apply elem_of_union in Hk as [Hk | Hk]; apply elem_of_singleton in Hk as ->; eauto.
Qed.

(** X10. The model is called with the tokenizer's output unpacked into
    keyword arguments, and [forward] takes [input_ids] and [attention_mask]
    only.  So whenever the tokenizer's output has any other set of keys (a
    further key such as [token_type_ids], or one of the two missing),
    [predict] raises [TypeError]; the encoder is not run, nothing is drawn
    from the generator and no call reaches the model. *)
Theorem predict_rejects_other_keys (self : loc) (text : string) (w : World)
    (p : SecurityPredictor) :
  heap w !! self = Some (ObjPredictor p) ->
  dom (tokenizer_call (tokenizer p) text)
    <> ({["input_ids"; "attention_mask"]} : gset string) ->
  exists what,
    (predict self text w).1 = Raise (TypeError what) /\
    calls (predict self text w).2 = calls w /\
    generator (predict self text w).2 = generator w.
Proof.
  intros Hself Hdom.
  assert (Hcall : exists what,
            AISecurityModel_call_kwargs (model p) (tokenizer_call (tokenizer p) text)
              (set_grad_mode false w) = (Raise (TypeError what), set_grad_mode false w)).
  { unfold AISecurityModel_call_kwargs.
    destruct (decide _) as [Hsub |]; [| now eexists].
    destruct (tokenizer_call (tokenizer p) text !! "input_ids") as [ids|] eqn:Hids;
      [| now eexists].
    destruct (tokenizer_call (tokenizer p) text !! "attention_mask") as [mask|] eqn:Hmask;
      [| now eexists].
    destruct Hdom. exact (kwargs_exact _ ids mask Hsub Hids Hmask). }
  destruct Hcall as [what Hcall]. exists what.
  rewrite (predict_propagates self text w _ p _ Hself Hcall).
  repeat split.
Qed.

End PredictMore.

(** ** Dropout in the forward pass *)

Section DropoutDraws.
Local Open Scope R_scope.

(** Dropout draws one sample per entry. *)
Lemma dropout_rows_generator (p : R) (t : Tensor) (g : Generator) (n k : nat) :
  shape t n k ->
  samples (dropout_rows p t g).2 = samples g /\
  consumed (dropout_rows p t g).2 = (consumed g + n * k)%nat.
Proof.
  intros [Hlen Hall]. subst n. revert g.
  induction Hall as [|row t Hrow Hall IH]; intros g.
  - cbn [dropout_rows length snd]. split; [reflexivity | lia].
  - cbn [dropout_rows draw].
    specialize (IH {| samples := samples g;
                      consumed := (consumed g + length row)%nat |}).
    destruct (dropout_rows p t _) as [rest g2]. cbn [snd samples consumed] in *.
    destruct IH as [IH1 IH2]. split; [exact IH1 |].
    rewrite IH2, Hrow. cbn [length]. lia.
Qed.

End DropoutDraws.

Section ForwardDropout.
Context `{!External}.
Local Open Scope R_scope.

(** X13. Dropout is drawn whenever the head is in training mode, the
    mode the constructor leaves it in and the mode [model.train()] sets; no
    step of the program ever puts it in evaluation mode.  On a model of the
    declared architecture, a call of the model on inputs that the encoder
    maps to [n] pooled vectors returns, and after the encoder has run it
    draws one sample for each of the 256 features of every row: with the
    head in training mode the generator the encoder left behind is advanced
    by [n * 256] samples, with the head in evaluation mode by none. *)
Theorem forward_draws_dropout_mask (model : loc) (input_ids attention_mask : ITensor)
    (w : World) (m : AISecurityModel) (x : Tensor) (g1 : Generator) (n : nat) :
  heap w !! model = Some (ObjModel m) -> wf_params (params m) ->
  bert_forward (bert (params m)) (bert_training m) input_ids attention_mask
               (generator w) = (Ok x, g1) ->
  shape x n 768 ->
  exists threat_logits severity_logits w',
    AISecurityModel_call model input_ids attention_mask w
      = (Ok (threat_logits, severity_logits), w') /\
    samples (generator w') = samples g1 /\
    consumed (generator w') =
      (if training m then consumed g1 + n * 256 else consumed g1)%nat.
Proof.
  intros Hm Hwf Hbert Hx.
  pose proof Hwf as (l0 & l3 & Hcls & Hl0 & Hi0 & Ho0 & _).
  set (w1 := add_call (CallForward model input_ids attention_mask) w).
  destruct (forward_run model input_ids attention_mask w1 m l0 l3 x g1 n
              Hm Hcls Hwf Hbert Hx) as (Hfwd & _).
  cbv zeta in Hfwd.
  eexists _, _, _. split.
  - unfold AISecurityModel_call. erewrite bind_Ok by reflexivity. exact Hfwd.
  - cbn [generator set_generator]. unfold head_features, Dropout_call.
    destruct (training m); cbn [snd]; [| now split].
    apply dropout_rows_generator, relu_shape.
    assert (Hx' : shape x n (in_features l0)) by now rewrite Hi0.
    destruct (Linear_call_shape l0 x n Hl0 Hx') as [_ Hs0]. now rewrite Ho0 in Hs0.
Qed.

End ForwardDropout.

(** ** The forward pass in evaluation mode *)

(** The logits of a model call, without their [grad_fn]. *)
Definition logits (r : Result (Var Tensor * Var Tensor)) : Result (Tensor * Tensor) :=
  match r with
  | Ok (threat_logits, severity_logits) => Ok (data threat_logits, data severity_logits)
  | Raise e => Raise e
  end.

(** [steady m]: the result of [m] does not depend on the state it is run
    in, and [m] leaves the generator where it was. *)
Definition steady {A} (m : M A) : Prop :=
  (forall w w', (m w).1 = (m w').1) /\ (forall w, generator (m w).2 = generator w).

Section EvalMode.
Context `{!External} `{!ExternalSpec}.
Local Open Scope R_scope.

(** What [forward] computes once the model object has been read. *)
Definition forward_logits (m : AISecurityModel) (input_ids attention_mask : ITensor)
    : M (Tensor * Tensor) :=
  pooled_output ← BertModel_call (bert (params m)) (bert_training m)
                                 input_ids attention_mask;
  features ← Sequential_call (training m) (removelast (classifier (params m)))
                             pooled_output;
  head ← last_getitem (classifier (params m));
  threat_logits ← Layer_call (training m) head features;
  severity_logits ← lift (Linear_call (severity_classifier (params m)) features);
  ret (threat_logits, severity_logits).

Lemma forward_as_logits (self : loc) (ids mask : ITensor) (w : World)
    (m : AISecurityModel) :
  heap w !! self = Some (ObjModel m) ->
  logits (forward self ids mask w).1 = (forward_logits m ids mask w).1 /\
  (forward self ids mask w).2 = (forward_logits m ids mask w).2.
Proof.
  intros Hm. unfold forward, forward_logits.
  erewrite bind_Ok by reflexivity.
  erewrite bind_Ok by (unfold get_model; now rewrite Hm).
  unfold mbind, M_bind, bind.
  destruct (BertModel_call _ _ ids mask w) as [[x|e] w1]; [| now split].
  destruct (Sequential_call _ _ x w1) as [[f|e] w2]; [| now split].
  destruct (last_getitem _ w2) as [[h|e] w3]; [| now split].
  destruct (Layer_call _ h f w3) as [[tl|e] w4]; [| now split].
  destruct (lift _ w4) as [[sl|e] w5]; now split.
Qed.

Lemma steady_ret {A} (a : A) : steady (ret a).
Proof. now split. Qed.

Lemma steady_raise {A} (e : exn) : steady (raise e : M A).
Proof. now split. Qed.

Lemma steady_lift {A} (r : Result A) : steady (lift r).
Proof. now split. Qed.

Lemma steady_bind {A B} (m : M A) (k : A -> M B) :
  steady m -> (forall a, steady (k a)) -> steady (m ≫= k).
Proof.
  intros [Hr Hg] Hk. unfold mbind, M_bind, bind. split.
  - intros w w'. specialize (Hr w w').
    destruct (m w) as [[a|e] w1], (m w') as [[a'|e'] w1']; cbn [fst] in Hr;
      try discriminate.
    + injection Hr as ->. apply (Hk a').
    + now injection Hr as ->.
  - intros w. specialize (Hg w).
    destruct (m w) as [[a|e] w1]; cbn [snd] in *; [| exact Hg].
    destruct (Hk a) as [_ Hg']. now rewrite Hg'.
Qed.

Lemma steady_last_getitem {A} (xs : list A) : steady (last_getitem xs).
Proof. unfold last_getitem. destruct (last xs); [apply steady_ret | apply steady_raise]. Qed.

(** The encoder in evaluation mode. *)
Lemma steady_BertModel_call (weights : list R) (ids mask : ITensor) :
  steady (BertModel_call weights false ids mask).
Proof.
  unfold BertModel_call. split.
  - intros w w'.
    destruct (encoder_eval weights ids mask (generator w) (generator w')) as [_ Hsame].
    destruct (bert_forward weights false ids mask (generator w)) as [r g].
    destruct (bert_forward weights false ids mask (generator w')) as [r' g'].
    exact Hsame.
  - intros w.
    destruct (encoder_eval weights ids mask (generator w) (generator w)) as [Hg _].
    destruct (bert_forward weights false ids mask (generator w)) as [r g].
    exact Hg.
Qed.

(** A layer in evaluation mode: dropout is the identity. *)
Lemma steady_Layer_call (l : Layer) (x : Tensor) : steady (Layer_call false l x).
Proof.
  destruct l; cbn [Layer_call]; [apply steady_lift | apply steady_ret |].
  split; intros; reflexivity.
Qed.

Lemma steady_Sequential_call (layers : list Layer) (x : Tensor) :
  steady (Sequential_call false layers x).
Proof.
  revert x. induction layers as [|l layers IH]; intros x; cbn [Sequential_call].
  - apply steady_ret.
  - apply steady_bind; [apply steady_Layer_call | intros y; apply IH].
Qed.

Lemma steady_forward_logits (m : AISecurityModel) (ids mask : ITensor) :
  training m = false -> bert_training m = false ->
  steady (forward_logits m ids mask).
Proof.
  intros Ht Hb. unfold forward_logits. rewrite Ht, Hb.
  apply steady_bind; [apply steady_BertModel_call | intros x].
  apply steady_bind; [apply steady_Sequential_call | intros f].
  apply steady_bind; [apply steady_last_getitem | intros h].
  apply steady_bind; [apply steady_Layer_call | intros tl].
  apply steady_bind; [apply steady_lift | intros sl].
  apply steady_ret.
Qed.

(** X14. In evaluation mode the model is a function of its parameters
    and its inputs.  Were the model switched to evaluation mode (the
    program never does it), a call of the model would leave the generator
    where it is and, whatever the state it is called in, return the same
    logits or raise the same exception; the generator has no influence on
    them. *)
Theorem forward_eval_mode_deterministic (model : loc)
    (input_ids attention_mask : ITensor) (w w' : World) (m : AISecurityModel) :
  heap w !! model = Some (ObjModel m) -> heap w' !! model = Some (ObjModel m) ->
  training m = false -> bert_training m = false ->
  logits (AISecurityModel_call model input_ids attention_mask w').1 =
    logits (AISecurityModel_call model input_ids attention_mask w).1 /\
  generator (AISecurityModel_call model input_ids attention_mask w).2 = generator w.
Proof.
  intros Hm Hm' Ht Hb.
  destruct (steady_forward_logits m input_ids attention_mask Ht Hb) as [Hr Hg].
  unfold AISecurityModel_call.
  erewrite !bind_Ok by reflexivity.
  set (c := CallForward model input_ids attention_mask).
  destruct (forward_as_logits model input_ids attention_mask (add_call c w) m Hm)
    as [H1 H2].
  destruct (forward_as_logits model input_ids attention_mask (add_call c w') m Hm')
    as [H1' _].
  rewrite H1, H1', H2. split; [apply Hr | now rewrite Hg].
Qed.

End EvalMode.

(** ** Two calls in a row can disagree *)

Section DropoutSensitive.
Local Open Scope R_scope.

(** A model of the declared architecture, in the modes the program builds
    it in, whose 256 features all equal one before dropout and whose
    data_poisoning logit is their sum, against a normal logit of one. *)
Definition dropout_sensitive_model : AISecurityModel :=
  {| params :=
       {| bert := [];
          classifier := [LLinear (const_linear 768 256 0 1); LReLU; LDropout 0.3;
                         LLinear (affine_head [0; 1; 0; 0] [1; 0; 0; 0])];
          severity_classifier := affine_head [0; 0; 0; 0] (onehot 0) |};
     grad := None; bert_training := false; training := true |}.

Definition dropout_sensitive_world (g : Generator) (cs : list Call) : World :=
  {| heap := <[2%positive := ObjPredictor prescribed_predictor]>
             (<[1%positive := ObjModel dropout_sensitive_model]> ∅);
     generator := g; hub := ∅; grad_mode := true; calls := cs |}.

(** A stream whose first 256 samples keep a feature and whose later
    samples drop it. *)
Definition keep_then_drop : Generator :=
  {| samples := fun n => if (n <? 256)%nat then 0 else 9 / 10; consumed := 0 |}.

Lemma dropout_sensitive_model_wf : wf_params (params dropout_sensitive_model).
Proof.
  eexists _, _. cbn [params dropout_sensitive_model classifier severity_classifier].
  split; [reflexivity |].
  split; [apply const_linear_shape |]. split; [reflexivity |]. split; [reflexivity |].
  split; [now apply affine_head_shape |]. split; [reflexivity |]. split; [reflexivity |].
  split; [now apply affine_head_shape |]. split; reflexivity.
Qed.

Lemma dropout_sensitive_world_wf (g : Generator) (cs : list Call) :
  wf_predictor (dropout_sensitive_world g cs) 2%positive prescribed_predictor
               dropout_sensitive_model.
Proof.
  unfold wf_predictor, dropout_sensitive_world. cbn [heap model prescribed_predictor].
  rewrite lookup_insert_eq, lookup_insert_ne, lookup_insert_eq by discriminate.
  repeat (split; [reflexivity |]). split; [apply dropout_sensitive_model_wf |].
  split; reflexivity.
Qed.

Lemma map_replicate {A B} (f : A -> B) (n : nat) (x : A) :
  map f (replicate n x) = replicate n (f x).
Proof. induction n as [|n IH]; [reflexivity | cbn [replicate map]; now rewrite IH]. Qed.

Lemma map_seq_const {A} (f : nat -> A) (u : A) (c n : nat) :
  (forall k, (c <= k < c + n)%nat -> f k = u) ->
  map f (seq c n) = replicate n u.
Proof.
  revert c. induction n as [|n IH]; intros c Hf; [reflexivity |].
  cbn [seq map replicate]. rewrite (Hf c) by lia. f_equal.
  apply IH. intros k Hk. apply Hf. lia.
Qed.

(** With zero weights a layer returns its bias. *)
Lemma const_linear_row_zero (n_in n_out : nat) (b : R) (x : list R) :
  linear_row (const_linear n_in n_out 0 b) x = replicate n_out b.
Proof.
  unfold linear_row, const_linear. cbn [weight bias].
  rewrite zip_with_replicate, dot_replicate_zero. f_equal. lra.
Qed.

(** The features after dropout when all 256 samples equal [u]. *)
Lemma dropout_sensitive_features (row : list R) (g : Generator) (u : R) :
  (forall k, (consumed g <= k < consumed g + 256)%nat -> samples g k = u) ->
  head_features (const_linear 768 256 0 1) true [row] g =
    ([replicate 256 (dropout_entry 0.3 u 1)],
     {| samples := samples g; consumed := consumed g + 256 |}).
Proof.
  intros Hu. unfold head_features, Dropout_call.
  cbn [map relu]. rewrite const_linear_row_zero, map_replicate.
  replace (Rmax 0 1) with 1 by (symmetry; apply Rmax_right; lra).
  cbn [dropout_rows draw]. rewrite length_replicate.
  rewrite (map_seq_const _ u) by exact Hu.
  now rewrite zip_with_replicate.
Qed.

(** The threat logits on 256 equal features. *)
Lemma dropout_sensitive_logits (v : R) :
  linear_row (affine_head [0; 1; 0; 0] [1; 0; 0; 0]) (replicate 256 v) =
    [INR 256 * (0 * v) + 1; INR 256 * (1 * v) + 0;
     INR 256 * (0 * v) + 0; INR 256 * (0 * v) + 0].
Proof.
  unfold linear_row, affine_head. cbn [weight bias map zip_with].
  now rewrite !dot_replicate.
Qed.

Lemma dropout_sensitive_argmax (u : R) :
  argmax [softmax_row
            (linear_row (affine_head [0; 1; 0; 0] [1; 0; 0; 0])
                        (replicate 256 (dropout_entry 0.3 u 1)))]
    = Ok (if Rlt_dec u (1 - 0.3) then 1%nat else 0%nat).
Proof.
  rewrite argmax_softmax_row, dropout_sensitive_logits.
  assert (HN : 1 <= INR 256) by (apply (le_INR 1 256); lia).
  unfold argmax, dropout_entry. cbn [concat app argmax_from].
  generalize dependent (INR 256). intros N HN.
  destruct (Rlt_dec u (1 - 0.3)); cbv beta iota;
    repeat match goal with
           | |- context [Rlt_dec ?a ?b] =>
               destruct (Rlt_dec a b); try (exfalso; lra); cbv beta iota
           end; reflexivity.
Qed.

End DropoutSensitive.

Section CallTwice.
Context `{!External} `{!ExternalSpec}.
Local Open Scope R_scope.

Lemma dropout_sensitive_world_model (g : Generator) (cs : list Call) :
  heap (dropout_sensitive_world g cs) !! 1%positive = Some (ObjModel dropout_sensitive_model).
Proof.
  unfold dropout_sensitive_world. cbn [heap].
  rewrite lookup_insert_ne by discriminate. apply lookup_insert_eq.
Qed.

(** One call of the dropout-sensitive model on the token ids and the mask
    of a text, decoded as [predict] decodes, when the next 256 samples all
    equal [u]. *)
Lemma dropout_sensitive_call (g : Generator) (cs : list Call) (u : R)
    (text : string) (ids mask : ITensor) :
  tokenizer_call (tokenizer prescribed_predictor) text !! "input_ids" = Some ids ->
  tokenizer_call (tokenizer prescribed_predictor) text !! "attention_mask" = Some mask ->
  (forall k, (consumed g <= k < consumed g + 256)%nat -> samples g k = u) ->
  exists tlv slv pred,
    AISecurityModel_call 1%positive ids mask (dropout_sensitive_world g cs) =
      (Ok (tlv, slv),
       dropout_sensitive_world {| samples := samples g; consumed := consumed g + 256 |}
                               (cs ++ [CallForward 1%positive ids mask])) /\
    (forall w0, decode prescribed_predictor (softmax (data tlv)) (softmax (data slv)) w0
                = (Ok pred, w0)) /\
    pred !! "threat_type" =
      Some (VStr (if Rlt_dec u (1 - 0.3) then "data_poisoning" else "normal")).
Proof.
  intros Hids Hmask Hu.
  destruct (AISecurityModel_call_single (dropout_sensitive_world g cs) 1%positive
              dropout_sensitive_model (tokenizer prescribed_predictor) text
              (dropout_sensitive_world_model g cs) dropout_sensitive_model_wf)
    as (ids' & mask' & row & g1 & l0 & l3 & f & g2 & tlv & slv & Hids' & Hmask' & Hcls &
        _ & _ & Henc & Hfeat & Hcall & Htl & Hsl & _ & _).
  rewrite Hids in Hids'. injection Hids' as <-.
  rewrite Hmask in Hmask'. injection Hmask' as <-.
  cbn [params dropout_sensitive_model classifier severity_classifier
       bert bert_training training] in Hcls, Henc, Hfeat, Htl, Hsl.
  injection Hcls as <- <-.
  destruct (encoder_eval [] ids mask g g) as [Hg _].
  cbn [generator dropout_sensitive_world] in Henc. rewrite Henc in Hg.
  cbn [snd] in Hg. subst g1.
  rewrite (dropout_sensitive_features row g u Hu) in Hfeat.
  pose proof (f_equal fst Hfeat) as Hf. pose proof (f_equal snd Hfeat) as Hg2.
  cbn [fst snd] in Hf, Hg2. apply (f_equal (hd [])) in Hf. cbn [hd] in Hf.
  subst f g2. clear Hfeat.
  rewrite linear_row_bias_only in Hsl by apply onehot_length.
  set (i := if Rlt_dec u (1 - 0.3) then 1%nat else 0%nat).
  set (t := if Rlt_dec u (1 - 0.3) then "data_poisoning" else "normal").
  assert (Ht : attack_names !! i = Some t)
    by (subst i t; now destruct (Rlt_dec u (1 - 0.3))).
  destruct (Torch.max [softmax_row
                         (linear_row (affine_head [0; 1; 0; 0] [1; 0; 0; 0])
                            (replicate 256 (dropout_entry 0.3 u 1)))])
    as [c|e] eqn:Hc; cycle 1.
  { unfold Torch.max in Hc. cbn [concat] in Hc. rewrite app_nil_r in Hc.
    pose proof (softmax_row_length
                  (linear_row (affine_head [0; 1; 0; 0] [1; 0; 0; 0])
                     (replicate 256 (dropout_entry 0.3 u 1)))) as Hlen.
    rewrite dropout_sensitive_logits in Hlen, Hc.
    destruct (softmax_row _); discriminate. }
  destruct (prediction_dict_lookup t "low" c) as (_ & H1 & _).
  eexists tlv, slv, _. split; [exact Hcall |]. split; [| exact H1].
  intros w0. rewrite Htl, Hsl. cbn [softmax map]. unfold decode.
  erewrite bind_Ok by (unfold lift; now rewrite (dropout_sensitive_argmax u)).
  erewrite bind_Ok
    by (unfold list_getitem; cbn [attack_types prescribed_predictor];
        fold i; rewrite Ht; reflexivity).
  erewrite bind_Ok
    by (unfold lift; now rewrite (argmax_softmax_onehot 0) by lia).
  erewrite bind_Ok by reflexivity.
  erewrite bind_Ok by (unfold lift; now rewrite Hc).
  reflexivity.
Qed.

(** C4. Dropout is not disabled at inference.  The constructor leaves the
    head of the model in training mode, and [predict], which raises on
    every text (the defect of C1), changes nothing: no step of the program
    puts the model in evaluation mode.  The model therefore draws a dropout
    mask at every call.  There are parameters of the declared architecture,
    in the modes the constructor sets, and a state of the random generator,
    such that two calls of the model in a row, on the token ids and the
    attention mask of one and the same text and with no other step in
    between, decode to two different threat types: data_poisoning first,
    normal second. *)
Theorem dropout_active_at_inference (text : string) :
  (forall w c, hub w !! "bert-base-uncased" = Some c ->
     exists lp lm m w',
       SecurityPredictor_init w = (Ok lp, w') /\
       heap w' !! lp = Some (ObjPredictor (fresh_predictor c lm)) /\
       heap w' !! lm = Some (ObjModel m) /\
       training m = true /\
       predict lp text w' =
         (Raise (TypeError "forward() got an unexpected keyword argument"), w')) /\
  (exists w self p m ids mask tl1 sl1 w1 tl2 sl2 w2 pred1 pred2,
     wf_predictor w self p m /\ training m = true /\ bert_training m = false /\
     tokenizer_call (tokenizer p) text !! "input_ids" = Some ids /\
     tokenizer_call (tokenizer p) text !! "attention_mask" = Some mask /\
     AISecurityModel_call (model p) ids mask w = (Ok (tl1, sl1), w1) /\
     AISecurityModel_call (model p) ids mask w1 = (Ok (tl2, sl2), w2) /\
     heap w1 = heap w /\
     decode p (softmax (data tl1)) (softmax (data sl1)) w1 = (Ok pred1, w1) /\
     decode p (softmax (data tl2)) (softmax (data sl2)) w2 = (Ok pred2, w2) /\
     pred1 !! "threat_type" = Some (VStr "data_poisoning") /\
     pred2 !! "threat_type" = Some (VStr "normal")).
Proof.
  split.
  - intros w c Hc.
    destruct (after_init_wf w c) as (Hself & Hmodel & _).
    destruct (fresh_model_fields c (generator w)) as (_ & _ & _ & Ht & _).
    exists (predictor_loc w c), (model_loc w), (fresh_model c (generator w)).1,
      (after_init w c).
    split; [exact (SecurityPredictor_init_run w c Hc) |].
    split; [exact Hself |]. split; [exact Hmodel |]. split; [exact Ht |].
    exact (predict_raises _ _ _ text Hself).
  - destruct (tokenizer_lookup (tokenizer prescribed_predictor) text)
      as (ids & mask & Hids & Hmask).
    destruct (dropout_sensitive_call keep_then_drop [] 0 text ids mask Hids Hmask)
      as (tl1 & sl1 & pred1 & Hrun1 & Hdec1 & Ht1).
    { intros k Hk. cbn [samples consumed keep_then_drop] in *.
      replace (k <? 256)%nat with true by (symmetry; apply Nat.ltb_lt; lia).
      reflexivity. }
    destruct (dropout_sensitive_call
                {| samples := samples keep_then_drop;
                   consumed := consumed keep_then_drop + 256 |}
                ([] ++ [CallForward 1%positive ids mask]) (9 / 10) text ids mask
                Hids Hmask)
      as (tl2 & sl2 & pred2 & Hrun2 & Hdec2 & Ht2).
    { intros k Hk. cbn [samples consumed keep_then_drop] in *.
      replace (k <? 256)%nat with false by (symmetry; apply Nat.ltb_ge; lia).
      reflexivity. }
    destruct (Rlt_dec 0 (1 - 0.3)) as [_ | Hn]; [| exfalso; apply Hn; lra].
    destruct (Rlt_dec (9 / 10) (1 - 0.3)) as [Hn | _]; [exfalso; lra |].
    eexists _, 2%positive, prescribed_predictor, dropout_sensitive_model,
      ids, mask, tl1, sl1, _, tl2, sl2, _, pred1, pred2.
    split; [apply (dropout_sensitive_world_wf keep_then_drop []) |].
    split; [reflexivity |]. split; [reflexivity |].
    split; [exact Hids |]. split; [exact Hmask |].
    split; [exact Hrun1 |]. split; [exact Hrun2 |].
    split; [reflexivity |].
    split; [apply Hdec1 |]. split; [apply Hdec2 |]. split; assumption.
Qed.

End CallTwice.

(** ** The forward pass on a batch *)

Section ForwardBatch.
Context `{!External}.
Local Open Scope R_scope.

(** X16. The layer sizes fit.  On a model of the declared architecture,
    whenever the encoder returns [n] pooled vectors of 768 entries, calling
    the model returns [n] rows of four threat logits and [n] rows of four
    severity logits; it changes no object, and the two tensors hang off one
    and the same forward pass of this model on these inputs. *)
Theorem forward_batch_shapes (model : loc) (input_ids attention_mask : ITensor)
    (w : World) (m : AISecurityModel) (n : nat) :
  heap w !! model = Some (ObjModel m) -> wf_params (params m) ->
  (forall weights train g, exists x,
     (bert_forward weights train input_ids attention_mask g).1 = Ok x /\
     shape x n 768) ->
  exists w' threat_logits severity_logits ctx,
    AISecurityModel_call model input_ids attention_mask w
      = (Ok (threat_logits, severity_logits), w') /\
    shape (data threat_logits) n 4 /\ shape (data severity_logits) n 4 /\
    heap w' = heap w /\
    fwd_model ctx = model /\ fwd_params ctx = params m /\
    fwd_input_ids ctx = input_ids /\ fwd_attention_mask ctx = attention_mask /\
    (grad_mode w = true ->
     grad_fn threat_logits = Some (GLogits ThreatHead ctx (data threat_logits)) /\
     grad_fn severity_logits = Some (GLogits SeverityHead ctx (data severity_logits))) /\
    (grad_mode w = false ->
     grad_fn threat_logits = None /\ grad_fn severity_logits = None).
Proof.
  intros Hm Hwf Henc.
  destruct (AISecurityModel_call_run model input_ids attention_mask w m n Hm Hwf Henc)
    as (w' & tlv & slv & ctx & Hrun & Hh & _ & _ & _ & Htl & Hsl & Hcm & Hci & Hca &
        Hcp & Etl & Esl).
  exists w', tlv, slv, ctx.
  split; [exact Hrun |]. split; [exact Htl |]. split; [exact Hsl |].
  split; [exact Hh |]. split; [exact Hcm |]. split; [exact Hcp |].
  split; [exact Hci |]. split; [exact Hca |].
  split; intros Hg; rewrite Etl, Esl; unfold tracked; cbn [grad_fn];
    rewrite Hg; split; reflexivity.
Qed.

End ForwardBatch.

(** * More on the endpoint *)

Section EndpointMore.
Context `{!External}.
Local Open Scope R_scope.

(** X17. Without the pretrained checkpoint the handler fails before it
    has done anything: [analyze_threat] raises [OSError] from loading the
    tokenizer, no object has been allocated, nothing has been drawn from
    the generator and no call has been made. *)
Theorem analyze_threat_missing_checkpoint (text : string) (w : World) :
  hub w !! "bert-base-uncased" = None ->
  analyze_threat text w = (Raise (OSError "bert-base-uncased"), w).
Proof.
  intros Hc. unfold analyze_threat, SecurityPredictor_init.
  erewrite bind_Raise; [reflexivity |].
  erewrite bind_Raise; [reflexivity |].
  unfold BertTokenizer_from_pretrained. now rewrite Hc.
Qed.

End EndpointMore.

(** * The further properties at a concrete process *)

Section MoreStandIns.
Local Open Scope R_scope.

(** A tokenizer that also returns the segment ids, as the defaults of the
    pretrained tokenizer do. *)
Definition three_key_inputs : gmap string ITensor :=
  <["token_type_ids" := I2 [[0; 0]%Z]]> stub_inputs.

Definition three_key_external : External :=
  {| tokenizer_call := fun _ _ => three_key_inputs;
     bert_forward := fun _ _ ids _ g => (stub_encoder ids, g);
     autograd := fun _ => zero_params;
     AdamW_update := fun _ st p _ => (p, st) |}.

Lemma three_key_inputs_dom :
  dom three_key_inputs <> ({["input_ids"; "attention_mask"]} : gset string).
Proof.
  intros Heq.
  assert (Hin : "token_type_ids" ∈ dom three_key_inputs)
    by (apply elem_of_dom; eexists; apply lookup_insert_eq).
  rewrite Heq in Hin.
  apply elem_of_union in Hin as [Hin | Hin]; apply elem_of_singleton in Hin;
    discriminate.
Qed.

(** The prescribed model after [model.eval()]. *)
Definition eval_model : AISecurityModel :=
  {| params := params (prescribed_model [] 1 0); grad := None;
     bert_training := false; training := false |}.

Definition eval_world (g : Generator) : World :=
  {| heap := <[2%positive := ObjPredictor prescribed_predictor]>
             (<[1%positive := ObjModel eval_model]> ∅);
     generator := g; hub := ∅; grad_mode := true; calls := [] |}.

End MoreStandIns.

Lemma predict_rejects_other_keys_witness :
  dom (@tokenizer_call three_key_external
         (tokenizer prescribed_predictor) scenario_text)
    <> ({["input_ids"; "attention_mask"]} : gset string) /\
  exists what,
    (@predict three_key_external 2%positive scenario_text
              (prescribed_world scenario_generator 1 0)).1 = Raise (TypeError what).
Proof.
  split; [exact three_key_inputs_dom |].
  destruct (@predict_rejects_other_keys three_key_external 2%positive scenario_text
              (prescribed_world scenario_generator 1 0) prescribed_predictor
              (prescribed_world_predictor _ 1 0) three_key_inputs_dom)
    as (what & Hr & _).
  exists what. exact Hr.
Defined.

Lemma eval_world_model (g : Generator) :
  heap (eval_world g) !! 1%positive = Some (ObjModel eval_model).
Proof.
  unfold eval_world. cbn [heap].
  rewrite lookup_insert_ne by discriminate. apply lookup_insert_eq.
Qed.

Lemma forward_draws_dropout_mask_witness :
  wf_params (params (prescribed_model [] 1 0)) /\
  exists tl sl w',
    @AISecurityModel_call stub_external 1%positive (I2 [[101; 102]%Z]) (I2 [[1; 1]%Z])
                          (prescribed_world scenario_generator 1 0)
      = (Ok (tl, sl), w') /\
    consumed (generator w') = (consumed scenario_generator + 1 * 256)%nat.
Proof.
  split; [apply prescribed_model_wf |].
  destruct (@forward_draws_dropout_mask stub_external 1%positive (I2 [[101; 102]%Z])
              (I2 [[1; 1]%Z]) (prescribed_world scenario_generator 1 0)
              (prescribed_model [] 1 0) [replicate 768 0%R] scenario_generator 1
              (prescribed_world_model _ 1 0) (prescribed_model_wf [] 1 0) eq_refl)
    as (tl & sl & w' & Hrun & _ & Hc).
  { split; [reflexivity |]. constructor; [apply length_replicate | constructor]. }
  exists tl, sl, w'. split; [exact Hrun | exact Hc].
Defined.

Lemma forward_eval_mode_deterministic_witness :
  heap (eval_world scenario_generator) !! 1%positive = Some (ObjModel eval_model) /\
  logits (@AISecurityModel_call stub_external 1%positive (I2 [[101; 102]%Z])
            (I2 [[1; 1]%Z]) (eval_world keep_then_drop)).1
    = logits (@AISecurityModel_call stub_external 1%positive (I2 [[101; 102]%Z])
                (I2 [[1; 1]%Z]) (eval_world scenario_generator)).1.
Proof.
  split; [apply eval_world_model |].
  exact (proj1 (@forward_eval_mode_deterministic stub_external stub_external_spec
                  1%positive (I2 [[101; 102]%Z]) (I2 [[1; 1]%Z])
                  (eval_world scenario_generator) (eval_world keep_then_drop)
                  eval_model (eval_world_model _) (eval_world_model _)
                  eq_refl eq_refl)).
Defined.

Lemma dropout_active_at_inference_witness :
  exists w self p ids mask tl1 sl1 w1 tl2 sl2 w2 pred1 pred2,
    @AISecurityModel_call stub_external (model p) ids mask w = (Ok (tl1, sl1), w1) /\
    @AISecurityModel_call stub_external (model p) ids mask w1 = (Ok (tl2, sl2), w2) /\
    decode p (softmax (data tl1)) (softmax (data sl1)) w1 = (Ok pred1, w1) /\
    decode p (softmax (data tl2)) (softmax (data sl2)) w2 = (Ok pred2, w2) /\
    pred1 !! "threat_type" = Some (VStr "data_poisoning") /\
    pred2 !! "threat_type" = Some (VStr "normal") /\
    (@predict stub_external self scenario_text w).1
      = Raise (TypeError "forward() got an unexpected keyword argument").
Proof.
  destruct (proj2 (@dropout_active_at_inference stub_external stub_external_spec
                     scenario_text))
    as (w & self & p & m & ids & mask & tl1 & sl1 & w1 & tl2 & sl2 & w2 & pred1 & pred2 &
        Hwf & _ & _ & _ & _ & H1 & H2 & _ & D1 & D2 & T1 & T2).
  exists w, self, p, ids, mask, tl1, sl1, w1, tl2, sl2, w2, pred1, pred2.
  repeat (split; [assumption |]).
  destruct Hwf as (Hself & _).
  now rewrite (@predict_raises stub_external stub_external_spec w self p scenario_text Hself).
Defined.

Lemma forward_batch_shapes_witness :
  wf_params (params (prescribed_model [] 1 0)) /\
  exists w' tl sl,
    @AISecurityModel_call stub_external 1%positive (I2 [[101; 102]%Z]) (I2 [[1; 1]%Z])
                          (prescribed_world scenario_generator 1 0)
      = (Ok (tl, sl), w') /\
    shape (data tl) 1 4 /\ shape (data sl) 1 4.
Proof.
  split; [apply prescribed_model_wf |].
  destruct (@forward_batch_shapes stub_external 1%positive (I2 [[101; 102]%Z])
              (I2 [[1; 1]%Z]) (prescribed_world scenario_generator 1 0)
              (prescribed_model [] 1 0) 1 (prescribed_world_model _ 1 0)
              (prescribed_model_wf [] 1 0) stub_encoder_accepts)
    as (w' & tl & sl & ctx & Hrun & Htl & Hsl & _).
  exists w', tl, sl. split; [exact Hrun |]. split; [exact Htl | exact Hsl].
Defined.

Lemma analyze_threat_missing_checkpoint_witness :
  hub (prescribed_world scenario_generator 1 0) !! "bert-base-uncased" = None /\
  (@analyze_threat stub_external scenario_text
                   (prescribed_world scenario_generator 1 0)).1
    = Raise (OSError "bert-base-uncased").
Proof.
  assert (Hc : hub (prescribed_world scenario_generator 1 0) !! "bert-base-uncased"
               = None) by apply lookup_empty.
  split; [exact Hc |].
  exact (f_equal fst (@analyze_threat_missing_checkpoint stub_external scenario_text
                        (prescribed_world scenario_generator 1 0) Hc)).
Defined.

(** * What a step of training computes *)

Section TrainingSteps.
Context `{!External} `{!ExternalSpec}.
Local Open Scope R_scope.
Local Open Scope list_scope.

(** The batches of a non-empty loader: the state is left by the step of
    the last batch. *)
Lemma train_model_batches_last (model o : loc) (loader : list (gmap string ITensor))
    (w : World) :
  trainable model o w -> Forall wf_batch loader -> loader <> [] ->
  exists w' w1 g v front,
    for_ loader (train_model_batch model o) w = (Ok tt, w') /\
    trainable model o w' /\
    stepped model o w1 w' g /\
    calls w' = front ++ [CallBackward g v; CallStep o 2e-5].
Proof.
  intros Ht Hall Hne.
  destruct (exists_last Hne) as (init & b & ->).
  apply Forall_app in Hall as [Hinit Hb]. apply Forall_inv in Hb.
  destruct (train_model_batches_run model o init w Ht Hinit)
    as (w1 & css & Hrun1 & Ht1 & _).
  destruct (train_model_batch_run model o b w1 Ht1 Hb)
    as (w2 & cs & Hrun2 & Ht2 & Hc2 & _ & _ & g & v & Hstep & front & ->).
  exists w2, w1, g, v, (calls w1 ++ front).
  split; [| split; [exact Ht2 | split; [exact Hstep |]]].
  - rewrite (for_app_Ok init [b] _ w w1 Hrun1). cbn [for_].
    now erewrite bind_Ok by exact Hrun2.
  - now rewrite Hc2, app_assoc.
Qed.

Lemma train_model_epochs_last (model o : loc) (loader : list (gmap string ITensor))
    (epochs : list nat) (w : World) :
  trainable model o w -> Forall wf_batch loader -> loader <> [] -> epochs <> [] ->
  exists w' w1 g v front,
    for_ epochs (fun _ => train_model_epoch model o loader) w = (Ok tt, w') /\
    stepped model o w1 w' g /\
    calls w' = front ++ [CallBackward g v; CallStep o 2e-5].
Proof.
  intros Ht Hall Hne Hep.
  destruct (exists_last Hep) as (init & e & ->).
  destruct (train_model_epochs_run model o loader init w Ht Hall)
    as (w1 & ess & Hrun1 & Ht1 & _).
  destruct (Module_train_run model o w1 Ht1) as (w2 & Hrun2 & Ht2 & _).
  destruct (train_model_batches_last model o loader w2 Ht2 Hall Hne)
    as (w3 & w0 & g & v & front & Hrun3 & _ & Hstep & Hc3).
  exists w3, w0, g, v, front. split; [| split; assumption].
  rewrite (for_app_Ok init [e] _ w w1 Hrun1). cbn [for_].
  erewrite bind_Ok; [reflexivity |].
  unfold train_model_epoch. erewrite bind_Ok by exact Hrun2. exact Hrun3.
Qed.

(** X19. Gradients do not pile up.  Every batch starts from zeroed
    gradients, so after a run over a non-empty loader of well-formed
    batches, for at least one epoch, the gradient the model is left with is
    the gradient of the loss of the last batch alone, the one whose
    backward pass and optimizer step end the log of calls. *)
Theorem train_model_keeps_last_gradient_only (model : loc)
    (train_loader : list (gmap string ITensor)) (num_epochs : Z) (w : World)
    (m : AISecurityModel) :
  heap w !! model = Some (ObjModel m) -> wf_params (params m) ->
  grad_mode w = true -> Forall wf_batch train_loader ->
  train_loader <> [] -> (1 <= num_epochs)%Z ->
  exists w' front g v m',
    train_model model train_loader num_epochs w = (Ok tt, w') /\
    calls w' = front ++ [CallBackward g v; CallStep (optimizer_loc w) 2e-5] /\
    heap w' !! model = Some (ObjModel m') /\
    grad m' = Some (autograd g).
Proof.
  intros Hm Hwf Hg Hall Hne Hn.
  assert (Hep : range num_epochs <> []).
  { unfold range. destruct (Z.to_nat num_epochs) eqn:E; [lia | discriminate]. }
  destruct (train_model_epochs_last model (optimizer_loc w) train_loader
              (range num_epochs) (after_AdamW model w)
              (after_AdamW_trainable model w m Hm Hwf Hg) Hall Hne Hep)
    as (w' & w1 & g & v & front & Hrun & (m0 & st0 & _ & _ & Hm' & _) & Hc).
  exists w', front, g, v. eexists.
  split; [rewrite train_model_unfold;
          now erewrite bind_Ok by exact (AdamW_run model w m Hm) |].
  split; [exact Hc |]. split; [exact Hm' | reflexivity].
Qed.

(** X20. One step of training.  With one well-formed batch and one epoch,
    [train_model] leaves the model with the parameters that one update of
    the AdamW rule at rate 2e-5, from a fresh optimizer state, makes of the
    parameters it was given, the gradient being that of the sum of the two
    cross entropies of this batch; the model is in training mode, encoder
    included. *)
Theorem train_model_single_step (model : loc) (batch : gmap string ITensor)
    (w : World) (m : AISecurityModel) :
  heap w !! model = Some (ObjModel m) -> wf_params (params m) ->
  grad_mode w = true -> wf_batch batch ->
  exists w' g v ctx tl sl ys zs,
    train_model model [batch] 1 w = (Ok tt, w') /\
    batch !! "threat_labels" = Some ys /\ batch !! "severity_labels" = Some zs /\
    g = GAdd (GCrossEntropy (GLogits ThreatHead ctx tl) ys)
             (GCrossEntropy (GLogits SeverityHead ctx sl) zs) /\
    CallBackward g v ∈ calls w' /\
    heap w' !! model =
      Some (ObjModel
              {| params := (AdamW_update 2e-5 (opt_state (new_optimizer model))
                              (params m) (autograd g)).1;
                 grad := Some (autograd g);
                 bert_training := true; training := true |}).
Proof.
  intros Hm Hwf Hg Hb.
  pose proof (after_AdamW_trainable model w m Hm Hwf Hg) as Ht0.
  set (o := optimizer_loc w) in *.
  assert (Hmo : model <> o) by exact (trainable_distinct _ _ _ Ht0).
  assert (Hm0 : heap (after_AdamW model w) !! model = Some (ObjModel m)).
  { unfold after_AdamW. cbn [heap set_heap]. fold o.
    now rewrite lookup_insert_ne by congruence. }
  pose proof (Module_train_eq model (after_AdamW model w) m Hm0) as Hrun1.
  set (m1 := {| params := params m; grad := grad m;
                bert_training := true; training := true |}) in Hrun1.
  set (w1 := set_heap (<[model := ObjModel m1]> (heap (after_AdamW model w)))
                      (add_call (CallTrain model) (after_AdamW model w))) in Hrun1.
  assert (Ht1 : trainable model o w1).
  { unfold trainable. cbn [grad_mode heap w1 set_heap add_call after_AdamW].
    split; [exact Hg |]. split.
    - exists m1. split; [apply lookup_insert_eq | exact Hwf].
    - eexists. rewrite lookup_insert_ne by exact Hmo. fold o. apply lookup_insert_eq. }
  destruct Hb as (ids & mask & ys & zs & Hids & Hmask & Hys & Hzs & Hne & Hlen &
                  Hvy & Hvz & Henc).
  assert (Hb : wf_batch batch).
  { exists ids, mask, ys, zs. repeat (split; [assumption |]). exact Henc. }
  destruct (train_model_batch_run model o batch w1 Ht1 Hb)
    as (w2 & cs & Hrun2 & _ & Hc2 &
        (ids' & mask' & ys' & zs' & ctx & tl & sl & v1 & v2 & _ & _ & Hys' & Hzs' &
         _ & _ & _ & _ & _ & Hcs) & _ & g & v & (m0 & st0 & Hm0' & Ho0 & Hm2 & _) &
        front & Hfront).
  assert (Hm1 : heap w1 !! model = Some (ObjModel m1)) by apply lookup_insert_eq.
  rewrite Hm1 in Hm0'. injection Hm0' as <-.
  assert (Ho1 : heap w1 !! o = Some (ObjOptimizer (new_optimizer model))).
  { cbn [heap w1 set_heap add_call after_AdamW].
    rewrite lookup_insert_ne by exact Hmo. fold o. apply lookup_insert_eq. }
  rewrite Ho1 in Ho0. injection Ho0 as <-.
  assert (Hgv : CallBackward g v =
                CallBackward (GAdd (GCrossEntropy (GLogits ThreatHead ctx tl) ys')
                                   (GCrossEntropy (GLogits SeverityHead ctx sl) zs'))
                             (v1 + v2)).
  { rewrite Hcs in Hfront.
    apply (app_inj_2 [CallZeroGrad o; CallForward model ids' mask'] front
             [CallBackward _ (v1 + v2); CallStep o 2e-5]
             [CallBackward g v; CallStep o 2e-5]) in Hfront as [_ Htail];
      [| reflexivity].
    now injection Htail as <- <-. }
  injection Hgv as Hgeq Hveq.
  exists w2, g, v, ctx, tl, sl, ys', zs'.
  split; [| split; [exact Hys' | split; [exact Hzs' | split; [exact Hgeq |]]]].
  - rewrite train_model_unfold.
    erewrite bind_Ok by exact (AdamW_run model w m Hm).
    change (range 1) with [0%nat]. cbn [for_].
    erewrite bind_Ok; [reflexivity |].
    unfold train_model_epoch. erewrite bind_Ok by exact Hrun1.
    cbn [for_]. now erewrite bind_Ok by exact Hrun2.
  - split; [| exact Hm2].
    rewrite Hc2, Hfront. apply elem_of_app. right. apply elem_of_app. right.
    apply list_elem_of_here.
Qed.

End TrainingSteps.

Lemma train_model_keeps_last_gradient_only_witness :
  Forall (@wf_batch stub_external) [stub_batch] /\ [stub_batch] <> [] /\
  exists w' front g v m',
    @train_model stub_external 1%positive [stub_batch] 2
                 (prescribed_world scenario_generator 1 0) = (Ok tt, w') /\
    calls w' = (front ++ [CallBackward g v;
                          CallStep (optimizer_loc (prescribed_world scenario_generator 1 0))
                                   2e-5%R])%list /\
    heap w' !! 1%positive = Some (ObjModel m') /\
    grad m' = Some (@autograd stub_external g).
Proof.
  assert (Hall : Forall (@wf_batch stub_external) [stub_batch])
    by (constructor; [exact stub_batch_wf | constructor]).
  assert (Hne : [stub_batch] <> []) by discriminate.
  assert (Hn : (1 <= 2)%Z) by discriminate.
  split; [exact Hall |]. split; [exact Hne |].
  exact (@train_model_keeps_last_gradient_only stub_external stub_external_spec
           1%positive [stub_batch] 2 (prescribed_world scenario_generator 1 0)
           (prescribed_model [] 1 0) (prescribed_world_model _ 1 0)
           (prescribed_model_wf [] 1 0) eq_refl Hall Hne Hn).
Defined.

Lemma train_model_single_step_witness :
  @wf_batch stub_external stub_batch /\
  exists w' g,
    @train_model stub_external 1%positive [stub_batch] 1
                 (prescribed_world scenario_generator 1 0) = (Ok tt, w') /\
    heap w' !! 1%positive =
      Some (ObjModel
              {| params := (@AdamW_update stub_external 2e-5%R
                              (opt_state (new_optimizer 1%positive))
                              (params (prescribed_model [] 1 0))
                              (@autograd stub_external g)).1;
                 grad := Some (@autograd stub_external g);
                 bert_training := true; training := true |}).
Proof.
  split; [exact stub_batch_wf |].
  destruct (@train_model_single_step stub_external stub_external_spec
              1%positive stub_batch (prescribed_world scenario_generator 1 0)
              (prescribed_model [] 1 0) (prescribed_world_model _ 1 0)
              (prescribed_model_wf [] 1 0) eq_refl stub_batch_wf)
    as (w' & g & v & ctx & tl & sl & ys & zs & Hrun & _ & _ & _ & _ & Hm).
  exists w', g. split; [exact Hrun | exact Hm].
Defined.

(** * What [predict] and the constructors leave behind *)

(** [quiet m]: running [m] makes no call into the framework. *)
Definition quiet {A} (m : M A) : Prop := forall w, calls (m w).2 = calls w.

Section Quiet.
Context `{!External}.
Local Open Scope list_scope.

Lemma quiet_ret {A} (a : A) : quiet (ret a).
Proof. intros w. reflexivity. Qed.

Lemma quiet_raise {A} (e : exn) : quiet (raise e : M A).
Proof. intros w. reflexivity. Qed.

Lemma quiet_lift {A} (r : Result A) : quiet (lift r).
Proof. intros w. reflexivity. Qed.

Lemma quiet_bind {A B} (m : M A) (k : A -> M B) :
  quiet m -> (forall a, quiet (k a)) -> quiet (m ≫= k).
Proof.
  intros Hm Hk w. unfold mbind, M_bind, bind. specialize (Hm w).
  destruct (m w) as [[a|e] w1]; cbn [snd] in *; [| exact Hm].
  now rewrite (Hk a w1).
Qed.

Lemma quiet_get_world : quiet get_world.
Proof. intros w. reflexivity. Qed.

Lemma quiet_get_model (l : loc) : quiet (get_model l).
Proof. intros w. unfold get_model. now destruct (heap w !! l) as [[| |]|]. Qed.

Lemma quiet_get_predictor (l : loc) : quiet (get_predictor l).
Proof. intros w. unfold get_predictor. now destruct (heap w !! l) as [[| |]|]. Qed.

Lemma quiet_with_generator {A} (f : Generator -> A * Generator) :
  quiet (with_generator f).
Proof. intros w. unfold with_generator. now destruct (f (generator w)). Qed.

Lemma quiet_BertModel_call (weights : list R) (train : bool) (ids mask : ITensor) :
  quiet (BertModel_call weights train ids mask).
Proof.
  intros w. unfold BertModel_call.
  now destruct (bert_forward weights train ids mask (generator w)).
Qed.

Lemma quiet_list_getitem {A} (xs : list A) (i : nat) : quiet (list_getitem xs i).
Proof. unfold list_getitem. destruct (xs !! i); [apply quiet_ret | apply quiet_raise]. Qed.

Lemma quiet_last_getitem {A} (xs : list A) : quiet (last_getitem xs).
Proof. unfold last_getitem. destruct (last xs); [apply quiet_ret | apply quiet_raise]. Qed.

Lemma quiet_Layer_call (train : bool) (l : Layer) (x : Tensor) :
  quiet (Layer_call train l x).
Proof.
  destruct l; simpl; [apply quiet_lift | apply quiet_ret | apply quiet_with_generator].
Qed.

Lemma quiet_Sequential_call (train : bool) (layers : list Layer) (x : Tensor) :
  quiet (Sequential_call train layers x).
Proof.
  revert x. induction layers as [|l layers IH]; intros x; simpl.
  - apply quiet_ret.
  - apply quiet_bind; [apply quiet_Layer_call | intros y; apply IH].
Qed.

(** [forward] itself logs nothing: the call is logged by [model(...)]. *)
Lemma quiet_forward (self : loc) (ids mask : ITensor) : quiet (forward self ids mask).
Proof.
  unfold forward.
  apply quiet_bind; [apply quiet_get_world | intros w0].
  apply quiet_bind; [apply quiet_get_model | intros m].
  apply quiet_bind; [apply quiet_BertModel_call | intros x].
  apply quiet_bind; [apply quiet_Sequential_call | intros f].
  apply quiet_bind; [apply quiet_last_getitem | intros h].
  apply quiet_bind; [apply quiet_Layer_call | intros tl].
  apply quiet_bind; [apply quiet_lift | intros sl].
  apply quiet_ret.
Qed.

Lemma AISecurityModel_call_calls (self : loc) (ids mask : ITensor) (w : World) :
  calls (AISecurityModel_call self ids mask w).2 = calls w ++ [CallForward self ids mask].
Proof.
  unfold AISecurityModel_call, mbind, M_bind, bind, log.
  now rewrite (quiet_forward self ids mask (add_call (CallForward self ids mask) w)).
Qed.

Lemma quiet_decode (p : SecurityPredictor) (tp sp : Tensor) : quiet (decode p tp sp).
Proof.
  unfold decode.
  apply quiet_bind; [apply quiet_lift | intros i].
  apply quiet_bind; [apply quiet_list_getitem | intros t].
  apply quiet_bind; [apply quiet_lift | intros j].
  apply quiet_bind; [apply quiet_list_getitem | intros s].
  apply quiet_bind; [apply quiet_lift | intros c].
  apply quiet_ret.
Qed.

Lemma bind_get_predictor {B} (self : loc) (k : SecurityPredictor -> M B) (w : World) :
  (get_predictor self ≫= k) w =
    match heap w !! self with
    | Some (ObjPredictor p) => k p w
    | _ => (Raise AttributeError, w)
    end.
Proof.
  unfold mbind, M_bind, bind, get_predictor.
  now destruct (heap w !! self) as [[| |]|].
Qed.

Lemma calls_bind_quiet {A B} (m : M A) (k : A -> M B) (w : World) :
  (forall a, quiet (k a)) -> calls ((m ≫= k) w).2 = calls (m w).2.
Proof.
  intros Hk. unfold mbind, M_bind, bind.
  destruct (m w) as [[a|e] w1]; cbn [snd]; [apply Hk | reflexivity].
Qed.

Lemma no_grad_calls {A} (body : M A) (w : World) :
  calls (no_grad body w).2 = calls (body (set_grad_mode false w)).2.
Proof. unfold no_grad. now destruct (body (set_grad_mode false w)). Qed.

(** The calls of the block that [predict] runs with recording off. *)
Lemma predict_block_calls (self : loc) (inputs : gmap string ITensor) (w : World) :
  let block :=
    (p ← get_predictor self;
     '(threat_logits, severity_logits) ← AISecurityModel_call_kwargs (model p) inputs;
     ret (softmax (data threat_logits), softmax (data severity_logits))) in
  calls (block w).2 = calls w \/
  exists mdl ids mask, calls (block w).2 = calls w ++ [CallForward mdl ids mask].
Proof.
  cbv zeta. unfold mbind, M_bind, bind, get_predictor.
  destruct (heap w !! self) as [[|p|]|]; try now left.
  unfold AISecurityModel_call_kwargs.
  destruct (decide _); [| now left].
  destruct (inputs !! "input_ids") as [ids|]; [| now left].
  destruct (inputs !! "attention_mask") as [mask|]; [| now left].
  right. exists (model p), ids, mask.
  pose proof (AISecurityModel_call_calls (model p) ids mask w) as Hc.
  destruct (AISecurityModel_call (model p) ids mask w) as [[[tl sl]|e] w1];
    cbn [snd] in *; exact Hc.
Qed.

(** X22. [predict] changes no object and makes at most one call: for
    every predictor location, text and state, whether it returns or raises,
    the heap (the parameters of encoder and heads, the gradients, the mode
    flags, the label tables), the checkpoints on disk and the
    gradient-recording mode are afterwards what they were before, and the
    only call that can have been made is one forward pass of a model. *)
Theorem predict_changes_no_object (self : loc) (text : string) (w : World) :
  heap (predict self text w).2 = heap w /\
  hub (predict self text w).2 = hub w /\
  grad_mode (predict self text w).2 = grad_mode w /\
  (calls (predict self text w).2 = calls w \/
   exists mdl ids mask,
     calls (predict self text w).2 = calls w ++ [CallForward mdl ids mask]).
Proof.
  destruct (frame_predict self text w) as (H1 & H2 & H3).
  repeat (split; [assumption |]).
  unfold predict. rewrite bind_get_predictor.
  destruct (heap w !! self) as [[|p|]|]; try now left.
  rewrite calls_bind_quiet.
  - rewrite no_grad_calls.
    exact (predict_block_calls self (tokenizer_call (tokenizer p) text)
             (set_grad_mode false w)).
  - intros [tp sp]. apply quiet_bind; [apply quiet_get_predictor | intros p'].
    apply (quiet_decode p' tp sp).
Qed.

End Quiet.

Section Constructors.
Local Open Scope R_scope.

(** X23. [SecurityPredictor()] builds what [predict] needs.  When the
    pretrained checkpoint is on disk the constructor returns a new
    predictor: predictor and model sit at two locations nothing occupied,
    every earlier object is untouched, and no call is made.  The predictor
    holds the vocabulary of the checkpoint, the four threat labels and the
    four severity labels, in the order the indices decode to; the model has
    the declared architecture (768 -> 256 -> 4 and 256 -> 4), the encoder
    weights of the checkpoint, no gradient, its head in training mode and
    its encoder in evaluation mode. *)
Theorem SecurityPredictor_init_builds (w : World) (c : Checkpoint) :
  hub w !! "bert-base-uncased" = Some c ->
  exists lp lm m w',
    SecurityPredictor_init w = (Ok lp, w') /\
    heap w !! lm = None /\ heap w !! lp = None /\ lm <> lp /\
    heap w' =
      <[lp := ObjPredictor
                {| tokenizer := ckpt_vocab c; model := lm;
                   attack_types := ["normal"; "data_poisoning"; "prompt_injection";
                                    "model_inversion"];
                   severity_levels := ["low"; "medium"; "high"; "critical"] |}]>
      (<[lm := ObjModel m]> (heap w)) /\
    hub w' = hub w /\ calls w' = calls w /\ grad_mode w' = grad_mode w /\
    wf_params (params m) /\ bert (params m) = ckpt_weights c /\
    grad m = None /\ training m = true /\ bert_training m = false.
Proof.
  intros Hc.
  destruct (predictor_loc_fresh w c) as [Hp Hne].
  destruct (fresh_model_fields c (generator w)) as (Hb & Hg & Hbt & Ht & _).
  exists (predictor_loc w c), (model_loc w), (fresh_model c (generator w)).1,
    (after_init w c).
  split; [exact (SecurityPredictor_init_run w c Hc) |].
  split; [apply model_loc_fresh |]. split; [exact Hp |]. split; [congruence |].
  split; [reflexivity |]. split; [reflexivity |]. split; [reflexivity |].
  split; [reflexivity |]. split; [apply fresh_model_wf |].
  split; [exact Hb |]. split; [exact Hg |]. split; [exact Ht | exact Hbt].
Qed.

End Constructors.

Lemma SecurityPredictor_init_builds_witness :
  hub (world_with_checkpoint stub_checkpoint) !! "bert-base-uncased"
    = Some stub_checkpoint /\
  exists lp w',
    SecurityPredictor_init (world_with_checkpoint stub_checkpoint) = (Ok lp, w') /\
    hub w' = hub (world_with_checkpoint stub_checkpoint).
Proof.
  assert (Hc : hub (world_with_checkpoint stub_checkpoint) !! "bert-base-uncased"
               = Some stub_checkpoint) by apply lookup_singleton_eq.
  split; [exact Hc |].
  destruct (SecurityPredictor_init_builds
              (world_with_checkpoint stub_checkpoint) stub_checkpoint Hc)
    as (lp & lm & m & w' & Hrun & _ & _ & _ & _ & Hhub & _).
  exists lp, w'. split; [exact Hrun | exact Hhub].
Defined.

(** * The claims about training *)

(** A call that changes the parameters or their gradients. *)
Definition is_update (c : Call) : Prop :=
  match c with
  | CallBackward _ _ | CallStep _ _ => True
  | _ => False
  end.

Section TrainingCalls.
Context `{!External}.
Local Open Scope R_scope.
Local Open Scope list_scope.

Lemma quiet_get_optimizer (l : loc) : quiet (get_optimizer l).
Proof. intros w. unfold get_optimizer. now destruct (heap w !! l) as [[| |]|]. Qed.

Lemma quiet_store (l : loc) (o : obj) : quiet (store l o).
Proof. intros w. reflexivity. Qed.

Lemma quiet_dict_getitem {A} (d : gmap string A) (k : string) : quiet (dict_getitem d k).
Proof. unfold dict_getitem. destruct (d !! k); [apply quiet_ret | apply quiet_raise]. Qed.

Lemma quiet_CrossEntropyLoss_call (input : Var Tensor) (target : ITensor) :
  quiet (CrossEntropyLoss_call input target).
Proof.
  unfold CrossEntropyLoss_call.
  apply quiet_bind; [apply quiet_lift | intros v; apply quiet_ret].
Qed.

(** [optimizer.zero_grad()] is logged once, whether it succeeds or not. *)
Lemma Optimizer_zero_grad_calls (o : loc) (w : World) :
  calls (Optimizer_zero_grad o w).2 = calls w ++ [CallZeroGrad o].
Proof.
  unfold Optimizer_zero_grad.
  erewrite bind_Ok by reflexivity.
  rewrite (quiet_bind (get_optimizer o)
             (fun opt => m ← get_model (opt_model opt);
                         store (opt_model opt) (ObjModel (set_grad None m)))).
  - reflexivity.
  - apply quiet_get_optimizer.
  - intros opt. apply quiet_bind; [apply quiet_get_model | intros m; apply quiet_store].
Qed.

(** The calls of the loop body on a batch without one of its label
    fields: the gradients are zeroed and, if the batch has inputs, the
    forward pass is run; nothing else is called. *)
Lemma train_model_batch_unlabelled_calls (model o : loc) (bad : gmap string ITensor)
    (k : string) (w : World) :
  k = "threat_labels" \/ k = "severity_labels" -> bad !! k = None ->
  exists cs,
    calls (train_model_batch model o bad w).2 = calls w ++ cs /\
    Forall (fun c => ~ is_update c) cs.
Proof.
  intros Hk Hbad.
  assert (Hone : Forall (fun c => ~ is_update c) [CallZeroGrad o])
    by (constructor; [exact (fun F => F) | constructor]).
  assert (Htwo : forall ids mask,
            Forall (fun c => ~ is_update c) [CallZeroGrad o; CallForward model ids mask])
    by (intros ids mask; constructor; [exact (fun F => F) |]; constructor; [exact (fun F => F) | constructor]).
  pose proof (Optimizer_zero_grad_calls o w) as H0.
  unfold train_model_batch, mbind, M_bind, bind.
  destruct (Optimizer_zero_grad o w) as [[u|e] w1]; cbn [snd] in H0;
    [| exists [CallZeroGrad o]; cbn [snd]; now split].
  pose proof (quiet_dict_getitem bad "input_ids" w1) as H1.
  destruct (dict_getitem bad "input_ids" w1) as [[ids|e] w2]; cbn [snd] in H1;
    [| exists [CallZeroGrad o]; cbn [snd]; split; [now rewrite H1, H0 | exact Hone]].
  pose proof (quiet_dict_getitem bad "attention_mask" w2) as H2.
  destruct (dict_getitem bad "attention_mask" w2) as [[mask|e] w3]; cbn [snd] in H2;
    [| exists [CallZeroGrad o]; cbn [snd]; split; [now rewrite H2, H1, H0 | exact Hone]].
  pose proof (AISecurityModel_call_calls model ids mask w3) as H3.
  assert (Hc3 : forall w4, calls w4 = calls w3 ++ [CallForward model ids mask] ->
            calls w4 = calls w ++ [CallZeroGrad o; CallForward model ids mask]).
  { intros w4 ->. rewrite H2, H1, H0, <- app_assoc. reflexivity. }
  destruct (AISecurityModel_call model ids mask w3) as [[[tl sl]|e] w4]; cbn [snd] in H3;
    [| exists [CallZeroGrad o; CallForward model ids mask]; cbn [snd];
       split; [now apply Hc3 | apply Htwo]].
  pose proof (quiet_dict_getitem bad "threat_labels" w4) as H4.
  destruct (dict_getitem bad "threat_labels" w4) as [[ys|e] w5] eqn:E4; cbn [snd] in H4;
    [| exists [CallZeroGrad o; CallForward model ids mask]; cbn [snd];
       split; [apply Hc3; now rewrite H4 | apply Htwo]].
  pose proof (quiet_CrossEntropyLoss_call tl ys w5) as H5.
  destruct (CrossEntropyLoss_call tl ys w5) as [[v1|e] w6]; cbn [snd] in H5;
    [| exists [CallZeroGrad o; CallForward model ids mask]; cbn [snd];
       split; [apply Hc3; now rewrite H5, H4 | apply Htwo]].
  pose proof (quiet_dict_getitem bad "severity_labels" w6) as H6.
  destruct (dict_getitem bad "severity_labels" w6) as [[zs|e] w7] eqn:E6; cbn [snd] in H6;
    [| exists [CallZeroGrad o; CallForward model ids mask]; cbn [snd];
       split; [apply Hc3; now rewrite H6, H5, H4 | apply Htwo]].
  exfalso. unfold dict_getitem in E4, E6.
  destruct Hk as [-> | ->]; rewrite Hbad in *; discriminate.
Qed.

(** C7. A batch without [threat_labels] or without [severity_labels]
    stops training.  With at least one epoch, [train_model] raises, and it
    does exactly what it would do had the loader ended with that batch and
    had one epoch been asked for: no batch after the malformed one is
    looked at and no later epoch begins.  The malformed batch itself is not
    trained on with the loss term it does have: while the loop body runs on
    it, whatever the state, it raises and calls neither the backward pass
    nor the optimizer step. *)
Theorem train_model_aborts_on_missing_labels (model : loc)
    (pre post : list (gmap string ITensor)) (bad : gmap string ITensor)
    (k : string) (num_epochs : Z) (w : World) :
  k = "threat_labels" \/ k = "severity_labels" -> bad !! k = None ->
  (1 <= num_epochs)%Z ->
  is_Raise (train_model model (pre ++ bad :: post) num_epochs w).1 /\
  train_model model (pre ++ bad :: post) num_epochs w =
    train_model model (pre ++ [bad]) 1 w /\
  (forall o w0,
     is_Raise (train_model_batch model o bad w0).1 /\
     exists cs,
       calls (train_model_batch model o bad w0).2 = calls w0 ++ cs /\
       Forall (fun c => ~ is_update c) cs).
Proof.
  intros Hk Hbad Hn.
  assert (Hkeys : k ∈ batch_keys).
  { unfold batch_keys. destruct Hk as [-> | ->].
    - do 2 apply list_elem_of_further. apply list_elem_of_here.
    - do 3 apply list_elem_of_further. apply list_elem_of_here. }
  assert (Hbody : forall o, always_raises (train_model_batch model o bad))
    by (intros o; exact (train_model_batch_missing_key model o bad k Hkeys Hbad)).
  split; [| split].
  - rewrite train_model_unfold.
    destruct (AdamW model 2e-5 w) as [[o|e] w1] eqn:Eopt;
      [| erewrite bind_Raise by exact Eopt; now exists e].
    erewrite bind_Ok by exact Eopt.
    destruct (for_aborts pre post bad (train_model_batch model o) (Hbody o)) as [Hall _].
    assert (Hr : is_Raise (train_model_epoch model o (pre ++ bad :: post) w1).1).
    { unfold train_model_epoch. apply always_raises_bind. intros u. exact Hall. }
    assert (Hrange : exists rest, range num_epochs = 0%nat :: rest).
    { unfold range. destruct (Z.to_nat num_epochs) as [|j] eqn:E; [lia |].
      now exists (seq 1 j). }
    destruct Hrange as [rest ->].
    now rewrite (for_raises_first 0%nat rest _ w1 Hr).
  - rewrite !train_model_unfold.
    destruct (AdamW model 2e-5 w) as [[o|e] w1] eqn:Eopt;
      [| now erewrite !bind_Raise by exact Eopt].
    erewrite !bind_Ok by exact Eopt.
    destruct (for_aborts pre post bad (train_model_batch model o) (Hbody o))
      as [Hall Heq].
    assert (Hepoch : train_model_epoch model o (pre ++ bad :: post) w1 =
                     train_model_epoch model o (pre ++ [bad]) w1).
    { unfold train_model_epoch, mbind, M_bind, bind.
      destruct (Module_train model w1) as [[u|e] w2]; [apply Heq | reflexivity]. }
    assert (Hr : is_Raise (train_model_epoch model o (pre ++ bad :: post) w1).1).
    { unfold train_model_epoch. apply always_raises_bind. intros u. exact Hall. }
    assert (Hrange : exists rest, range num_epochs = 0%nat :: rest).
    { unfold range. destruct (Z.to_nat num_epochs) as [|j] eqn:E; [lia |].
      now exists (seq 1 j). }
    destruct Hrange as [rest ->].
    change (range 1) with [0%nat].
    rewrite (for_raises_first 0%nat rest _ w1 Hr).
    rewrite (for_raises_first 0%nat [] _ w1) by now rewrite <- Hepoch.
    exact Hepoch.
  - intros o w0. split; [apply Hbody |].
    exact (train_model_batch_unlabelled_calls model o bad k w0 Hk Hbad).
Qed.

End TrainingCalls.

Section TrainingClaims.
Context `{!External} `{!ExternalSpec}.
Local Open Scope R_scope.
Local Open Scope list_scope.

(** Every row with a class index as its label counts in the loss. *)
Lemma nll_terms_counted (rows : Tensor) (ys : list Z) (ts : list R) :
  nll_terms rows ys = Ok ts -> length rows = length ys -> Forall valid_label ys ->
  length ts = length ys.
Proof.
  revert ys ts. induction rows as [|row rows IH]; intros [|y ys] ts; simpl;
    try discriminate.
  - now intros [= <-].
  - intros Hts Hlen Hys. inversion Hys as [|? ? Hy Hys']; subst.
    replace (Z.eqb y ignore_index) with false in Hts
      by (symmetry; apply Z.eqb_neq; unfold ignore_index, valid_label in *; lia).
    destruct (if Z.ltb y 0 then None else softmax_row row !! Z.to_nat y);
      [| discriminate].
    destruct (nll_terms rows ys) as [ts'|e] eqn:Hts'; [| discriminate].
    injection Hts as <-. simpl. f_equal. apply (IH ys); [exact Hts' | lia | assumption].
Qed.

(** A cross entropy against class indices is not negative. *)
Lemma cross_entropy_nonneg (t : Tensor) (ys : list Z) (v : R) :
  cross_entropy t (I1 ys) = Ok v -> ys <> [] -> Forall valid_label ys -> 0 <= v.
Proof.
  unfold cross_entropy. intros Hv Hne Hys.
  destruct (Nat.eqb (length t) (length ys)) eqn:Hlen; [| discriminate].
  apply Nat.eqb_eq in Hlen.
  destruct (nll_terms t ys) as [ts|e] eqn:Hts; [| discriminate].
  injection Hv as <-.
  pose proof (tsum_nonneg ts (nll_terms_nonneg _ _ _ Hts)) as Hsum.
  pose proof (nll_terms_counted t ys ts Hts Hlen Hys) as Hl.
  assert (0 < INR (length ts)) as Hpos.
  { apply lt_0_INR. rewrite Hl. destruct ys; [congruence | simpl; lia]. }
  apply Rmult_le_pos; [exact Hsum |]. left. now apply Rinv_0_lt_compat.
Qed.

(** C6. The loop body of [train_model], run on a well-formed batch in a
    state where the model has the declared architecture, gradient
    recording is on and the optimizer is the one [train_model] created
    (AdamW on this model at learning rate 2e-5), returns after exactly this
    sequence of calls: the gradients are zeroed, the forward pass is run on
    the batch's token ids and attention mask, the backward pass is run on
    the sum of the cross entropy of the threat logits against the threat
    labels and of the cross entropy of the severity logits against the
    severity labels, and the optimizer is stepped once; the step is one
    AdamW update at rate 2e-5 of the parameters with the gradient of that
    sum.  [train_model] creates the optimizer once and then runs the body on
    every batch of the loader, in order, in each of [num_epochs] epochs,
    each epoch opened by [model.train()]. *)
Theorem train_model_batch_sequence :
  (forall model o batch w, trainable model o w -> wf_batch batch ->
     exists w' ids mask ys zs ctx tl sl v1 v2,
       train_model_batch model o batch w = (Ok tt, w') /\
       batch !! "input_ids" = Some ids /\ batch !! "attention_mask" = Some mask /\
       batch !! "threat_labels" = Some ys /\ batch !! "severity_labels" = Some zs /\
       fwd_model ctx = model /\
       fwd_input_ids ctx = ids /\ fwd_attention_mask ctx = mask /\
       cross_entropy tl ys = Ok v1 /\ cross_entropy sl zs = Ok v2 /\
       calls w' = calls w ++
         [CallZeroGrad o;
          CallForward model ids mask;
          CallBackward
            (GAdd (GCrossEntropy (GLogits ThreatHead ctx tl) ys)
                  (GCrossEntropy (GLogits SeverityHead ctx sl) zs))
            (v1 + v2);
          CallStep o 2e-5] /\
       stepped model o w w'
         (GAdd (GCrossEntropy (GLogits ThreatHead ctx tl) ys)
               (GCrossEntropy (GLogits SeverityHead ctx sl) zs)) /\
       trainable model o w') /\
  (forall model train_loader num_epochs w m,
     heap w !! model = Some (ObjModel m) -> wf_params (params m) ->
     grad_mode w = true -> Forall wf_batch train_loader ->
     exists w' o ess,
       train_model model train_loader num_epochs w = (Ok tt, w') /\
       heap w !! o = None /\
       (exists st, heap w' !! o =
          Some (ObjOptimizer {| opt_model := model; lr := 2e-5; opt_state := st |})) /\
       calls w' = calls w ++ concat ess /\
       length ess = Z.to_nat num_epochs /\
       Forall (epoch_calls model o train_loader) ess).
Proof.
  split.
  - intros model o batch w Ht Hb.
    destruct (train_model_batch_run model o batch w Ht Hb)
      as (w' & cs & Hrun & Ht' & Hc & Hcs & _ & g & v & Hstep & front & Hfront).
    destruct Hcs as (ids & mask & ys & zs & ctx & tl & sl & v1 & v2 & Hids & Hmask &
                     Hys & Hzs & Hcm & Hci & Hca & Hv1 & Hv2 & ->).
    assert (Hg : g = GAdd (GCrossEntropy (GLogits ThreatHead ctx tl) ys)
                          (GCrossEntropy (GLogits SeverityHead ctx sl) zs)).
    { change [CallZeroGrad o; CallForward model ids mask;
              CallBackward
                (GAdd (GCrossEntropy (GLogits ThreatHead ctx tl) ys)
                      (GCrossEntropy (GLogits SeverityHead ctx sl) zs)) (v1 + v2);
              CallStep o 2e-5]
        with ([CallZeroGrad o; CallForward model ids mask] ++
              [CallBackward
                 (GAdd (GCrossEntropy (GLogits ThreatHead ctx tl) ys)
                       (GCrossEntropy (GLogits SeverityHead ctx sl) zs)) (v1 + v2);
               CallStep o 2e-5]) in Hfront.
      apply app_inj_2 in Hfront as [_ Hfront]; [| reflexivity].
      now injection Hfront as <- _. }
    subst g.
    exists w', ids, mask, ys, zs, ctx, tl, sl, v1, v2.
    repeat (split; [assumption |]). exact Ht'.
  - intros model train_loader num_epochs w m Hm Hwf Hg Hall.
    destruct (train_model_run model train_loader num_epochs w m Hm Hwf Hg Hall)
      as (w' & ess & Hrun & (_ & _ & Ho) & Hc & Hlen & Hess & _).
    exists w', (optimizer_loc w), ess. split; [exact Hrun |].
    split; [apply optimizer_loc_fresh |]. split; [exact Ho |].
    split; [exact Hc |]. split; assumption.
Qed.

(** C8. On a well-formed batch (one valid threat label and one valid
    severity label per row) the loss the loop body of [train_model] hands to
    the backward pass is the sum of the cross entropy of the threat logits
    against the threat labels and of the cross entropy of the severity
    logits against the severity labels; neither term is negative, and so the
    loss is not negative.  Over a whole run of [train_model] on well-formed
    batches every loss handed to the backward pass is non-negative. *)
Theorem training_loss_nonnegative :
  (forall model o batch w, trainable model o w -> wf_batch batch ->
     exists w' front g ys zs tl sl v1 v2,
       train_model_batch model o batch w = (Ok tt, w') /\
       batch !! "threat_labels" = Some ys /\ batch !! "severity_labels" = Some zs /\
       cross_entropy tl ys = Ok v1 /\ cross_entropy sl zs = Ok v2 /\
       calls w' = calls w ++ front ++ [CallBackward g (v1 + v2); CallStep o 2e-5] /\
       Forall (fun c => ~ is_update c) front /\
       0 <= v1 /\ 0 <= v2 /\ 0 <= v1 + v2) /\
  (forall model train_loader num_epochs w m,
     heap w !! model = Some (ObjModel m) -> wf_params (params m) ->
     grad_mode w = true -> Forall wf_batch train_loader ->
     exists w' new,
       train_model model train_loader num_epochs w = (Ok tt, w') /\
       calls w' = calls w ++ new /\
       forall g v, CallBackward g v ∈ new -> 0 <= v).
Proof.
  split.
  - intros model o batch w Ht Hb.
    destruct (train_model_batch_run model o batch w Ht Hb)
      as (w' & cs & Hrun & _ & Hc & Hcs & _).
    destruct Hcs as (ids & mask & ys & zs & ctx & tl & sl & v1 & v2 & Hids & Hmask &
                     Hys & Hzs & _ & _ & _ & Hv1 & Hv2 & ->).
    destruct Hb as (ids' & mask' & ys' & zs' & _ & _ & Hys' & Hzs' & Hne & Hlen &
                    Hvy & Hvz & _).
    rewrite Hys in Hys'. injection Hys' as ->.
    rewrite Hzs in Hzs'. injection Hzs' as ->.
    assert (Hzne : zs' <> []) by (destruct zs', ys'; simpl in Hlen; congruence).
    pose proof (cross_entropy_nonneg tl ys' v1 Hv1 Hne Hvy) as H1.
    pose proof (cross_entropy_nonneg sl zs' v2 Hv2 Hzne Hvz) as H2.
    exists w', [CallZeroGrad o; CallForward model ids mask]. eexists.
    exists (I1 ys'), (I1 zs'), tl, sl, v1, v2.
    split; [exact Hrun |]. split; [exact Hys |]. split; [exact Hzs |].
    split; [exact Hv1 |]. split; [exact Hv2 |]. split; [exact Hc |].
    split; [constructor; [exact (fun F => F) |]; constructor; [exact (fun F => F) | constructor] |].
    split; [exact H1 |]. split; [exact H2 | lra].
  - intros model train_loader num_epochs w m Hm Hwf Hg Hall.
    destruct (train_model_run model train_loader num_epochs w m Hm Hwf Hg Hall)
      as (w' & ess & Hrun & _ & Hc & _ & _ & Hpos).
    exists w', (concat ess). split; [exact Hrun |]. split; [exact Hc |].
    intros g v Hin. rewrite Forall_forall in Hpos. exact (Hpos _ Hin).
Qed.

End TrainingClaims.

Lemma train_model_aborts_on_missing_labels_witness :
  stub_inputs !! "threat_labels" = None /\
  is_Raise (@train_model stub_external 1%positive ([stub_batch] ++ stub_inputs :: [stub_batch])
              5 (prescribed_world scenario_generator 1 0)).1.
Proof.
  destruct stub_inputs_lookup as (_ & _ & Hbad).
  split; [exact Hbad |].
  refine (proj1 (@train_model_aborts_on_missing_labels stub_external 1%positive
                   [stub_batch] [stub_batch] stub_inputs "threat_labels" 5
                   (prescribed_world scenario_generator 1 0) (or_introl eq_refl) Hbad _)).
  discriminate.
Defined.

Lemma train_model_batch_sequence_witness :
  Forall (@wf_batch stub_external) [stub_batch] /\
  exists w' ess,
    @train_model stub_external 1%positive [stub_batch] 2
                 (prescribed_world scenario_generator 1 0) = (Ok tt, w') /\
    calls w' = concat ess /\ length ess = 2%nat.
Proof.
  assert (Hall : Forall (@wf_batch stub_external) [stub_batch])
    by (constructor; [exact stub_batch_wf | constructor]).
  split; [exact Hall |].
  destruct (proj2 (@train_model_batch_sequence stub_external stub_external_spec)
              1%positive [stub_batch] 2%Z (prescribed_world scenario_generator 1 0)
              (prescribed_model [] 1 0) (prescribed_world_model _ 1 0)
              (prescribed_model_wf [] 1 0) eq_refl Hall)
    as (w' & o & ess & Hrun & _ & _ & Hc & Hlen & _).
  exists w', ess. split; [exact Hrun |]. split; [exact Hc | exact Hlen].
Defined.

Lemma training_loss_nonnegative_witness :
  Forall (@wf_batch stub_external) [stub_batch] /\
  exists w' new,
    @train_model stub_external 1%positive [stub_batch] 1
                 (prescribed_world scenario_generator 1 0) = (Ok tt, w') /\
    calls w' = new /\ forall g v, CallBackward g v ∈ new -> (0 <= v)%R.
Proof.
  assert (Hall : Forall (@wf_batch stub_external) [stub_batch])
    by (constructor; [exact stub_batch_wf | constructor]).
  split; [exact Hall |].
  destruct (proj2 (@training_loss_nonnegative stub_external stub_external_spec)
              1%positive [stub_batch] 1%Z (prescribed_world scenario_generator 1 0)
              (prescribed_model [] 1 0) (prescribed_world_model _ 1 0)
              (prescribed_model_wf [] 1 0) eq_refl Hall)
    as (w' & new & Hrun & Hc & Hpos).
  exists w', new. split; [exact Hrun |]. split; [exact Hc | exact Hpos].
Defined.
